(** * Address-book assistant (hw#2.py): a shallow embedding and its properties

    The program is a single Python module: field validators ([Phone],
    [Birthday]), [Record], [AddressBook] (a [UserDict]), seven command
    handlers wrapped by the [input_error] decorator, [parse_input], the
    session loop [main], and [save_data]/[load_data] on top of [pickle].

    Conventions of the embedding.
    - A Python [str] is a [string]; a character is a code point of the
      Latin-1 block (0..255), on which [str.isdigit], [str.isspace],
      [str.lower] and the regular-expression class [\d] are written out.
      The format of dates, where the library reads the digits of every
      script, is given on lists of code points as well (module
      [Unicode]); the two agree on the strings of Latin-1 characters.
    - A raised exception is a value of [exn]; a call that may raise returns
      [exn + A] ([inl] raises, [inr] returns).
    - Handlers mutate the book they are given: they are state-passing
      functions [AddressBook -> (exn + A) * AddressBook], the second component
      being the book as it is when the call returns or raises.
    - The literal texts of the program are constructors of [message]. *)

From Stdlib Require Import String Ascii List ZArith Bool Lia NArith.
Import ListNotations.

Local Open Scope string_scope.
Local Open Scope Z_scope.

(** ** Characters and the [str] methods the program calls *)

Module Str.

Definition code (c : ascii) : Z := Z.of_N (N_of_ascii c).

Definition in_range (lo hi : Z) (c : ascii) : bool :=
  (lo <=? code c) && (code c <=? hi).

(** The ten characters ['0'..'9']. *)
Definition is_decimal (c : ascii) : bool := in_range 48 57 c.

(** One character of [str.isdigit()]: besides the decimal digits, the
    characters with the Unicode property Numeric_Type=Digit; below 256
    these are the superscripts two, three (U+00B2, U+00B3) and one
    (U+00B9). *)
Definition isdigit_char (c : ascii) : bool :=
  is_decimal c || (code c =? 178) || (code c =? 179) || (code c =? 185).

(** One character of [str.isspace()] / the separators of [str.split()]:
    U+0009..U+000D, U+001C..U+001F, U+0020, U+0085, U+00A0. *)
Definition isspace_char (c : ascii) : bool :=
  in_range 9 13 c || in_range 28 32 c || (code c =? 133) || (code c =? 160).

(** One character of [str.lower()]: A..Z and the capital letters
    U+00C0..U+00DE (the multiplication sign U+00D7 apart) move up by 32. *)
Definition lower_char (c : ascii) : ascii :=
  if in_range 65 90 c || (in_range 192 222 c && negb (code c =? 215))
  then ascii_of_N (N_of_ascii c + 32) else c.

Fixpoint all (p : ascii -> bool) (s : string) : bool :=
  match s with
  | EmptyString => true
  | String c t => p c && all p t
  end.

Fixpoint map (f : ascii -> ascii) (s : string) : string :=
  match s with
  | EmptyString => EmptyString
  | String c t => String (f c) (map f t)
  end.

(** [len(s)] *)
Definition len (s : string) : Z := Z.of_nat (String.length s).

(** [s.isdigit()]: every character is a digit and there is at least one. *)
Definition isdigit (s : string) : bool :=
  match s with
  | EmptyString => false
  | _ => all isdigit_char s
  end.

(** [s.lower()] *)
Definition lower (s : string) : string := map lower_char s.

(** [s.split()]: the maximal runs of non-space characters, in order.
    [cur] is the run being read, if any. *)
Fixpoint split_from (cur : option string) (s : string) : list string :=
  match s with
  | EmptyString =>
      match cur with Some w => [w] | None => [] end
  | String c t =>
      if isspace_char c
      then match cur with
           | Some w => w :: split_from None t
           | None => split_from None t
           end
      else match cur with
           | Some w => split_from (Some (w ++ String c EmptyString)) t
           | None => split_from (Some (String c EmptyString)) t
           end
  end.

Definition split (s : string) : list string := split_from None s.

(** [s.strip()] on a string without space characters is the string itself;
    the program strips only tokens produced by [split]. *)
Fixpoint lstrip (s : string) : string :=
  match s with
  | String c t => if isspace_char c then lstrip t else s
  | EmptyString => EmptyString
  end.

Fixpoint rstrip (s : string) : string :=
  match s with
  | EmptyString => EmptyString
  | String c t =>
      match rstrip t with
      | EmptyString => if isspace_char c then EmptyString else String c EmptyString
      | t' => String c t'
      end
  end.

Definition strip (s : string) : string := rstrip (lstrip s).

(** [sep.join(parts)] *)
Fixpoint join (sep : string) (parts : list string) : string :=
  match parts with
  | [] => EmptyString
  | [p] => p
  | p :: rest => p ++ sep ++ join sep rest
  end.

End Str.

(** ** Messages and exceptions *)

(** The commands that take arguments, for the usage texts. *)
Inductive usage : Type :=
| UsageAdd            (* ... Використовуйте: add [имя] [телефон] *)
| UsageChange         (* ... change [ім'я] [новий_телефон] *)
| UsageShow           (* ... show [ім'я] *)
| UsageAddBirthday    (* ... add-birthday [ім'я] [дата] *)
| UsageShowBirthday.  (* ... show-birthday [ім'я] *)

(** The texts the program builds.  Each constructor is one literal or
    f-string of the source; the arguments are the interpolated values. *)
Inductive message : Type :=
| MsgBadPhone                     (* "Некоректний формат номера телефону. ..." *)
| MsgBadDate                      (* "Неправильний формат дати. Використовуйте ДД.ММ.ГГГГ" *)
| MsgArgCount (u : usage)         (* "Неправильна кількість аргументів. Використовуйте: ..." *)
| MsgNotFound (name : string)     (* f"Контакт '{name}' не знайдено." *)
| MsgRepr (m : message)           (* repr(m): what str() of a KeyError shows *)
| MsgAdded                        (* "Контакт доданий." *)
| MsgUpdated                      (* "Контакт оновлено." *)
| MsgChanged                      (* "Контакт успішно оновлено." *)
| MsgRecord (name : string) (phones : string)
                                  (* f"Ім'я контакту: {name}, телефон: {phones}" *)
| MsgEmptyBook                    (* "Список контактів порожній." *)
| MsgLines (lines : list (string * string))
                                  (* "\n".join(f"{a}: {b}" ...) *)
| MsgBirthdayAdded (name : string)
                                  (* f"Дату народження успішно додано для контакту '{name}'." *)
| MsgBirthdayNotSet (name : string)
                                  (* f"Для контакту '{name}' не вказано дату народження." *)
| MsgBirthdayIs (name : string) (shown : string)
                                  (* f"Дата народження контакту '{name}': {birthday}" *)
| MsgNoBirthdays                  (* "В адресній книзі немає контактів із днями народження." *)
| MsgWelcome                      (* "Welcome to the assistant bot!" *)
| MsgGoodbye                      (* "Goodbye!" *)
| MsgHello                        (* "How can I help you?" *)
| MsgInvalidCommand               (* "Недійсна команда." *)
| MsgLibrary (what : string).     (* a message of the Python library *)

Inductive exn : Type :=
| ValueError (m : message)
| KeyError (m : message)
| IndexError (m : message)
| TypeError (m : message)
| AttributeError (m : message)
| OverflowError (m : message)
| FileNotFoundError
| UnpicklingError
| EOFError.

(** [str(e)]: the message of the exception; for a [KeyError] the [repr] of
    its argument. *)
Definition str_exn (e : exn) : message :=
  match e with
  | ValueError m => m
  | KeyError m => MsgRepr m
  | IndexError m => m
  | TypeError m => m
  | AttributeError m => m
  | OverflowError m => m
  | FileNotFoundError => MsgLibrary "No such file or directory"
  | UnpicklingError => MsgLibrary "unpickling"
  | EOFError => MsgLibrary ""
  end.

Definition result (A : Type) : Type := (exn + A)%type.

(** ** Field, Name, Phone *)

(** [Phone] keeps its string in the private attribute [__value]
    ([_Phone__value]); [__init__] sets it to [None] and then assigns through
    the property setter. *)
Record Phone : Type := mkPhone { Phone__value : option string }.

(** The property getter. *)
Definition Phone_value (self : Phone) : option string := Phone__value self.

(** The property setter: [if len(value) == 10 and value.isdigit()]. *)
Definition Phone_set_value (self : Phone) (value : string) : result Phone :=
  if (Str.len value =? 10) && Str.isdigit value
  then inr (mkPhone (Some value))
  else inl (ValueError MsgBadPhone).

Definition Phone_new (value : string) : result Phone :=
  let self := mkPhone None in
  Phone_set_value self value.

(** [Field.__str__]: [str(self.value)]. *)
Definition Phone_str (self : Phone) : string :=
  match Phone_value self with
  | Some s => s
  | None => "None"
  end.

(** The claim's reading of a valid phone: ten characters, each one of
    ['0'..'9']. *)
Definition ten_decimal_digits (s : string) : Prop :=
  String.length s = 10%nat /\ Str.all Str.is_decimal s = true.

Definition superscript_two : ascii := "178"%char.

Definition ten_superscripts : string :=
  Eval cbv in
    String.concat "" (List.repeat (String superscript_two EmptyString) 10).

(** ** Calendar dates: [datetime.date] *)

Module Date.

(** A [date] object: its three fields.  The constructor [new] is the only
    way the program builds one, so that [1 <= year <= 9999] and the day
    exists in the month. *)
Record date : Type := mkDate { year : Z; month : Z; day : Z }.

Definition MINYEAR : Z := 1.
Definition MAXYEAR : Z := 9999.
Definition _MAXORDINAL : Z := 3652059.

Definition _is_leap (y : Z) : bool :=
  (y mod 4 =? 0) && (negb (y mod 100 =? 0) || (y mod 400 =? 0)).

Definition _DAYS_IN_MONTH : list Z :=
  [-1; 31; 28; 31; 30; 31; 30; 31; 31; 30; 31; 30; 31].

Definition _DAYS_BEFORE_MONTH : list Z :=
  [-1; 0; 31; 59; 90; 120; 151; 181; 212; 243; 273; 304; 334].

Definition index (table : list Z) (i : Z) : Z := nth (Z.to_nat i) table 0.

Definition _days_before_year (y : Z) : Z :=
  let y := y - 1 in
  y * 365 + y / 4 - y / 100 + y / 400.

Definition _days_in_month (y m : Z) : Z :=
  if (m =? 2) && _is_leap y then 29 else index _DAYS_IN_MONTH m.

Definition _days_before_month (y m : Z) : Z :=
  index _DAYS_BEFORE_MONTH m + (if (2 <? m) && _is_leap y then 1 else 0).

Definition _ymd2ord (y m d : Z) : Z :=
  _days_before_year y + _days_before_month y m + d.

Definition _DI400Y : Z := Eval cbv in _days_before_year 401.
Definition _DI100Y : Z := Eval cbv in _days_before_year 101.
Definition _DI4Y : Z := Eval cbv in _days_before_year 5.

(** The end of [_ord2ymd]: month and day of the day number [n] (from 0) of
    a year, leap or not. *)
Definition _month_day (leapyear : bool) (n : Z) : Z * Z :=
  let m := Z.shiftr (n + 50) 5 in
  let preceding :=
    index _DAYS_BEFORE_MONTH m + (if (2 <? m) && leapyear then 1 else 0) in
  if n <? preceding
  then
    let m := m - 1 in
    let preceding :=
      preceding
      - (index _DAYS_IN_MONTH m + (if (m =? 2) && leapyear then 1 else 0)) in
    (m, n - preceding + 1)
  else (m, n - preceding + 1).

Definition _ord2ymd (n : Z) : Z * Z * Z :=
  let n := n - 1 in
  let n400 := n / _DI400Y in
  let n := n mod _DI400Y in
  let y := n400 * 400 + 1 in
  let n100 := n / _DI100Y in
  let n := n mod _DI100Y in
  let n4 := n / _DI4Y in
  let n := n mod _DI4Y in
  let n1 := n / 365 in
  let n := n mod 365 in
  let y := y + n100 * 100 + n4 * 4 + n1 in
  if (n1 =? 4) || (n100 =? 4) then (y - 1, 12, 31)
  else
    let leapyear := (n1 =? 3) && (negb (n4 =? 24) || (n100 =? 3)) in
    let '(m, d) := _month_day leapyear n in
    (y, m, d).

(** [_check_date_fields], the check made by [date(y, m, d)]. *)
Definition valid (y m d : Z) : bool :=
  (MINYEAR <=? y) && (y <=? MAXYEAR)
  && (1 <=? m) && (m <=? 12)
  && (1 <=? d) && (d <=? _days_in_month y m).

(** The dates [date(y, m, d)] builds. *)
Definition well_formed (self : date) : Prop :=
  valid (year self) (month self) (day self) = true.

Definition new (y m d : Z) : result date :=
  if negb ((MINYEAR <=? y) && (y <=? MAXYEAR))
  then inl (ValueError (MsgLibrary "year is out of range"))
  else if negb ((1 <=? m) && (m <=? 12))
  then inl (ValueError (MsgLibrary "month must be in 1..12"))
  else if negb ((1 <=? d) && (d <=? _days_in_month y m))
  then inl (ValueError (MsgLibrary "day is out of range for month"))
  else inr (mkDate y m d).

Definition toordinal (self : date) : Z :=
  _ymd2ord (year self) (month self) (day self).

Definition fromordinal (n : Z) : date :=
  let '(y, m, d) := _ord2ymd n in mkDate y m d.

(** [self.weekday()]: Monday is 0, Sunday is 6. *)
Definition weekday (self : date) : Z := (toordinal self + 6) mod 7.

(** [self + timedelta(days=k)] *)
Definition add_days (self : date) (k : Z) : result date :=
  let o := toordinal self + k in
  if (0 <? o) && (o <=? _MAXORDINAL)
  then inr (fromordinal o)
  else inl (OverflowError (MsgLibrary "date value out of range")).

(** [(self - other).days] *)
Definition sub_days (self other : date) : Z := toordinal self - toordinal other.

(** [self.replace(year=y)] *)
Definition replace_year (self : date) (y : Z) : result date :=
  new y (month self) (day self).

(** [self < other]: the comparison of the tuples (year, month, day). *)
Definition ltb (self other : date) : bool :=
  (year self <? year other)
  || ((year self =? year other)
      && ((month self <? month other)
          || ((month self =? month other) && (day self <? day other)))).

Definition digit (d : Z) : ascii := ascii_of_N (Z.to_N (48 + d)).

(** ["%02d" % n], for [0 <= n < 100]. *)
Definition fmt02 (n : Z) : string :=
  String (digit (n / 10)) (String (digit (n mod 10)) EmptyString).

(** ["%04d" % n], for [0 <= n < 10000]. *)
Definition fmt04 (n : Z) : string :=
  String (digit (n / 1000))
    (String (digit (n / 100 mod 10))
       (String (digit (n / 10 mod 10))
          (String (digit (n mod 10)) EmptyString))).

(** [self.strftime("%Y.%m.%d")].  The year is written with four digits;
    the C library pads it or not below the year 1000. *)
Definition strftime_Ymd (self : date) : string :=
  fmt04 (year self) ++ "." ++ fmt02 (month self) ++ "." ++ fmt02 (day self).

(** [str(self)], the ISO format. *)
Definition isoformat (self : date) : string :=
  fmt04 (year self) ++ "-" ++ fmt02 (month self) ++ "-" ++ fmt02 (day self).

End Date.

(** ** [datetime.strptime(value, "%d.%m.%Y")] *)

Module Strptime.

(** The fragment of regular expressions the format compiles to: character
    classes, sequence and ordered alternative. *)
Inductive regex : Type :=
| Cls (p : ascii -> bool)
| Seq (a b : regex)
| Alt (a b : regex).

(** Backtracking matcher at the start of [s]: every way to match, as
    (text matched, rest of the input), in the order the engine tries
    them (left alternative first). *)
Fixpoint re_match (r : regex) (s : string) : list (string * string) :=
  match r with
  | Cls p =>
      match s with
      | String c t => if p c then [(String c EmptyString, t)] else []
      | EmptyString => []
      end
  | Seq a b =>
      flat_map
        (fun xt => List.map (fun yu => (fst xt ++ fst yu, snd yu))
                     (re_match b (snd xt)))
        (re_match a s)
  | Alt a b => re_match a s ++ re_match b s
  end.

Definition chr (c : ascii) : regex := Cls (Ascii.eqb c).
Definition rng (lo hi : ascii) : regex :=
  Cls (Str.in_range (Str.code lo) (Str.code hi)).
(** [\d]: a Unicode decimal digit; below 256 these are ['0'..'9'].  The
    class on all characters is [Unicode.any_digit]. *)
Definition any_digit : regex := Cls Str.is_decimal.

(** ['d': r"(?P<d>3[0-1]|[1-2]\d|0[1-9]|[1-9]| [1-9])"] *)
Definition re_d : regex :=
  Alt (Seq (chr "3") (rng "0" "1"))
    (Alt (Seq (rng "1" "2") any_digit)
       (Alt (Seq (chr "0") (rng "1" "9"))
          (Alt (rng "1" "9")
             (Seq (chr " ") (rng "1" "9"))))).

(** ['m': r"(?P<m>1[0-2]|0[1-9]|[1-9])"] *)
Definition re_m : regex :=
  Alt (Seq (chr "1") (rng "0" "2"))
    (Alt (Seq (chr "0") (rng "1" "9"))
       (rng "1" "9")).

(** ['Y': r"(?P<Y>\d\d\d\d)"] *)
Definition re_Y : regex :=
  Seq any_digit (Seq any_digit (Seq any_digit any_digit)).

Definition dot : regex := chr ".".

(** The groups of one match and the input left after it. *)
Record found : Type :=
  mkFound { group_d : string; group_m : string; group_Y : string;
            remains : string }.

(** All matches of the compiled format [(?P<d>..)\.(?P<m>..)\.(?P<Y>..)]
    at the start of the input, in the engine's order. *)
Definition matches (data_string : string) : list found :=
  flat_map (fun d =>
  flat_map (fun p1 =>
  flat_map (fun m =>
  flat_map (fun p2 =>
  List.map (fun y => mkFound (fst d) (fst m) (fst y) (snd y))
    (re_match re_Y (snd p2)))
    (re_match dot (snd m)))
    (re_match re_m (snd p1)))
    (re_match dot (snd d)))
    (re_match re_d data_string).

(** [format_regex.match(data_string)]: the first match, if any. *)
Definition regex_match (data_string : string) : option found :=
  hd_error (matches data_string).

(** [int(text)] on the text of a group: leading spaces are skipped, the
    rest is read in base ten. *)
Fixpoint int_digits (acc : Z) (s : string) : Z :=
  match s with
  | EmptyString => acc
  | String c t => int_digits (acc * 10 + (Str.code c - 48)) t
  end.

Definition int (text : string) : Z := int_digits 0 (Str.strip text).

(** [datetime.strptime(data_string, "%d.%m.%Y").date()] *)
Definition strptime (data_string : string) : result Date.date :=
  match regex_match data_string with
  | None => inl (ValueError (MsgLibrary "time data does not match format"))
  | Some f =>
      match remains f with
      | String _ _ => inl (ValueError (MsgLibrary "unconverted data remains"))
      | EmptyString =>
          Date.new (int (group_Y f)) (int (group_m f)) (int (group_d f))
      end
  end.

End Strptime.

(** ** Birthday *)

(** What the attribute [value] of a [Birthday] holds at run time. *)
Inductive pyvalue : Type :=
| VStr (s : string)
| VDate (d : Date.date).

Record Birthday : Type := mkBirthday { Birthday_value : pyvalue }.

(** [Field.__init__(self, value)]: [self.value = value]. *)
Definition Field_init (self : Birthday) (value : pyvalue) : Birthday :=
  mkBirthday value.

(** [Birthday.__init__]: the parsed date is assigned to [self.value], then
    [super().__init__(value)] assigns the argument [value], the input
    string, to the same attribute.  Any [ValueError] of the parse is
    replaced by the program's own. *)
Definition Birthday_new (value : string) : result Birthday :=
  match Strptime.strptime value with
  | inr d =>
      let self := mkBirthday (VDate d) in
      let self := Field_init self (VStr value) in
      inr self
  | inl (ValueError _) => inl (ValueError MsgBadDate)
  | inl e => inl e
  end.

(** [str(value)] *)
Definition str_value (v : pyvalue) : string :=
  match v with
  | VStr s => s
  | VDate d => Date.isoformat d
  end.

(** [Field.__str__] on a [Birthday]. *)
Definition Birthday_str (self : Birthday) : string :=
  str_value (Birthday_value self).

(** ** Record *)

Record Name : Type := mkName { Name_value : string }.

Module Rec.

(** One contact: [self.name], [self.phones], [self.birthday]. *)
Record Record_ : Type :=
  mkRecord { name : Name; phones : list Phone; birthday : option Birthday }.

(** [Record(name)] *)
Definition new (n : string) : Record_ := mkRecord (mkName n) [] None.

(** [self.phones.append(Phone(phone))] *)
Definition add_phone (self : Record_) (phone : string) : result Record_ :=
  match Phone_new phone with
  | inl e => inl e
  | inr p => inr (mkRecord (name self) (phones self ++ [p]) (birthday self))
  end.

Definition has_value (phone : string) (p : Phone) : bool :=
  match Phone_value p with
  | Some v => String.eqb v phone
  | None => false
  end.

(** The loop of [remove_phone]: the first phone whose value is [phone]
    is taken out, and the loop stops. *)
Fixpoint remove_first (phone : string) (ps : list Phone) : list Phone :=
  match ps with
  | [] => []
  | p :: rest => if has_value phone p then rest else p :: remove_first phone rest
  end.

Definition remove_phone (self : Record_) (phone : string) : Record_ :=
  mkRecord (name self) (remove_first phone (phones self)) (birthday self).

(** The loop of [edit_phone]: the first phone whose value is [old_phone]
    is assigned [new_phone] through the setter, and the loop stops. *)
Fixpoint edit_first (old_phone new_phone : string) (ps : list Phone)
  : result (list Phone) :=
  match ps with
  | [] => inr []
  | p :: rest =>
      if has_value old_phone p
      then match Phone_set_value p new_phone with
           | inl e => inl e
           | inr p' => inr (p' :: rest)
           end
      else match edit_first old_phone new_phone rest with
           | inl e => inl e
           | inr rest' => inr (p :: rest')
           end
  end.

Definition edit_phone (self : Record_) (old_phone new_phone : string)
  : result Record_ :=
  match edit_first old_phone new_phone (phones self) with
  | inl e => inl e
  | inr ps => inr (mkRecord (name self) ps (birthday self))
  end.

Fixpoint find_phone_in (phone : string) (ps : list Phone) : option string :=
  match ps with
  | [] => None
  | p :: rest =>
      if has_value phone p then Phone_value p else find_phone_in phone rest
  end.

Definition find_phone (self : Record_) (phone : string) : option string :=
  find_phone_in phone (phones self).

(** [self.birthday = Birthday(birthday)] *)
Definition add_birthday (self : Record_) (b : string) : result Record_ :=
  match Birthday_new b with
  | inl e => inl e
  | inr b' => inr (mkRecord (name self) (phones self) (Some b'))
  end.

(** The values of the phones, as [str(p)] shows them. *)
Definition phone_strings (self : Record_) : list string :=
  List.map Phone_str (phones self).

(** [Record.__str__] *)
Definition str (self : Record_) : message :=
  MsgRecord (Name_value (name self)) (Str.join "; " (phone_strings self)).

End Rec.

(** ** A [dict] with string keys

    Python keeps the keys in insertion order and iterates in that order;
    assigning to a key that is present keeps its place. *)

Module Dict.

Section Values.

Context {V : Type}.

Definition dict : Type := list (string * V).

Fixpoint get (d : dict) (k : string) : option V :=
  match d with
  | [] => None
  | (k', v) :: rest => if String.eqb k' k then Some v else get rest k
  end.

Definition contains (d : dict) (k : string) : bool :=
  match get d k with Some _ => true | None => false end.

(** [d[k] = v] *)
Fixpoint set (d : dict) (k : string) (v : V) : dict :=
  match d with
  | [] => [(k, v)]
  | (k', v') :: rest =>
      if String.eqb k' k then (k', v) :: rest else (k', v') :: set rest k v
  end.

(** [del d[k]], for a key that is present. *)
Fixpoint del (d : dict) (k : string) : dict :=
  match d with
  | [] => []
  | (k', v') :: rest =>
      if String.eqb k' k then rest else (k', v') :: del rest k
  end.

Definition keys (d : dict) : list string := List.map fst d.

End Values.

Arguments dict V : clear implicits.

End Dict.

(** ** AddressBook *)

(** [AddressBook(UserDict)]: the attribute [data], from the value of a
    record's name to the record. *)
Record AddressBook : Type := mkBook { data : Dict.dict Rec.Record_ }.

Module Book.

Import Date.

(** [AddressBook()] *)
Definition empty : AddressBook := mkBook [].

(** [self.data[record.name.value] = record] *)
Definition add_record (self : AddressBook) (record : Rec.Record_) : AddressBook :=
  mkBook (Dict.set (data self) (Name_value (Rec.name record)) record).

(** [self.data.get(name)] *)
Definition find (self : AddressBook) (n : string) : option Rec.Record_ :=
  Dict.get (data self) n.

Definition delete (self : AddressBook) (n : string) : AddressBook :=
  if Dict.contains (data self) n then mkBook (Dict.del (data self) n) else self.

(** Lines 141-144: [datetime(today.year, value.month, value.day).date()],
    and the same for the year after when that day is before [today].
    [value.month] is an attribute of a date; a [str] has none. *)
Definition occurrence_by_fields (today : date) (value : pyvalue) : result date :=
  match value with
  | VStr _ => inl (AttributeError (MsgLibrary "'str' object has no attribute 'month'"))
  | VDate b =>
      match Date.new (year today) (month b) (day b) with
      | inl e => inl e
      | inr birthday_this_year =>
          if Date.ltb birthday_this_year today
          then Date.new (year today + 1) (month b) (day b)
          else inr birthday_this_year
      end
  end.

(** Lines 146-147: [while d.weekday() != weekday: d += timedelta(days=1)].
    [fuel] bounds the number of additions; [None] when it is used up.
    The result carries the number of additions made. *)
Fixpoint advance (fuel : nat) (weekday : Z) (d : date) (steps : nat)
  : option (result (date * nat)) :=
  if Date.weekday d =? weekday then Some (inr (d, steps))
  else match fuel with
       | O => None
       | S fuel' =>
           match Date.add_days d 1 with
           | inl e => Some (inl e)
           | inr d' => advance fuel' weekday d' (S steps)
           end
       end.

(** Lines 139-150, the loop over [self.data.items()]. *)
Fixpoint find_next_birthday_loop (fuel : nat) (today : date) (weekday : Z)
    (items : list (string * Rec.Record_)) (next_birthday : option date)
  : option (result (option date)) :=
  match items with
  | [] => Some (inr next_birthday)
  | (_, record) :: rest =>
      match Rec.birthday record with
      | None => find_next_birthday_loop fuel today weekday rest next_birthday
      | Some b =>
          match occurrence_by_fields today (Birthday_value b) with
          | inl e => Some (inl e)
          | inr birthday_this_year =>
              match advance fuel weekday birthday_this_year 0 with
              | None => None
              | Some (inl e) => Some (inl e)
              | Some (inr (birthday_this_year, _)) =>
                  let next_birthday :=
                    match next_birthday with
                    | None => Some birthday_this_year
                    | Some nb =>
                        if Date.sub_days birthday_this_year today
                           <? Date.sub_days nb today
                        then Some birthday_this_year
                        else Some nb
                    end in
                  find_next_birthday_loop fuel today weekday rest next_birthday
              end
          end
      end
  end.

(** [find_next_birthday(weekday)], with [today] the date read from the
    clock.  [None]: the fuel of a weekday loop was used up. *)
Definition find_next_birthday (fuel : nat) (today : date) (self : AddressBook)
    (weekday : Z) : option (result (option date)) :=
  find_next_birthday_loop fuel today weekday (data self) None.

(** Lines 160-162: [value.replace(year=today.year)], and the year after
    when that day is before [today].  [replace] of a date takes the
    keyword [year]; [str.replace] takes no keyword. *)
Definition occurrence_by_replace (today : date) (value : pyvalue) : result date :=
  match value with
  | VStr _ => inl (TypeError (MsgLibrary "str.replace() takes no keyword arguments"))
  | VDate b =>
      match Date.replace_year b (year today) with
      | inl e => inl e
      | inr birthday_this_year =>
          if Date.ltb birthday_this_year today
          then Date.replace_year birthday_this_year (year today + 1)
          else inr birthday_this_year
      end
  end.

(** Lines 165-166: a Saturday or Sunday moves to the Monday after. *)
Definition skip_weekend (d : date) : result date :=
  if 5 <=? Date.weekday d
  then Date.add_days d (7 - Date.weekday d)
  else inr d.

(** Lines 158-171, the loop over [self.data.items()]; [upcoming] is the
    list built so far. *)
Fixpoint get_upcoming_birthday_loop (days : Z) (today : date)
    (items : list (string * Rec.Record_)) (upcoming : list (string * string))
  : result (list (string * string)) :=
  match items with
  | [] => inr upcoming
  | (n, record) :: rest =>
      match Rec.birthday record with
      | None => get_upcoming_birthday_loop days today rest upcoming
      | Some b =>
          match occurrence_by_replace today (Birthday_value b) with
          | inl e => inl e
          | inr birthday_this_year =>
              let delta := Date.sub_days birthday_this_year today in
              if (0 <=? delta) && (delta <=? days)
              then match skip_weekend birthday_this_year with
                   | inl e => inl e
                   | inr congratulation_date =>
                       get_upcoming_birthday_loop days today rest
                         (upcoming ++ [(n, Date.strftime_Ymd congratulation_date)])
                   end
              else get_upcoming_birthday_loop days today rest upcoming
          end
      end
  end.

(** [get_upcoming_birthday(days)]; an entry (name, text) is the dictionary
    with the keys "name" and "congratulation_date". *)
Definition get_upcoming_birthday (today : date) (self : AddressBook) (days : Z)
  : result (list (string * string)) :=
  get_upcoming_birthday_loop days today (data self) [].

End Book.

(** ** Command handlers *)

(** A handler runs on the book and may change it before it returns or
    raises. *)
Definition M (A : Type) : Type := AddressBook -> result A * AddressBook.

Definition ret {A : Type} (a : A) : M A := fun book => (inr a, book).

Definition raise {A : Type} (e : exn) : M A := fun book => (inl e, book).

Definition bind {A B : Type} (m : M A) (k : A -> M B) : M B :=
  fun book =>
    match m book with
    | (inl e, book') => (inl e, book')
    | (inr a, book') => k a book'
    end.

Definition get_book : M AddressBook := fun book => (inr book, book).

Definition put_book (book' : AddressBook) : M unit := fun _ => (inr tt, book').

Notation "x <- m ;; k" := (bind m (fun x => k))
  (at level 61, m at next level, right associativity).
Notation "m ;;; k" := (bind m (fun _ => k))
  (at level 61, right associativity).

(** Lifting a call that may raise and leaves the book alone. *)
Definition lift {A : Type} (r : result A) : M A := fun book => (r, book).

(** The decorator [input_error]: a [KeyError], [ValueError] or [IndexError]
    of the wrapped call becomes the returned text [str(e)]; anything else
    passes through. *)
Definition input_error (func : M message) : M message :=
  fun book =>
    match func book with
    | (inl (KeyError m), book') => (inr (str_exn (KeyError m)), book')
    | (inl (ValueError m), book') => (inr (str_exn (ValueError m)), book')
    | (inl (IndexError m), book') => (inr (str_exn (IndexError m)), book')
    | other => other
    end.

(** The functions under the decorator. *)
Module Body.

(** [for phone in phones: record.add_phone(phone)].  [record] is the
    object stored in the book under [n] (found there, or just added
    there), so every append shows in the book at once, also when a later
    phone raises. *)
Fixpoint add_phones (n : string) (record : Rec.Record_) (phones : list string)
  : M unit :=
  match phones with
  | [] => ret tt
  | phone :: rest =>
      record' <- lift (Rec.add_phone record phone) ;;
      book <- get_book ;;
      put_book (mkBook (Dict.set (data book) n record')) ;;;
      add_phones n record' rest
  end.

Definition add_contact (args : list string) : M message :=
  if Z.of_nat (length args) <? 2
  then raise (ValueError (MsgArgCount UsageAdd))
  else
    match args with
    | [] => raise (IndexError (MsgLibrary "list index out of range"))
    | n :: phones =>
        book <- get_book ;;
        match Book.find book n with
        | None =>
            let record := Rec.new n in
            put_book (Book.add_record book record) ;;;
            add_phones n record phones ;;;
            ret MsgAdded
        | Some record =>
            add_phones n record phones ;;;
            ret MsgUpdated
        end
    end.

Definition change_contact (args : list string) : M message :=
  match args with
  | [n; phone] =>
      book <- get_book ;;
      match Dict.get (data book) n with
      | None => raise (KeyError (MsgNotFound n))
      | Some record =>
          p <- lift (Phone_new phone) ;;
          put_book
            (mkBook (Dict.set (data book) n
                       (Rec.mkRecord (Rec.name record) [p] (Rec.birthday record)))) ;;;
          ret MsgChanged
      end
  | _ => raise (ValueError (MsgArgCount UsageChange))
  end.

Definition show_contacts (args : list string) : M message :=
  match args with
  | [n] =>
      book <- get_book ;;
      match Dict.get (data book) n with
      | None => raise (KeyError (MsgNotFound n))
      | Some record => ret (Rec.str record)
      end
  | _ => raise (ValueError (MsgArgCount UsageShow))
  end.

Definition show_all_contacts : M message :=
  book <- get_book ;;
  match data book with
  | [] => ret MsgEmptyBook
  | items =>
      ret (MsgLines
             (List.map
                (fun item => (fst item, Str.join ", " (Rec.phone_strings (snd item))))
                items))
  end.

Definition add_birthday (args : list string) : M message :=
  match args with
  | [n; b] =>
      book <- get_book ;;
      match Dict.get (data book) n with
      | None => raise (KeyError (MsgNotFound n))
      | Some record =>
          record' <- lift (Rec.add_birthday record b) ;;
          put_book (mkBook (Dict.set (data book) n record')) ;;;
          ret (MsgBirthdayAdded n)
      end
  | _ => raise (ValueError (MsgArgCount UsageAddBirthday))
  end.

Definition show_birthday (args : list string) : M message :=
  match args with
  | [n] =>
      book <- get_book ;;
      match Dict.get (data book) n with
      | None => raise (KeyError (MsgNotFound n))
      | Some record =>
          match Rec.birthday record with
          | None => ret (MsgBirthdayNotSet n)
          | Some b => ret (MsgBirthdayIs n (Birthday_str b))
          end
      end
  | _ => raise (ValueError (MsgArgCount UsageShowBirthday))
  end.

(** The list [birthdays_list] of [all_birthdays]. *)
Fixpoint birthdays_list (items : list (string * Rec.Record_))
  : list (string * pyvalue) :=
  match items with
  | [] => []
  | (n, record) :: rest =>
      match Rec.birthday record with
      | Some b => (n, Birthday_value b) :: birthdays_list rest
      | None => birthdays_list rest
      end
  end.

Definition all_birthdays : M message :=
  book <- get_book ;;
  match birthdays_list (data book) with
  | [] => ret MsgNoBirthdays
  | l => ret (MsgLines (List.map (fun nb => (fst nb, str_value (snd nb))) l))
  end.

End Body.

(** The names the module binds: each function as decorated. *)
Definition add_contact (args : list string) : M message :=
  input_error (Body.add_contact args).
Definition change_contact (args : list string) : M message :=
  input_error (Body.change_contact args).
Definition show_contacts (args : list string) : M message :=
  input_error (Body.show_contacts args).
Definition show_all_contacts : M message :=
  input_error Body.show_all_contacts.
Definition add_birthday (args : list string) : M message :=
  input_error (Body.add_birthday args).
Definition show_birthday (args : list string) : M message :=
  input_error (Body.show_birthday args).
Definition all_birthdays : M message :=
  input_error Body.all_birthdays.

(** ** The session *)

(** [cmd, *args = user_input.split()]: unpacking an empty list raises
    [ValueError]. *)
Definition parse_input (user_input : string) : result (string * list string) :=
  match Str.split user_input with
  | [] =>
      inl (ValueError
             (MsgLibrary "not enough values to unpack (expected at least 1, got 0)"))
  | cmd :: args => inr (Str.lower (Str.strip cmd), args)
  end.

(** What the console shows. *)
Inductive output : Type :=
| Prompt                         (* "Enter a command: " *)
| Print (m : message)            (* ConsoleView.display_message *)
| PrintContact (n : string) (ps : string)
                                 (* a line of ConsoleView.display_contacts *)
| PrintHelp.                     (* ConsoleView.display_help *)

(** One turn of the [while True] loop, after the line was read. *)
Inductive turn : Type :=
| Continue (out : list output) (book : AddressBook)
| Break (out : list output) (book : AddressBook)
| Uncaught (e : exn).

(** [view.display_message(handler(args, book))] *)
Definition display_result (r : result message * AddressBook) : turn :=
  match r with
  | (inr m, book') => Continue [Print m] book'
  | (inl e, _) => Uncaught e
  end.

(** [ConsoleView.display_contacts] on the dictionary built by the branch
    "all". *)
Definition display_contacts (book : AddressBook) : list output :=
  match data book with
  | [] => [Print MsgEmptyBook]
  | items =>
      List.map
        (fun item => PrintContact (fst item)
                       (Str.join ", " (Rec.phone_strings (snd item))))
        items
  end.

(** The body of the loop of [main], lines 276-301. *)
Definition main_step (book : AddressBook) (user_input : string) : turn :=
  match parse_input user_input with
  | inl e => Uncaught e
  | inr (command, args) =>
      if String.eqb command "close" || String.eqb command "exit"
      then Break [Print MsgGoodbye] book
      else if String.eqb command "hello" then Continue [Print MsgHello] book
      else if String.eqb command "add" then display_result (add_contact args book)
      else if String.eqb command "change" then display_result (change_contact args book)
      else if String.eqb command "show" then display_result (show_contacts args book)
      else if String.eqb command "all" then Continue (display_contacts book) book
      else if String.eqb command "add-birthday"
      then display_result (add_birthday args book)
      else if String.eqb command "show-birthday"
      then display_result (show_birthday args book)
      else if String.eqb command "all-birthdays"
      then display_result (all_birthdays book)
      else Continue [Print MsgInvalidCommand; PrintHelp] book
  end.

(** How the process ends. *)
Inductive termination : Type :=
| Exited                 (* the loop was left by [break]; [main] returned *)
| Died (e : exn).        (* an exception reached the top level *)

(** ** Persistence and [main]

    [pickle] is a library: its byte format is a parameter, a pair of
    functions between books and file contents. *)
Section Persistence.

Variable blob : Type.
Variable pickle_dump : AddressBook -> blob.
Variable pickle_load : blob -> result AddressBook.

(** The files of the working directory, by name. *)
Definition filesystem : Type := string -> option blob.

Definition write_file (fs : filesystem) (filename : string) (content : blob)
  : filesystem :=
  fun f => if String.eqb f filename then Some content else fs f.

Definition default_filename : string := "addressbook.pkl".

(** [save_data(book, filename)]: open for writing (the file is created or
    truncated) and dump. *)
Definition save_data (book : AddressBook) (filename : string) (fs : filesystem)
  : filesystem :=
  write_file fs filename (pickle_dump book).

(** [open(filename, "rb")]: a file that is not there raises
    [FileNotFoundError]. *)
Definition open_rb (filename : string) (fs : filesystem) : result blob :=
  match fs filename with
  | Some content => inr content
  | None => inl FileNotFoundError
  end.

(** [load_data(filename)]: the [try] holds both [open] and [pickle.load];
    a [FileNotFoundError] raised by either gives a new book, any other
    exception is raised. *)
Definition load_data (filename : string) (fs : filesystem) : result AddressBook :=
  let attempt :=
    match open_rb filename fs with
    | inr f => pickle_load f
    | inl e => inl e
    end in
  match attempt with
  | inl FileNotFoundError => inr Book.empty
  | outcome => outcome
  end.

(** The loop of [main] on the lines typed; [input] raises [EOFError] when
    there is none left. *)
Fixpoint main_loop (inputs : list string) (book : AddressBook) (fs : filesystem)
  : list output * filesystem * termination :=
  match inputs with
  | [] => ([Prompt], fs, Died EOFError)
  | user_input :: rest =>
      match main_step book user_input with
      | Uncaught e => ([Prompt], fs, Died e)
      | Break out book' =>
          (Prompt :: out, save_data book' default_filename fs, Exited)
      | Continue out book' =>
          let '(out', fs', t) := main_loop rest book' fs in
          (Prompt :: out ++ out', fs', t)
      end
  end.

Definition main (inputs : list string) (fs : filesystem)
  : list output * filesystem * termination :=
  match load_data default_filename fs with
  | inl e => ([], fs, Died e)
  | inr book =>
      let '(out, fs', t) := main_loop inputs book fs in
      (Print MsgWelcome :: out, fs', t)
  end.

End Persistence.

(** ** The texts of dates, for the statements about [Birthday] *)

Module DateText.

Import Strptime.

(** The strings a regular expression matches in full. *)
Inductive lang : regex -> string -> Prop :=
| lang_cls (p : ascii -> bool) (c : ascii) :
    p c = true -> lang (Cls p) (String c EmptyString)
| lang_seq (a b : regex) (x y : string) :
    lang a x -> lang b y -> lang (Seq a b) (x ++ y)
| lang_alt_l (a b : regex) (x : string) : lang a x -> lang (Alt a b) x
| lang_alt_r (a b : regex) (x : string) : lang b x -> lang (Alt a b) x.

(** The value of a decimal digit. *)
Definition val (c : ascii) : Z := Str.code c - 48.

Definition decimal (c : ascii) : Prop := Str.is_decimal c = true.

(** A day as [strptime] reads it: two digits from 01 to 31, or one digit
    from 1 to 9, alone or after one space. *)
Inductive day_text : string -> Z -> Prop :=
| day_two_digits (a b : ascii) :
    decimal a -> decimal b -> 1 <= 10 * val a + val b <= 31 ->
    day_text (String a (String b EmptyString)) (10 * val a + val b)
| day_one_digit (a : ascii) :
    decimal a -> 1 <= val a ->
    day_text (String a EmptyString) (val a)
| day_space_digit (a : ascii) :
    decimal a -> 1 <= val a ->
    day_text (String " " (String a EmptyString)) (val a).

(** A month as [strptime] reads it: two digits from 01 to 12, or one digit
    from 1 to 9. *)
Inductive month_text : string -> Z -> Prop :=
| month_two_digits (a b : ascii) :
    decimal a -> decimal b -> 1 <= 10 * val a + val b <= 12 ->
    month_text (String a (String b EmptyString)) (10 * val a + val b)
| month_one_digit (a : ascii) :
    decimal a -> 1 <= val a ->
    month_text (String a EmptyString) (val a).

(** A year: four digits. *)
Inductive year_text : string -> Z -> Prop :=
| year_four_digits (a b c d : ascii) :
    decimal a -> decimal b -> decimal c -> decimal d ->
    year_text (String a (String b (String c (String d EmptyString))))
      (1000 * val a + 100 * val b + 10 * val c + val d).

(** No character of the string is the dot that separates the fields. *)
Definition no_dot (x : string) : Prop :=
  Str.all (fun c => negb (Ascii.eqb "." c)) x = true.

(** The strings [strptime] reads as the day [d] of month [m] of year [y]. *)
Definition reads_as (s : string) (y m d : Z) : Prop :=
  exists D M Y : string,
    s = D ++ "." ++ M ++ "." ++ Y
    /\ day_text D d /\ month_text M m /\ year_text Y y.

(** A day of the calendar of [datetime.date]: years 1 to 9999. *)
Definition real_date (y m d : Z) : Prop := Date.valid y m d = true.

End DateText.

(** ** [Birthday] on strings of any characters

    The line typed by the user is a [str] of Unicode characters, and the
    date format is where the program tells characters beyond Latin-1
    apart: the class [\d] of the regular expression and [int] read the
    decimal digits of every script, the other classes of the format only
    ['0'..'9'].  Here a [str] is the list of its code points, and the
    decimal digits are those of the interpreter's Unicode database, a
    parameter. *)

Module Unicode.

Definition text : Type := list Z.

(** The code points of a string of Latin-1 characters. *)
Definition of_string (s : string) : text :=
  List.map Str.code (list_ascii_of_string s).

Definition in_range (lo hi : Z) (c : Z) : bool := (lo <=? c) && (c <=? hi).

(** The white space [int] skips around the digits: U+0009..U+000D and the
    space of ASCII, and the white space beyond it, U+0085, U+00A0, U+1680,
    U+2000..U+200A, U+2028, U+2029, U+202F, U+205F and U+3000. *)
Definition int_space_char (c : Z) : bool :=
  in_range 9 13 c || (c =? 32) || (c =? 133) || (c =? 160)
  || (c =? 5760) || in_range 8192 8202 c || (c =? 8232) || (c =? 8233)
  || (c =? 8239) || (c =? 8287) || (c =? 12288).

Fixpoint lstrip (s : text) : text :=
  match s with
  | c :: t => if int_space_char c then lstrip t else s
  | [] => []
  end.

Fixpoint rstrip (s : text) : text :=
  match s with
  | [] => []
  | c :: t =>
      match rstrip t with
      | [] => if int_space_char c then [] else [c]
      | t' => c :: t'
      end
  end.

(** The text without the white space at its ends. *)
Definition strip (s : text) : text := rstrip (lstrip s).

(** Regular expressions and the backtracking matcher, as in [Strptime],
    on code points. *)
Inductive regex : Type :=
| Cls (p : Z -> bool)
| Seq (a b : regex)
| Alt (a b : regex).

Fixpoint re_match (r : regex) (s : text) : list (text * text) :=
  match r with
  | Cls p =>
      match s with
      | c :: t => if p c then [([c], t)] else []
      | [] => []
      end
  | Seq a b =>
      flat_map
        (fun xt => List.map (fun yu => ((fst xt ++ fst yu)%list, snd yu))
                     (re_match b (snd xt)))
        (re_match a s)
  | Alt a b => (re_match a s ++ re_match b s)%list
  end.

(** A literal character and a range of characters.  The format is
    compiled with [IGNORECASE]; no character has a digit, the dot or the
    space as the other case of it, so these classes hold the characters
    written and no other. *)
Definition chr (c : ascii) : regex := Cls (Z.eqb (Str.code c)).
Definition rng (lo hi : ascii) : regex :=
  Cls (in_range (Str.code lo) (Str.code hi)).

Definition dot : regex := chr ".".

Record found : Type :=
  mkFound { group_d : text; group_m : text; group_Y : text;
            remains : text }.

Inductive pyvalue : Type :=
| VStr (s : text)
| VDate (d : Date.date).

Record Birthday : Type := mkBirthday { Birthday_value : pyvalue }.

(** [Field.__init__(self, value)]: [self.value = value]. *)
Definition Field_init (self : Birthday) (value : pyvalue) : Birthday :=
  mkBirthday value.

(** A database of decimal digits from the first characters of its runs:
    the decimal digits of a script are ten consecutive characters, of
    values 0 to 9. *)
Definition decimal_of_runs (zeros : list Z) (c : Z) : option Z :=
  match List.find (fun z => in_range z (z + 9) c) zeros with
  | Some z => Some (c - z)
  | None => None
  end.

(** The runs of Unicode 14.0, the database of CPython 3.11: ASCII,
    Arabic-Indic, Extended Arabic-Indic, NKo, Devanagari, ..., the
    mathematical digits and the last ones of the supplementary planes. *)
Definition unicode_14_zeros : list Z :=
  [48; 1632; 1776; 1984; 2406; 2534; 2662; 2790; 2918; 3046; 3174; 3302;
   3430; 3558; 3664; 3792; 3872; 4160; 4240; 6112; 6160; 6470; 6608; 6784;
   6800; 6992; 7088; 7232; 7248; 42528; 43216; 43264; 43472; 43504; 43600;
   44016; 65296; 66720; 68912; 69734; 69872; 69942; 70096; 70384; 70736;
   70864; 71248; 71360; 71472; 71904; 72016; 72784; 73040; 73120; 92768;
   92864; 93008; 120782; 120792; 120802; 120812; 120822; 123200; 123632;
   125264; 130032].

Definition unicode_14 : Z -> option Z := decimal_of_runs unicode_14_zeros.

Section Database.

(** [unicodedata.decimal(chr(c), None)]: the value of the character as a
    decimal digit, for the characters that are one (category Nd). *)
Variable decimal : Z -> option Z.

Definition isdecimal_char (c : Z) : bool :=
  match decimal c with
  | Some _ => true
  | None => false
  end.

(** [\d] in a [str] pattern: a decimal digit of any script. *)
Definition any_digit : regex := Cls isdecimal_char.

(** ['d': r"(?P<d>3[0-1]|[1-2]\d|0[1-9]|[1-9]| [1-9])"] *)
Definition re_d : regex :=
  Alt (Seq (chr "3") (rng "0" "1"))
    (Alt (Seq (rng "1" "2") any_digit)
       (Alt (Seq (chr "0") (rng "1" "9"))
          (Alt (rng "1" "9")
             (Seq (chr " ") (rng "1" "9"))))).

(** ['m': r"(?P<m>1[0-2]|0[1-9]|[1-9])"] *)
Definition re_m : regex :=
  Alt (Seq (chr "1") (rng "0" "2"))
    (Alt (Seq (chr "0") (rng "1" "9"))
       (rng "1" "9")).

(** ['Y': r"(?P<Y>\d\d\d\d)"] *)
Definition re_Y : regex :=
  Seq any_digit (Seq any_digit (Seq any_digit any_digit)).

Definition matches (data_string : text) : list found :=
  flat_map (fun d =>
  flat_map (fun p1 =>
  flat_map (fun m =>
  flat_map (fun p2 =>
  List.map (fun y => mkFound (fst d) (fst m) (fst y) (snd y))
    (re_match re_Y (snd p2)))
    (re_match dot (snd m)))
    (re_match re_m (snd p1)))
    (re_match dot (snd d)))
    (re_match re_d data_string).

(** [format_regex.match(data_string)]: the first match, if any. *)
Definition regex_match (data_string : text) : option found :=
  hd_error (matches data_string).

(** [int(text)] on the text of a group: the white space around it is
    skipped, each character of the rest is read as the decimal digit it
    is. *)
Definition digit (c : Z) : Z :=
  match decimal c with
  | Some v => v
  | None => 0
  end.

Fixpoint int_digits (acc : Z) (s : text) : Z :=
  match s with
  | [] => acc
  | c :: t => int_digits (acc * 10 + digit c) t
  end.

Definition int (t : text) : Z := int_digits 0 (strip t).

(** [datetime.strptime(data_string, "%d.%m.%Y").date()] *)
Definition strptime (data_string : text) : result Date.date :=
  match regex_match data_string with
  | None => inl (ValueError (MsgLibrary "time data does not match format"))
  | Some f =>
      match remains f with
      | _ :: _ => inl (ValueError (MsgLibrary "unconverted data remains"))
      | [] => Date.new (int (group_Y f)) (int (group_m f)) (int (group_d f))
      end
  end.

(** [Birthday.__init__]: the parsed date is assigned to [self.value], then
    [super().__init__(value)] assigns the input string to the same
    attribute; any [ValueError] of the parse is replaced by the program's
    own. *)
Definition Birthday_new (value : text) : result Birthday :=
  match strptime value with
  | inr d =>
      let self := mkBirthday (VDate d) in
      let self := Field_init self (VStr value) in
      inr self
  | inl (ValueError _) => inl (ValueError MsgBadDate)
  | inl e => inl e
  end.

(** The strings a regular expression matches in full. *)
Inductive lang : regex -> text -> Prop :=
| lang_cls (p : Z -> bool) (c : Z) :
    p c = true -> lang (Cls p) [c]
| lang_seq (a b : regex) (x y : text) :
    lang a x -> lang b y -> lang (Seq a b) (x ++ y)%list
| lang_alt_l (a b : regex) (x : text) : lang a x -> lang (Alt a b) x
| lang_alt_r (a b : regex) (x : text) : lang b x -> lang (Alt a b) x.

(** One of ['0'..'9'], and its value. *)
Definition ascii_digit (c : Z) : Prop := 48 <= c <= 57.
Definition val (c : Z) : Z := c - 48.

(** A day as [strptime] reads it: two digits from 01 to 31, or one digit
    from 1 to 9, alone or after one space.  The digits are of ['0'..'9'],
    but for the second digit after a 1 or a 2, which is of any script. *)
Inductive day_text : text -> Z -> Prop :=
| day_two_digits (a b v : Z) :
    ascii_digit a -> decimal b = Some v ->
    val a = 1 \/ val a = 2 \/ ascii_digit b ->
    1 <= 10 * val a + v <= 31 ->
    day_text [a; b] (10 * val a + v)
| day_one_digit (a : Z) :
    ascii_digit a -> 1 <= val a ->
    day_text [a] (val a)
| day_space_digit (a : Z) :
    ascii_digit a -> 1 <= val a ->
    day_text [32; a] (val a).

(** A month as [strptime] reads it: two digits from 01 to 12, or one digit
    from 1 to 9, of ['0'..'9']. *)
Inductive month_text : text -> Z -> Prop :=
| month_two_digits (a b : Z) :
    ascii_digit a -> ascii_digit b -> 1 <= 10 * val a + val b <= 12 ->
    month_text [a; b] (10 * val a + val b)
| month_one_digit (a : Z) :
    ascii_digit a -> 1 <= val a ->
    month_text [a] (val a).

(** A year: four decimal digits, each of any script. *)
Inductive year_text : text -> Z -> Prop :=
| year_four_digits (a b c d va vb vc vd : Z) :
    decimal a = Some va -> decimal b = Some vb ->
    decimal c = Some vc -> decimal d = Some vd ->
    year_text [a; b; c; d] (1000 * va + 100 * vb + 10 * vc + vd).

(** No character of the string is the dot that separates the fields. *)
Definition no_dot (x : text) : Prop := ~ In 46 x.

(** The strings [strptime] reads as the day [d] of month [m] of year [y]. *)
Definition reads_as (s : text) (y m d : Z) : Prop :=
  exists D M Y : text,
    s = (D ++ [46] ++ M ++ [46] ++ Y)%list
    /\ day_text D d /\ month_text M m /\ year_text Y y.

End Database.

(** The claim's format: two digits, a dot, two digits, a dot, four digits,
    of ['0'..'9'], read in base ten. *)
Definition padded (s : text) (y m d : Z) : Prop :=
  exists d1 d0 m1 m0 y3 y2 y1 y0 : Z,
    s = [d1; d0; 46; m1; m0; 46; y3; y2; y1; y0]
    /\ ascii_digit d1 /\ ascii_digit d0 /\ ascii_digit m1 /\ ascii_digit m0
    /\ ascii_digit y3 /\ ascii_digit y2 /\ ascii_digit y1 /\ ascii_digit y0
    /\ d = 10 * val d1 + val d0
    /\ m = 10 * val m1 + val m0
    /\ y = 1000 * val y3 + 100 * val y2 + 10 * val y1 + val y0.

(** 15.01.2000 with an Arabic-Indic five in the day, 01.01.2000 with the
    year in Arabic-Indic digits, and 01.01.2000 with an Arabic-Indic one in
    the month. *)
Definition day_in_two_scripts : text :=
  [49; 1637; 46; 48; 49; 46; 50; 48; 48; 48].
Definition year_in_arabic_indic : text :=
  [48; 49; 46; 48; 49; 46; 1634; 1632; 1632; 1632].
Definition month_in_arabic_indic : text :=
  [48; 49; 46; 48; 1633; 46; 50; 48; 48; 48].

End Unicode.

(** ** Notions used by the statements about the handlers and the session *)

(** The exceptions [input_error] has a clause for. *)
Definition caught (e : exn) : Prop :=
  match e with
  | ValueError _ | KeyError _ | IndexError _ => True
  | _ => False
  end.

(** A phone argument the program accepts. *)
Definition accepted_phone (v : string) : Prop := exists p, Phone_new v = inr p.

(** The [Phone] made from an accepted argument. *)
Definition phone_of (v : string) : Phone := mkPhone (Some v).

(** The book after the lines typed, as long as the loop goes on. *)
Definition book_after (lines : list string) (book : AddressBook) : AddressBook :=
  fold_left
    (fun b line => match main_step b line with Continue _ b' => b' | _ => b end)
    lines book.

(** The books a session that starts with an empty book can hold. *)
Inductive reachable : AddressBook -> Prop :=
| reachable_empty : reachable Book.empty
| reachable_step (book book' : AddressBook) (line : string) (out : list output) :
    reachable book -> main_step book line = Continue out book' -> reachable book'.

(** A birthday is absent or holds a string. *)
Definition string_birthday (record : Rec.Record_) : Prop :=
  match Rec.birthday record with
  | Some b => exists s, Birthday_value b = VStr s
  | None => True
  end.

(** Every birthday of the book holds a string. *)
Definition birthdays_are_strings (book : AddressBook) : Prop :=
  Forall (fun item => string_birthday (snd item)) (data book).

(** Some record of the book has a birthday. *)
Definition has_birthday (book : AddressBook) : Prop :=
  Exists (fun item => Rec.birthday (snd item) <> None) (data book).

(** A function under the decorator raises nothing but what the decorator
    catches. *)
Definition raises_only_caught (func : M message) : Prop :=
  forall book e book', func book = (inl e, book') -> caught e.

(** A decorated function returns a text on every book. *)
Definition returns_text (func : M message) : Prop :=
  forall book, exists m book', func book = (inr m, book').

(** A session that adds a contact and a birthday, and the book it leaves. *)
Definition ann_session : list string :=
  ["add Ann 0123456789"; "add-birthday Ann 01.01.1990"].

Definition ann_book : AddressBook := book_after ann_session Book.empty.

(** The same book if the birthday held the date parsed from the input. *)
Definition ann_book_with_date : AddressBook :=
  mkBook [("Ann", Rec.mkRecord (mkName "Ann") [phone_of "0123456789"]
                    (Some (mkBirthday (VDate (Date.mkDate 1990 1 1)))))].

(** ** Notions used by the further properties *)

(** The keys of a dictionary are distinct, as those of a [dict] are. *)
Definition distinct_keys {V : Type} (d : Dict.dict V) : Prop := NoDup (Dict.keys d).

(** An entry as the handlers leave it: the record is under its own name,
    every phone was accepted, and the birthday, if any, holds a string that
    [strptime] reads. *)
Definition kept_entry (item : string * Rec.Record_) : Prop :=
  Name_value (Rec.name (snd item)) = fst item
  /\ Forall (fun p => exists v, p = phone_of v /\ accepted_phone v)
       (Rec.phones (snd item))
  /\ match Rec.birthday (snd item) with
     | Some b =>
         exists s d, Birthday_value b = VStr s /\ Strptime.strptime s = inr d
     | None => True
     end.

Definition well_kept (book : AddressBook) : Prop :=
  distinct_keys (data book) /\ Forall kept_entry (data book).

(** A string without any space character, and not empty: a token. *)
Definition token (t : string) : Prop :=
  t <> EmptyString /\ Str.all (fun c => negb (Str.isspace_char c)) t = true.

(** The command of a line, when it has one. *)
Definition command_of (line : string) : option string :=
  match parse_input line with
  | inr (command, _) => Some command
  | inl _ => None
  end.

(** The lines that go on with the loop: they have a token and their
    command is neither close nor exit. *)
Definition goes_on (line : string) : Prop :=
  exists command,
    command_of line = Some command /\ command <> "close" /\ command <> "exit".

(** A date the two queries may settle on for a record: the occurrence of
    its birthday, moved on by the weekday loop. *)
Definition candidate (fuel : nat) (today : Date.date) (weekday : Z)
    (record : Rec.Record_) (d : Date.date) : Prop :=
  exists b occurrence steps,
    Rec.birthday record = Some b
    /\ Book.occurrence_by_fields today (Birthday_value b) = inr occurrence
    /\ Book.advance fuel weekday occurrence 0 = Some (inr (d, steps)).

(** A record that [get_upcoming_birthday] lists under the text [text]: the
    occurrence of its birthday is in the window, and [text] renders the
    day it is moved to. *)
Definition congratulated (today : Date.date) (days : Z)
    (record : Rec.Record_) (text : string) : Prop :=
  exists b occurrence d,
    Rec.birthday record = Some b
    /\ Book.occurrence_by_replace today (Birthday_value b) = inr occurrence
    /\ 0 <= Date.sub_days occurrence today <= days
    /\ Book.skip_weekend occurrence = inr d
    /\ Date.weekday d < 5
    /\ text = Date.strftime_Ymd d.

(** * Properties *)

(** ** Phone *)

Lemma len_10 (s : string) : (Str.len s =? 10) = true <-> String.length s = 10%nat.
Proof.
  unfold Str.len. rewrite Z.eqb_eq. lia.
Qed.

Lemma isdigit_all (s : string) :
  s <> EmptyString -> Str.isdigit s = Str.all Str.isdigit_char s.
Proof.
  destruct s; [congruence | reflexivity].
Qed.

Lemma length_10_nonempty (s : string) : String.length s = 10%nat -> s <> EmptyString.
Proof.
  intros H E. subst s. discriminate H.
Qed.

(** What the setter's test amounts to. *)
Lemma Phone_test_iff (v : string) :
  (Str.len v =? 10) && Str.isdigit v = true
  <-> String.length v = 10%nat /\ Str.all Str.isdigit_char v = true.
Proof.
  rewrite andb_true_iff, len_10. split; intros [Hl Hd]; split; trivial.
  - rewrite <- isdigit_all; auto using length_10_nonempty.
  - rewrite isdigit_all; auto using length_10_nonempty.
Qed.

Lemma Phone_new_inr (v : string) (p : Phone) :
  Phone_new v = inr p -> p = mkPhone (Some v).
Proof.
  unfold Phone_new, Phone_set_value.
  destruct ((Str.len v =? 10) && Str.isdigit v); congruence.
Qed.

Lemma Phone_new_valid (v : string) :
  String.length v = 10%nat -> Str.all Str.isdigit_char v = true ->
  Phone_new v = inr (mkPhone (Some v)).
Proof.
  intros Hl Hd. unfold Phone_new, Phone_set_value.
  destruct (Phone_test_iff v) as [_ H]. rewrite H; auto.
Qed.

Lemma Phone_new_invalid (v : string) :
  ~ (String.length v = 10%nat /\ Str.all Str.isdigit_char v = true) ->
  Phone_new v = inl (ValueError MsgBadPhone).
Proof.
  intros Hn. unfold Phone_new, Phone_set_value.
  destruct ((Str.len v =? 10) && Str.isdigit v) eqn:E; trivial.
  apply Phone_test_iff in E. contradiction.
Qed.

(** On the characters below 128 the digits of [isdigit] are ['0'..'9']. *)
Lemma isdigit_char_ascii (c : ascii) :
  Str.code c < 128 -> Str.isdigit_char c = Str.is_decimal c.
Proof.
  intros H. unfold Str.isdigit_char.
  replace (Str.code c =? 178) with false by (symmetry; apply Z.eqb_neq; lia).
  replace (Str.code c =? 179) with false by (symmetry; apply Z.eqb_neq; lia).
  replace (Str.code c =? 185) with false by (symmetry; apply Z.eqb_neq; lia).
  now rewrite !orb_false_r.
Qed.

Lemma all_isdigit_ascii (s : string) :
  Str.all (fun c => Str.code c <? 128) s = true ->
  Str.all Str.isdigit_char s = Str.all Str.is_decimal s.
Proof.
  induction s as [| c s IH]; simpl; trivial.
  rewrite andb_true_iff, Z.ltb_lt. intros [Hc Hs].
  now rewrite isdigit_char_ascii, IH.
Qed.

(** C3, as the code has it: [Phone(v)] succeeds exactly when [v] has ten
    characters and each of them is a digit for [str.isdigit] (the decimal
    digits, and other digit characters such as the superscript two); it
    raises the [ValueError] of the format otherwise; an accepted phone
    renders as the input; and on strings of characters below 128 the test
    is: ten decimal digits. *)
Theorem Phone_accepts_ten_isdigit_characters (v : string) :
  ((exists p, Phone_new v = inr p)
   <-> String.length v = 10%nat /\ Str.all Str.isdigit_char v = true)
  /\ ((forall p, Phone_new v <> inr p) <-> Phone_new v = inl (ValueError MsgBadPhone))
  /\ (forall p, Phone_new v = inr p -> Phone_str p = v)
  /\ (Str.all (fun c => Str.code c <? 128) v = true ->
      ((exists p, Phone_new v = inr p) <-> ten_decimal_digits v)).
Proof.
  assert (Hiff : (exists p, Phone_new v = inr p)
                 <-> String.length v = 10%nat /\ Str.all Str.isdigit_char v = true).
  { split.
    - intros [p Hp].
      destruct (Bool.bool_dec ((Str.len v =? 10) && Str.isdigit v) true) as [E | E].
      + now apply Phone_test_iff.
      + rewrite Phone_new_invalid in Hp; [discriminate |].
        intros H. apply E. now apply Phone_test_iff.
    - intros [Hl Hd]. eexists. now apply Phone_new_valid. }
  split; [exact Hiff |].
  split; [| split].
  - split.
    + intros Hno. apply Phone_new_invalid. intros H.
      apply Hiff in H. destruct H as [p Hp]. exact (Hno p Hp).
    + intros E p Hp. rewrite E in Hp. discriminate.
  - intros p Hp. apply Phone_new_inr in Hp. now subst p.
  - intros Hascii. unfold ten_decimal_digits.
    rewrite Hiff, (all_isdigit_ascii v Hascii). tauto.
Qed.

(** C3, as stated, fails: ten superscript twos make a phone, and none of
    them is a decimal digit. *)
Lemma Phone_accepts_superscript_digits :
  Phone_new ten_superscripts = inr (mkPhone (Some ten_superscripts))
  /\ String.length ten_superscripts = 10%nat
  /\ Str.all Str.is_decimal ten_superscripts = false
  /\ ~ ten_decimal_digits ten_superscripts.
Proof.
  repeat split; try reflexivity.
  intros [_ H]. discriminate H.
Qed.

(** ** Birthday *)

Lemma Birthday_new_inr (s : string) (b : Birthday) :
  Birthday_new s = inr b ->
  b = mkBirthday (VStr s) /\ exists d, Strptime.strptime s = inr d.
Proof.
  unfold Birthday_new.
  destruct (Strptime.strptime s) as [e | d] eqn:E.
  - destruct e; discriminate.
  - intros H. injection H as <-. split; [reflexivity | now exists d].
Qed.

(** C1 fails on the code: whatever string [Birthday] accepts, the value it
    keeps is that string, not the date parsed from it, and the birthday
    renders as the input. *)
Theorem Birthday_keeps_the_input_string (s : string) :
  match Birthday_new s with
  | inr b =>
      Birthday_value b = VStr s
      /\ Birthday_str b = s
      /\ forall d, Birthday_value b <> VDate d
  | inl _ => True
  end.
Proof.
  destruct (Birthday_new s) as [e | b] eqn:E; trivial.
  apply Birthday_new_inr in E. destruct E as [-> _].
  repeat split. intros d H. discriminate H.
Qed.

(** The same at one input: the day and month without their zero are echoed
    as typed, where the date parsed would render as 2000-01-01. *)
Example Birthday_echoes_raw_input :
  Birthday_new "1.1.2000" = inr (mkBirthday (VStr "1.1.2000"))
  /\ Strptime.strptime "1.1.2000" = inr (Date.mkDate 2000 1 1)
  /\ Body.show_birthday ["Ann"]
       (mkBook [("Ann", Rec.mkRecord (mkName "Ann") []
                          (Some (mkBirthday (VStr "1.1.2000"))))])
     = (inr (MsgBirthdayIs "Ann" "1.1.2000"),
        mkBook [("Ann", Rec.mkRecord (mkName "Ann") []
                          (Some (mkBirthday (VStr "1.1.2000"))))])
  /\ Date.isoformat (Date.mkDate 2000 1 1) = "2000-01-01".
Proof.
  repeat split.
Qed.

(** ** Birthday: what [strptime] accepts *)

Section BirthdayFormat.

Import Strptime DateText.

(** *** Characters *)

Lemma code_range (c : ascii) : 0 <= Str.code c < 256.
Proof.
  unfold Str.code. pose proof (N_ascii_bounded c). lia.
Qed.

Lemma code_inj (a b : ascii) : Str.code a = Str.code b -> a = b.
Proof.
  unfold Str.code. intros H.
  rewrite <- (ascii_N_embedding a), <- (ascii_N_embedding b).
  f_equal. lia.
Qed.

Lemma in_range_iff (lo hi : Z) (c : ascii) :
  Str.in_range lo hi c = true <-> lo <= Str.code c <= hi.
Proof.
  unfold Str.in_range. rewrite andb_true_iff, !Z.leb_le. tauto.
Qed.

Lemma chr_iff (c a : ascii) : Ascii.eqb c a = true <-> Str.code a = Str.code c.
Proof.
  rewrite Ascii.eqb_eq. split; [now intros -> | intros H; symmetry; now apply code_inj].
Qed.

Lemma decimal_iff (c : ascii) : DateText.decimal c <-> 0 <= DateText.val c <= 9.
Proof.
  unfold DateText.decimal, Str.is_decimal, DateText.val.
  rewrite in_range_iff. lia.
Qed.

(** Turns the tests on characters into bounds on their codes. *)
Ltac codes :=
  repeat match goal with
    | H : Str.in_range _ _ _ = true |- _ => apply in_range_iff in H
    | H : Ascii.eqb _ _ = true |- _ => apply chr_iff in H
    | H : Str.is_decimal _ = true |- _ => apply in_range_iff in H
    | H : DateText.decimal _ |- _ => apply in_range_iff in H
    end;
  unfold DateText.val in *;
  repeat match goal with
    | H : context [Str.code (Ascii ?a ?b ?c ?d ?e ?f ?g ?h)] |- _ =>
        let v := eval vm_compute in (Str.code (Ascii a b c d e f g h)) in
        change (Str.code (Ascii a b c d e f g h)) with v in H
    | |- context [Str.code (Ascii ?a ?b ?c ?d ?e ?f ?g ?h)] =>
        let v := eval vm_compute in (Str.code (Ascii a b c d e f g h)) in
        change (Str.code (Ascii a b c d e f g h)) with v
    end.

(** *** Strings *)

Lemma append_assoc (x y z : string) : (x ++ y) ++ z = x ++ (y ++ z).
Proof.
  induction x as [| c x IH]; simpl; [reflexivity | now rewrite IH].
Qed.

Lemma append_nil_r (x : string) : x ++ "" = x.
Proof.
  induction x as [| c x IH]; simpl; [reflexivity | now rewrite IH].
Qed.

(** *** The matcher and the language of an expression *)

Lemma re_match_lang (r : regex) :
  forall s x t, In (x, t) (re_match r s) <-> lang r x /\ s = x ++ t.
Proof.
  induction r as [p | a IHa b IHb | a IHa b IHb]; intros s x t; simpl.
  - destruct s as [| c s'].
    + split; [intros [] | intros [H E]]. inversion H; subst. discriminate E.
    + destruct (p c) eqn:Hp; simpl.
      * split.
        -- intros [E | []]. injection E as <- <-. split; [now constructor | reflexivity].
        -- intros [H E]. inversion H; subst. simpl in E. injection E as <- <-. now left.
      * split; [intros [] | intros [H E]]. inversion H; subst.
        simpl in E. injection E as <- <-. congruence.
  - rewrite in_flat_map. split.
    + intros [[x1 t1] [H1 H2]]. simpl in H2. apply in_map_iff in H2.
      destruct H2 as [[x2 t2] [E H2]]. simpl in E. injection E as <- <-.
      apply IHa in H1. apply IHb in H2. destruct H1 as [L1 ->], H2 as [L2 ->].
      split; [now constructor | now rewrite append_assoc].
    + intros [H E]. inversion H as [| a' b' x1 x2 L1 L2 | |]; subst.
      exists (x1, x2 ++ t). split.
      * apply IHa. split; [assumption | now rewrite append_assoc].
      * simpl. apply in_map_iff. exists (x2, t). split; [reflexivity |].
        apply IHb. now split.
  - rewrite in_app_iff, IHa, IHb. split.
    + intros [[L E] | [L E]]; split; trivial; [now apply lang_alt_l | now apply lang_alt_r].
    + intros [H E]. inversion H; subst; [left | right]; now split.
Qed.

Lemma lang_cls_inv (p : ascii -> bool) (x : string) :
  lang (Cls p) x -> exists c, x = String c "" /\ p c = true.
Proof.
  intros H. inversion H; subst. eauto.
Qed.

Lemma lang_seq_inv (a b : regex) (x : string) :
  lang (Seq a b) x -> exists x1 x2, x = x1 ++ x2 /\ lang a x1 /\ lang b x2.
Proof.
  intros H. inversion H; subst. eauto.
Qed.

Lemma lang_alt_inv (a b : regex) (x : string) :
  lang (Alt a b) x -> lang a x \/ lang b x.
Proof.
  intros H. inversion H; subst; auto.
Qed.

(** Takes a hypothesis [lang r x], with [r] a closed expression, apart. *)
Ltac lang_inv :=
  repeat match goal with
    | H : lang (Alt _ _) _ |- _ => apply lang_alt_inv in H; destruct H as [H | H]
    | H : lang (Seq _ _) _ |- _ =>
        apply lang_seq_inv in H;
        let x1 := fresh "x" in let x2 := fresh "x" in
        let E := fresh "E" in let L1 := fresh "L" in let L2 := fresh "L" in
        destruct H as [x1 [x2 [E [L1 L2]]]]
    | H : lang (Cls _) _ |- _ =>
        apply lang_cls_inv in H;
        let c := fresh "c" in let E := fresh "E" in let P := fresh "P" in
        destruct H as [c [E P]]
    | H : lang re_d _ |- _ => unfold re_d in H
    | H : lang re_m _ |- _ => unfold re_m in H
    | H : lang re_Y _ |- _ => unfold re_Y in H
    | H : lang dot _ |- _ => unfold dot in H
    | H : lang (chr _) _ |- _ => unfold chr in H
    | H : lang (rng _ _) _ |- _ => unfold rng in H
    | H : lang any_digit _ |- _ => unfold any_digit in H
    end;
  subst; cbn [String.append] in *.

Lemma lang_two (p q : ascii -> bool) (a b : ascii) :
  p a = true -> q b = true -> lang (Seq (Cls p) (Cls q)) (String a (String b "")).
Proof.
  intros Ha Hb. change (String a (String b "")) with (String a "" ++ String b "").
  constructor; now constructor.
Qed.

Lemma lang_re_d (x : string) : lang re_d x <-> exists d, day_text x d.
Proof.
  split.
  - intros H. lang_inv; eexists.
    + apply day_two_digits; unfold decimal, Str.is_decimal; rewrite ?in_range_iff; codes; lia.
    + apply day_two_digits; unfold decimal, Str.is_decimal; rewrite ?in_range_iff; codes; lia.
    + apply day_two_digits; unfold decimal, Str.is_decimal; rewrite ?in_range_iff; codes; lia.
    + apply day_one_digit; unfold decimal, Str.is_decimal; rewrite ?in_range_iff; codes; lia.
    + assert (c = " "%char) as -> by (apply code_inj; codes; lia).
      apply day_space_digit; unfold decimal, Str.is_decimal; rewrite ?in_range_iff; codes; lia.
  - intros [d H]. unfold re_d, chr, rng, any_digit.
    destruct H as [a b Ha Hb Hr | a Ha Hr | a Ha Hr]; codes.
    + assert (C : Str.code a = 51 \/ 49 <= Str.code a <= 50 \/ Str.code a = 48) by lia.
      destruct C as [C | [C | C]].
      * apply lang_alt_l, lang_two; [apply chr_iff | apply in_range_iff]; codes; lia.
      * apply lang_alt_r, lang_alt_l, lang_two; apply in_range_iff; codes; lia.
      * apply lang_alt_r, lang_alt_r, lang_alt_l, lang_two;
          [apply chr_iff | apply in_range_iff]; codes; lia.
    + apply lang_alt_r, lang_alt_r, lang_alt_r, lang_alt_l. constructor.
      apply in_range_iff; codes; lia.
    + apply lang_alt_r, lang_alt_r, lang_alt_r, lang_alt_r, lang_two;
        [apply chr_iff | apply in_range_iff]; codes; lia.
Qed.

Lemma lang_re_m (x : string) : lang re_m x <-> exists m, month_text x m.
Proof.
  split.
  - intros H. lang_inv; eexists.
    + apply month_two_digits; unfold decimal, Str.is_decimal; rewrite ?in_range_iff; codes; lia.
    + apply month_two_digits; unfold decimal, Str.is_decimal; rewrite ?in_range_iff; codes; lia.
    + apply month_one_digit; unfold decimal, Str.is_decimal; rewrite ?in_range_iff; codes; lia.
  - intros [m H]. unfold re_m, chr, rng.
    destruct H as [a b Ha Hb Hr | a Ha Hr]; codes.
    + assert (C : Str.code a = 49 \/ Str.code a = 48) by lia.
      destruct C as [C | C].
      * apply lang_alt_l, lang_two; [apply chr_iff | apply in_range_iff]; codes; lia.
      * apply lang_alt_r, lang_alt_l, lang_two;
          [apply chr_iff | apply in_range_iff]; codes; lia.
    + apply lang_alt_r, lang_alt_r. constructor. apply in_range_iff; codes; lia.
Qed.

Lemma lang_re_Y (x : string) : lang re_Y x <-> exists y, year_text x y.
Proof.
  split.
  - intros H. lang_inv. eexists. now apply year_four_digits.
  - intros [y H]. destruct H as [a b c d Ha Hb Hc Hd]. unfold re_Y, any_digit.
    change (String a (String b (String c (String d ""))))
      with (String a "" ++ (String b "" ++ (String c "" ++ String d ""))).
    repeat constructor; assumption.
Qed.

Lemma lang_dot (x : string) : lang dot x <-> x = ".".
Proof.
  split.
  - intros H. lang_inv. f_equal. apply code_inj. codes. lia.
  - intros ->. now constructor.
Qed.

(** *** [int] on the texts of the groups *)

Lemma decimal_not_space (c : ascii) : decimal c -> Str.isspace_char c = false.
Proof.
  intros H. codes. unfold Str.isspace_char, Str.in_range.
  rewrite !orb_false_iff, !andb_false_iff, !Z.leb_gt, !Z.eqb_neq. lia.
Qed.

Lemma strip_one (a : ascii) : decimal a -> Str.strip (String a "") = String a "".
Proof.
  intros Ha. unfold Str.strip. cbn [Str.lstrip].
  rewrite (decimal_not_space a Ha). cbn [Str.rstrip].
  now rewrite (decimal_not_space a Ha).
Qed.

Lemma rstrip_length (s : string) :
  (String.length (Str.rstrip s) <= String.length s)%nat.
Proof.
  induction s as [| c s IH]; cbn [Str.rstrip String.length]; [lia |].
  destruct (Str.rstrip s); [destruct (Str.isspace_char c) |];
    cbn [String.length] in *; lia.
Qed.

Lemma lstrip_length (s : string) :
  (String.length (Str.lstrip s) <= String.length s)%nat.
Proof.
  induction s as [| c s IH]; cbn [Str.lstrip String.length]; [lia |].
  destruct (Str.isspace_char c); cbn [String.length]; lia.
Qed.

Lemma strip_digits (a : ascii) (t : string) :
  decimal a -> Str.strip t = t -> t <> "" -> Str.strip (String a t) = String a t.
Proof.
  unfold Str.strip. intros Ha Ht Hne. cbn [Str.lstrip].
  rewrite (decimal_not_space a Ha). cbn [Str.rstrip].
  assert (Hl : Str.lstrip t = t).
  { pose proof (rstrip_length (Str.lstrip t)) as H1.
    pose proof (lstrip_length t) as H2. rewrite Ht in H1.
    destruct t as [| b t]; [congruence |]. cbn [Str.lstrip] in *.
    destruct (Str.isspace_char b); [| reflexivity].
    pose proof (lstrip_length t) as H3.
    cbn [String.length] in *. lia. }
  rewrite Hl in Ht. rewrite Ht.
  destruct t; [congruence | reflexivity].
Qed.

Lemma strip_space_digit (a : ascii) :
  decimal a -> Str.strip (String " " (String a "")) = String a "".
Proof.
  intros Ha. rewrite <- (strip_one a Ha) at 2. reflexivity.
Qed.

Lemma int_day (x : string) (d : Z) : day_text x d -> Strptime.int x = d.
Proof.
  intros H. destruct H as [a b Ha Hb Hr | a Ha Hr | a Ha Hr]; unfold Strptime.int.
  - rewrite strip_digits; auto using strip_one; [| discriminate].
    cbn [int_digits]. unfold val. lia.
  - rewrite strip_one by assumption. cbn [int_digits]. unfold val. lia.
  - rewrite strip_space_digit by assumption. cbn [int_digits]. unfold val. lia.
Qed.

Lemma int_month (x : string) (m : Z) : month_text x m -> Strptime.int x = m.
Proof.
  intros H. destruct H as [a b Ha Hb Hr | a Ha Hr]; unfold Strptime.int.
  - rewrite strip_digits; auto using strip_one; [| discriminate].
    cbn [int_digits]. unfold val. lia.
  - rewrite strip_one by assumption. cbn [int_digits]. unfold val. lia.
Qed.

Lemma int_year (x : string) (y : Z) : year_text x y -> Strptime.int x = y.
Proof.
  intros H. destruct H as [a b c d Ha Hb Hc Hd]. unfold Strptime.int.
  assert (H1 : Str.strip (String d "") = String d "") by now apply strip_one.
  assert (H2 : Str.strip (String c (String d "")) = String c (String d ""))
    by (apply strip_digits; [assumption | assumption | discriminate]).
  assert (H3 : Str.strip (String b (String c (String d "")))
               = String b (String c (String d "")))
    by (apply strip_digits; [assumption | assumption | discriminate]).
  rewrite strip_digits; [| assumption | assumption | discriminate].
  cbn [int_digits]. unfold val. lia.
Qed.

(** *** One way to cut a string into day, month and year *)

Lemma decimal_not_dot (c : ascii) : decimal c -> negb (Ascii.eqb "." c) = true.
Proof.
  intros H. apply negb_true_iff. apply Ascii.eqb_neq. intros <-. discriminate H.
Qed.

Lemma day_text_no_dot (x : string) (d : Z) : day_text x d -> no_dot x.
Proof.
  intros H. unfold no_dot.
  destruct H as [a b Ha Hb _ | a Ha _ | a Ha _]; cbn [Str.all];
    rewrite ?(decimal_not_dot a Ha), ?(decimal_not_dot b Hb); reflexivity.
Qed.

Lemma month_text_no_dot (x : string) (m : Z) : month_text x m -> no_dot x.
Proof.
  intros H. unfold no_dot.
  destruct H as [a b Ha Hb _ | a Ha _]; cbn [Str.all];
    rewrite ?(decimal_not_dot a Ha), ?(decimal_not_dot b Hb); reflexivity.
Qed.

Lemma split_at_dot (x x' r r' : string) :
  no_dot x -> no_dot x' ->
  x ++ String "." r = x' ++ String "." r' -> x = x' /\ r = r'.
Proof.
  unfold no_dot. revert x'.
  induction x as [| c x IH]; intros [| c' x'] Hx Hx' E;
    cbn [String.append Str.all] in *.
  - injection E as <-. auto.
  - injection E as <- _. discriminate Hx'.
  - injection E as -> _. discriminate Hx.
  - injection E as <- E. apply andb_true_iff in Hx, Hx'.
    destruct (IH x') as [-> ->]; tauto.
Qed.

Lemma year_text_split (Y Y' r r' : string) (y y' : Z) :
  year_text Y y -> year_text Y' y' -> Y ++ r = Y' ++ r' -> Y = Y' /\ r = r'.
Proof.
  intros H H' E. destruct H, H'. cbn [String.append] in E.
  injection E as <- <- <- <- <-. auto.
Qed.

Lemma In_matches (s : string) (f : found) :
  In f (matches s)
  <-> (exists d m y, day_text (group_d f) d /\ month_text (group_m f) m
                     /\ year_text (group_Y f) y)
      /\ s = group_d f ++ "." ++ group_m f ++ "." ++ group_Y f ++ remains f.
Proof.
  unfold matches. split.
  - intros H.
    apply in_flat_map in H. destruct H as [[D t1] [HD H]].
    apply in_flat_map in H. destruct H as [[p1 t2] [Hp1 H]].
    apply in_flat_map in H. destruct H as [[M t3] [HM H]].
    apply in_flat_map in H. destruct H as [[p2 t4] [Hp2 H]].
    apply in_map_iff in H. destruct H as [[Y t5] [<- HY]].
    cbn [fst snd] in *.
    apply re_match_lang in HD, Hp1, HM, Hp2, HY.
    destruct HD as [HD ->], Hp1 as [Hp1 ->], HM as [HM ->],
             Hp2 as [Hp2 ->], HY as [HY ->].
    apply lang_dot in Hp1, Hp2. subst p1 p2.
    apply lang_re_d in HD. apply lang_re_m in HM. apply lang_re_Y in HY.
    destruct HD as [d HD], HM as [m HM], HY as [y HY].
    split; [now exists d, m, y | reflexivity].
  - intros [[d [m [y [HD [HM HY]]]]] E]. destruct f as [D M Y r].
    cbn [group_d group_m group_Y remains] in *.
    apply in_flat_map. exists (D, "." ++ M ++ "." ++ Y ++ r). split.
    { apply re_match_lang. split; [apply lang_re_d; eauto | exact E]. }
    apply in_flat_map. exists (".", M ++ "." ++ Y ++ r). split.
    { apply re_match_lang. split; [now apply lang_dot | reflexivity]. }
    apply in_flat_map. exists (M, "." ++ Y ++ r). split.
    { apply re_match_lang. split; [apply lang_re_m; eauto | reflexivity]. }
    apply in_flat_map. exists (".", Y ++ r). split.
    { apply re_match_lang. split; [now apply lang_dot | reflexivity]. }
    apply in_map_iff. exists (Y, r). split; [reflexivity |].
    apply re_match_lang. split; [apply lang_re_Y; eauto | reflexivity].
Qed.

Lemma matches_unique (s : string) (f f' : found) :
  In f (matches s) -> In f' (matches s) -> f = f'.
Proof.
  intros H H'. apply In_matches in H, H'.
  destruct H as [[d [m [y [HD [HM HY]]]]] E].
  destruct H' as [[d' [m' [y' [HD' [HM' HY']]]]] E'].
  destruct f as [D M Y r], f' as [D' M' Y' r'].
  cbn [group_d group_m group_Y remains] in *. subst s.
  cbn [String.append] in E'.
  apply split_at_dot in E'; eauto using day_text_no_dot.
  destruct E' as [<- E'].
  apply split_at_dot in E'; eauto using month_text_no_dot.
  destruct E' as [<- E'].
  destruct (year_text_split _ _ _ _ _ _ HY HY' E') as [<- <-].
  reflexivity.
Qed.

Lemma regex_match_iff (s : string) (f : found) :
  regex_match s = Some f <-> In f (matches s).
Proof.
  unfold regex_match. split.
  - destruct (matches s) as [| g l]; [discriminate |].
    intros H. injection H as ->. now left.
  - intros H. destruct (matches s) as [| g l] eqn:E; [destruct H |].
    cbn [hd_error]. f_equal. apply (matches_unique s); rewrite E; [now left | exact H].
Qed.

(** *** [date(y, m, d)] and [strptime] *)

Lemma Date_new_inr (y m d : Z) (dt : Date.date) :
  Date.new y m d = inr dt <-> Date.valid y m d = true /\ dt = Date.mkDate y m d.
Proof.
  unfold Date.new, Date.valid.
  destruct (Date.MINYEAR <=? y), (y <=? Date.MAXYEAR), (1 <=? m), (m <=? 12),
    (1 <=? d), (d <=? Date._days_in_month y m); cbn [negb andb];
    (split; [intros H; try discriminate H; injection H as <-; auto
            | intros [H E]; try discriminate H; now subst dt]).
Qed.

Lemma Date_new_inl (y m d : Z) (e : exn) :
  Date.new y m d = inl e -> exists msg, e = ValueError msg.
Proof.
  unfold Date.new.
  repeat match goal with |- context [if ?b then _ else _] => destruct b end;
    intros H; try discriminate; injection H as <-; eauto.
Qed.

Lemma strptime_inr (s : string) (dt : Date.date) :
  strptime s = inr dt
  <-> exists y m d, reads_as s y m d /\ real_date y m d /\ dt = Date.mkDate y m d.
Proof.
  unfold strptime, reads_as, real_date. split.
  - destruct (regex_match s) as [f |] eqn:E; [| discriminate].
    apply regex_match_iff, In_matches in E.
    destruct E as [[d [m [y [HD [HM HY]]]]] E].
    destruct (remains f) eqn:Er; [| discriminate].
    rewrite (int_day _ _ HD), (int_month _ _ HM), (int_year _ _ HY).
    intros H. apply Date_new_inr in H. destruct H as [Hv ->].
    exists y, m, d. repeat split; trivial.
    exists (group_d f), (group_m f), (group_Y f).
    rewrite append_nil_r in E. auto.
  - intros [y [m [d [[D [M [Y [E [HD [HM HY]]]]]] [Hv ->]]]]].
    assert (Hin : In (mkFound D M Y "") (matches s)).
    { apply In_matches. cbn [group_d group_m group_Y remains].
      split; [now exists d, m, y | now rewrite append_nil_r]. }
    apply regex_match_iff in Hin. rewrite Hin. cbn [remains group_d group_m group_Y].
    rewrite (int_day _ _ HD), (int_month _ _ HM), (int_year _ _ HY).
    apply Date_new_inr. auto.
Qed.

Lemma strptime_inl (s : string) (e : exn) :
  strptime s = inl e -> exists msg, e = ValueError msg.
Proof.
  unfold strptime.
  destruct (regex_match s) as [f |]; [| intros H; injection H as <-; eauto].
  destruct (remains f); [| intros H; injection H as <-; eauto].
  apply Date_new_inl.
Qed.

Lemma days_in_month_le_31 (y m : Z) : 1 <= m <= 12 -> Date._days_in_month y m <= 31.
Proof.
  intros Hm. unfold Date._days_in_month.
  destruct ((m =? 2) && Date._is_leap y); [lia |].
  assert (C : m = 1 \/ m = 2 \/ m = 3 \/ m = 4 \/ m = 5 \/ m = 6 \/ m = 7
              \/ m = 8 \/ m = 9 \/ m = 10 \/ m = 11 \/ m = 12) by lia.
  repeat (destruct C as [-> | C]; [vm_compute; congruence |]).
  subst m. vm_compute. congruence.
Qed.

Lemma valid_bounds (y m d : Z) :
  Date.valid y m d = true -> 1 <= y <= 9999 /\ 1 <= m <= 12 /\ 1 <= d <= 31.
Proof.
  unfold Date.valid, Date.MINYEAR, Date.MAXYEAR.
  rewrite !andb_true_iff, !Z.leb_le. intros H.
  assert (Hm : 1 <= m <= 12) by lia.
  pose proof (days_in_month_le_31 y m Hm). lia.
Qed.

Lemma Birthday_new_accepts (s : string) :
  (exists b, Birthday_new s = inr b)
  <-> exists y m d, reads_as s y m d /\ real_date y m d.
Proof.
  unfold Birthday_new. split.
  - intros [b H]. destruct (strptime s) as [e | dt] eqn:E.
    + destruct e; discriminate.
    + apply strptime_inr in E. destruct E as [y [m [d [Hr [Hv _]]]]]. eauto.
  - intros [y [m [d [Hr Hv]]]].
    assert (E : strptime s = inr (Date.mkDate y m d))
      by (apply strptime_inr; eauto 6).
    rewrite E. eauto.
Qed.

Lemma Birthday_new_rejects (s : string) :
  (forall b, Birthday_new s <> inr b) <-> Birthday_new s = inl (ValueError MsgBadDate).
Proof.
  unfold Birthday_new. destruct (strptime s) as [e | dt] eqn:E.
  - apply strptime_inl in E. destruct E as [msg ->].
    split; [reflexivity | intros _ b H; discriminate H].
  - split; [intros H; now destruct (H _ eq_refl) | discriminate].
Qed.

End BirthdayFormat.

(** ** Birthday on strings of any characters *)

Section UnicodeBirthdayFormat.

Import Unicode.

Variable decimal : Z -> option Z.

(** What every version of the Unicode database has: the values of decimal
    digits are 0 to 9; the decimal digits below U+0100 are ['0'..'9'], with
    their values; no decimal digit is white space for [int]. *)
Hypothesis decimal_values : forall c v, decimal c = Some v -> 0 <= v <= 9.
Hypothesis decimal_latin1 :
  forall c, 0 <= c < 256 ->
  decimal c = if in_range 48 57 c then Some (c - 48) else None.
Hypothesis decimal_not_space :
  forall c v, decimal c = Some v -> int_space_char c = false.

(** *** Characters *)

Lemma u_in_range_iff (lo hi c : Z) : in_range lo hi c = true <-> lo <= c <= hi.
Proof.
  unfold in_range. rewrite andb_true_iff, !Z.leb_le. tauto.
Qed.

Lemma decimal_ascii_digit (c : Z) : ascii_digit c -> decimal c = Some (val c).
Proof.
  unfold ascii_digit, val. intros H. rewrite decimal_latin1 by lia.
  now rewrite (proj2 (u_in_range_iff 48 57 c) H).
Qed.

Lemma decimal_below_256 (c v : Z) :
  0 <= c < 256 -> decimal c = Some v -> ascii_digit c /\ v = val c.
Proof.
  intros Hc H. rewrite decimal_latin1 in H by exact Hc.
  destruct (in_range 48 57 c) eqn:E; [| discriminate].
  apply u_in_range_iff in E. injection H as <-. now split.
Qed.

Lemma isdecimal_char_iff (c : Z) :
  isdecimal_char decimal c = true <-> exists v, decimal c = Some v.
Proof.
  unfold isdecimal_char. destruct (decimal c) as [v |].
  - split; eauto.
  - split; [discriminate | intros [v H]; discriminate H].
Qed.

Lemma digit_decimal (c v : Z) : decimal c = Some v -> digit decimal c = v.
Proof.
  unfold digit. now intros ->.
Qed.

Lemma ascii_digit_not_space (c : Z) : ascii_digit c -> int_space_char c = false.
Proof.
  intros H. apply (decimal_not_space c (val c)). now apply decimal_ascii_digit.
Qed.

(** Turns the tests on characters into bounds on their codes. *)
Ltac ucodes :=
  repeat match goal with
    | H : in_range _ _ _ = true |- _ => apply u_in_range_iff in H
    | H : (_ =? _) = true |- _ => apply Z.eqb_eq in H
    | H : isdecimal_char _ _ = true |- _ =>
        apply isdecimal_char_iff in H; let v := fresh "v" in destruct H as [v H]
    end;
  unfold ascii_digit, val in *;
  repeat match goal with
    | H : context [Str.code (Ascii ?a ?b ?c ?d ?e ?f ?g ?h)] |- _ =>
        let v := eval vm_compute in (Str.code (Ascii a b c d e f g h)) in
        change (Str.code (Ascii a b c d e f g h)) with v in H
    | |- context [Str.code (Ascii ?a ?b ?c ?d ?e ?f ?g ?h)] =>
        let v := eval vm_compute in (Str.code (Ascii a b c d e f g h)) in
        change (Str.code (Ascii a b c d e f g h)) with v
    end.

(** *** The matcher and the language of an expression *)

Lemma u_re_match_lang (r : regex) :
  forall s x t, In (x, t) (re_match r s) <-> lang r x /\ s = (x ++ t)%list.
Proof.
  induction r as [p | a IHa b IHb | a IHa b IHb]; intros s x t; simpl.
  - destruct s as [| c s'].
    + split; [intros [] | intros [H E]]. inversion H; subst. discriminate E.
    + destruct (p c) eqn:Hp; simpl.
      * split.
        -- intros [E | []]. injection E as <- <-. split; [now constructor | reflexivity].
        -- intros [H E]. inversion H; subst. simpl in E. injection E as <- <-. now left.
      * split; [intros [] | intros [H E]]. inversion H; subst.
        simpl in E. injection E as <- <-. congruence.
  - rewrite in_flat_map. split.
    + intros [[x1 t1] [H1 H2]]. simpl in H2. apply in_map_iff in H2.
      destruct H2 as [[x2 t2] [E H2]]. simpl in E. injection E as <- <-.
      apply IHa in H1. apply IHb in H2. destruct H1 as [L1 ->], H2 as [L2 ->].
      split; [now constructor | now rewrite app_assoc].
    + intros [H E]. inversion H as [| a' b' x1 x2 L1 L2 | |]; subst.
      exists (x1, (x2 ++ t)%list). split.
      * apply IHa. split; [assumption | now rewrite app_assoc].
      * simpl. apply in_map_iff. exists (x2, t). split; [reflexivity |].
        apply IHb. now split.
  - rewrite in_app_iff, IHa, IHb. split.
    + intros [[L E] | [L E]]; split; trivial; [now apply lang_alt_l | now apply lang_alt_r].
    + intros [H E]. inversion H; subst; [left | right]; now split.
Qed.

Lemma u_lang_cls_inv (p : Z -> bool) (x : text) :
  lang (Cls p) x -> exists c, x = [c] /\ p c = true.
Proof.
  intros H. inversion H; subst. eauto.
Qed.

Lemma u_lang_seq_inv (a b : regex) (x : text) :
  lang (Seq a b) x -> exists x1 x2, x = (x1 ++ x2)%list /\ lang a x1 /\ lang b x2.
Proof.
  intros H. inversion H; subst. eauto.
Qed.

Lemma u_lang_alt_inv (a b : regex) (x : text) :
  lang (Alt a b) x -> lang a x \/ lang b x.
Proof.
  intros H. inversion H; subst; auto.
Qed.

(** Takes a hypothesis [lang r x], with [r] a closed expression, apart. *)
Ltac ulang_inv :=
  repeat match goal with
    | H : lang (Alt _ _) _ |- _ => apply u_lang_alt_inv in H; destruct H as [H | H]
    | H : lang (Seq _ _) _ |- _ =>
        apply u_lang_seq_inv in H;
        let x1 := fresh "x" in let x2 := fresh "x" in
        let E := fresh "E" in let L1 := fresh "L" in let L2 := fresh "L" in
        destruct H as [x1 [x2 [E [L1 L2]]]]
    | H : lang (Cls _) _ |- _ =>
        apply u_lang_cls_inv in H;
        let c := fresh "c" in let E := fresh "E" in let P := fresh "P" in
        destruct H as [c [E P]]
    | H : lang (re_d _) _ |- _ => unfold re_d in H
    | H : lang re_m _ |- _ => unfold re_m in H
    | H : lang (re_Y _) _ |- _ => unfold re_Y in H
    | H : lang dot _ |- _ => unfold dot in H
    | H : lang (chr _) _ |- _ => unfold chr in H
    | H : lang (rng _ _) _ |- _ => unfold rng in H
    | H : lang (any_digit _) _ |- _ => unfold any_digit in H
    end;
  subst; cbn [app] in *.

Lemma u_lang_two (p q : Z -> bool) (a b : Z) :
  p a = true -> q b = true -> lang (Seq (Cls p) (Cls q)) [a; b].
Proof.
  intros Ha Hb. change [a; b] with ([a] ++ [b])%list.
  constructor; now constructor.
Qed.

Lemma u_lang_re_d (x : text) :
  lang (re_d decimal) x <-> exists d, day_text decimal x d.
Proof.
  split.
  - intros H. ulang_inv; ucodes.
    + subst c. exists (10 * val 51 + val c0).
      apply day_two_digits; unfold ascii_digit, val; try lia.
      apply decimal_ascii_digit. unfold ascii_digit. lia.
    + pose proof (decimal_values _ _ P0). exists (10 * val c + v).
      apply day_two_digits; unfold ascii_digit, val; trivial; lia.
    + subst c. exists (10 * val 48 + val c0).
      apply day_two_digits; unfold ascii_digit, val; try lia.
      apply decimal_ascii_digit. unfold ascii_digit. lia.
    + exists (val c). apply day_one_digit; unfold ascii_digit, val; lia.
    + subst c. exists (val c0). apply day_space_digit; unfold ascii_digit, val; lia.
  - intros [d H]. unfold re_d, chr, rng, any_digit.
    destruct H as [a b v Ha Hb Hc Hr | a Ha Hr | a Ha Hr].
    + pose proof (decimal_values _ _ Hb) as Hv.
      assert (C : 49 <= a <= 50 \/ ascii_digit b /\ (a = 51 \/ a = 48)).
      { unfold ascii_digit, val in *.
        destruct Hc as [Hc | [Hc | Hc]]; [lia | lia |].
        destruct (Z.eq_dec a 49); [lia |]. destruct (Z.eq_dec a 50); [lia |].
        right. split; [exact Hc |]. lia. }
      destruct C as [C | [Hb' C]].
      * apply lang_alt_r, lang_alt_l, u_lang_two;
          [apply u_in_range_iff; ucodes; lia | apply isdecimal_char_iff; eauto].
      * rewrite (decimal_ascii_digit b Hb') in Hb. injection Hb as <-.
        unfold ascii_digit, val in *. destruct C as [-> | ->].
        -- apply lang_alt_l, u_lang_two;
             [apply Z.eqb_eq | apply u_in_range_iff]; ucodes; lia.
        -- apply lang_alt_r, lang_alt_r, lang_alt_l, u_lang_two;
             [apply Z.eqb_eq | apply u_in_range_iff]; ucodes; lia.
    + apply lang_alt_r, lang_alt_r, lang_alt_r, lang_alt_l. constructor.
      apply u_in_range_iff; ucodes; lia.
    + apply lang_alt_r, lang_alt_r, lang_alt_r, lang_alt_r, u_lang_two;
        [apply Z.eqb_eq | apply u_in_range_iff]; ucodes; lia.
Qed.

Lemma u_lang_re_m (x : text) : lang re_m x <-> exists m, month_text x m.
Proof.
  split.
  - intros H. ulang_inv; ucodes; eexists.
    + apply month_two_digits; unfold ascii_digit, val; lia.
    + apply month_two_digits; unfold ascii_digit, val; lia.
    + apply month_one_digit; unfold ascii_digit, val; lia.
  - intros [m H]. unfold re_m, chr, rng.
    destruct H as [a b Ha Hb Hr | a Ha Hr]; unfold ascii_digit, val in *.
    + assert (C : a = 49 \/ a = 48) by lia.
      destruct C as [-> | ->].
      * apply lang_alt_l, u_lang_two; [apply Z.eqb_eq | apply u_in_range_iff]; ucodes; lia.
      * apply lang_alt_r, lang_alt_l, u_lang_two;
          [apply Z.eqb_eq | apply u_in_range_iff]; ucodes; lia.
    + apply lang_alt_r, lang_alt_r. constructor. apply u_in_range_iff; ucodes; lia.
Qed.

Lemma u_lang_re_Y (x : text) :
  lang (re_Y decimal) x <-> exists y, year_text decimal x y.
Proof.
  split.
  - intros H. ulang_inv. ucodes. eexists. apply year_four_digits; eassumption.
  - intros [y H]. destruct H as [a b c d va vb vc vd Ha Hb Hc Hd].
    unfold re_Y, any_digit.
    change [a; b; c; d] with ([a] ++ ([b] ++ ([c] ++ [d])))%list.
    repeat constructor; apply isdecimal_char_iff; eauto.
Qed.

Lemma u_lang_dot (x : text) : lang dot x <-> x = [46].
Proof.
  split.
  - intros H. ulang_inv. ucodes. now subst.
  - intros ->. now constructor.
Qed.

(** *** [int] on the texts of the groups *)

Lemma u_rstrip_digits (t : text) :
  Forall (fun c => int_space_char c = false) t -> rstrip t = t.
Proof.
  induction 1 as [| c t Hc _ IH]; cbn [rstrip]; [reflexivity |].
  rewrite IH. destruct t; [now rewrite Hc | reflexivity].
Qed.

Lemma u_strip_digits (t : text) :
  Forall (fun c => int_space_char c = false) t -> strip t = t.
Proof.
  intros H. unfold strip.
  assert (E : lstrip t = t)
    by (destruct H as [| c t Hc _]; cbn [lstrip]; [| rewrite Hc]; reflexivity).
  rewrite E. now apply u_rstrip_digits.
Qed.

Lemma u_strip_space_digits (t : text) :
  Forall (fun c => int_space_char c = false) t -> strip (32 :: t) = strip t.
Proof.
  reflexivity.
Qed.

Lemma u_int_day (x : text) (d : Z) : day_text decimal x d -> int decimal x = d.
Proof.
  intros H. destruct H as [a b v Ha Hb Hc Hr | a Ha Hr | a Ha Hr]; unfold int.
  - rewrite u_strip_digits
      by (repeat constructor; eauto using ascii_digit_not_space).
    cbn [int_digits].
    rewrite (digit_decimal _ _ (decimal_ascii_digit a Ha)), (digit_decimal _ _ Hb). lia.
  - rewrite u_strip_digits by (repeat constructor; eauto using ascii_digit_not_space).
    cbn [int_digits]. rewrite (digit_decimal _ _ (decimal_ascii_digit a Ha)). lia.
  - rewrite u_strip_space_digits, u_strip_digits
      by (repeat constructor; eauto using ascii_digit_not_space).
    cbn [int_digits]. rewrite (digit_decimal _ _ (decimal_ascii_digit a Ha)). lia.
Qed.

Lemma u_int_month (x : text) (m : Z) : month_text x m -> int decimal x = m.
Proof.
  intros H. destruct H as [a b Ha Hb Hr | a Ha Hr]; unfold int;
    rewrite u_strip_digits by (repeat constructor; eauto using ascii_digit_not_space);
    cbn [int_digits];
    rewrite ?(digit_decimal _ _ (decimal_ascii_digit a Ha)),
      ?(digit_decimal _ _ (decimal_ascii_digit b Hb)); lia.
Qed.

Lemma u_int_year (x : text) (y : Z) : year_text decimal x y -> int decimal x = y.
Proof.
  intros H. destruct H as [a b c d va vb vc vd Ha Hb Hc Hd]. unfold int.
  rewrite u_strip_digits by (repeat constructor; eauto).
  cbn [int_digits].
  rewrite (digit_decimal _ _ Ha), (digit_decimal _ _ Hb),
    (digit_decimal _ _ Hc), (digit_decimal _ _ Hd). lia.
Qed.

(** *** One way to cut a string into day, month and year *)

Lemma u_decimal_not_dot (c v : Z) : decimal c = Some v -> c <> 46.
Proof.
  intros H ->. apply decimal_below_256 in H; [| lia].
  destruct H as [H _]. unfold ascii_digit in H. lia.
Qed.

Lemma u_day_text_no_dot (x : text) (d : Z) : day_text decimal x d -> no_dot x.
Proof.
  intros H. unfold no_dot.
  destruct H as [a b v Ha Hb _ _ | a Ha _ | a Ha _]; unfold ascii_digit in *;
    cbn [In]; try pose proof (u_decimal_not_dot _ _ Hb); lia.
Qed.

Lemma u_month_text_no_dot (x : text) (m : Z) : month_text x m -> no_dot x.
Proof.
  intros H. unfold no_dot.
  destruct H as [a b Ha Hb _ | a Ha _]; unfold ascii_digit in *; cbn [In]; lia.
Qed.

Lemma u_split_at_dot (x x' r r' : text) :
  no_dot x -> no_dot x' ->
  (x ++ 46 :: r)%list = (x' ++ 46 :: r')%list -> x = x' /\ r = r'.
Proof.
  unfold no_dot. revert x'.
  induction x as [| c x IH]; intros [| c' x'] Hx Hx' E; cbn [app In] in *.
  - injection E as <-. auto.
  - injection E as <- _. tauto.
  - injection E as -> _. tauto.
  - injection E as <- E. destruct (IH x') as [-> ->]; tauto.
Qed.

Lemma u_year_text_split (Y Y' r r' : text) (y y' : Z) :
  year_text decimal Y y -> year_text decimal Y' y' ->
  (Y ++ r)%list = (Y' ++ r')%list -> Y = Y' /\ r = r'.
Proof.
  intros H H' E. destruct H, H'. cbn [app] in E.
  injection E as <- <- <- <- <-. auto.
Qed.

Lemma u_In_matches (s : text) (f : found) :
  In f (matches decimal s)
  <-> (exists d m y, day_text decimal (group_d f) d /\ month_text (group_m f) m
                     /\ year_text decimal (group_Y f) y)
      /\ s = (group_d f ++ [46] ++ group_m f ++ [46] ++ group_Y f ++ remains f)%list.
Proof.
  unfold matches. split.
  - intros H.
    apply in_flat_map in H. destruct H as [[D t1] [HD H]].
    apply in_flat_map in H. destruct H as [[p1 t2] [Hp1 H]].
    apply in_flat_map in H. destruct H as [[M t3] [HM H]].
    apply in_flat_map in H. destruct H as [[p2 t4] [Hp2 H]].
    apply in_map_iff in H. destruct H as [[Y t5] [<- HY]].
    cbn [fst snd] in *.
    apply u_re_match_lang in HD, Hp1, HM, Hp2, HY.
    destruct HD as [HD ->], Hp1 as [Hp1 ->], HM as [HM ->],
             Hp2 as [Hp2 ->], HY as [HY ->].
    apply u_lang_dot in Hp1, Hp2. subst p1 p2.
    apply u_lang_re_d in HD. apply u_lang_re_m in HM. apply u_lang_re_Y in HY.
    destruct HD as [d HD], HM as [m HM], HY as [y HY].
    split; [now exists d, m, y | reflexivity].
  - intros [[d [m [y [HD [HM HY]]]]] E]. destruct f as [D M Y r].
    cbn [group_d group_m group_Y remains] in *.
    apply in_flat_map. exists (D, ([46] ++ M ++ [46] ++ Y ++ r)%list). split.
    { apply u_re_match_lang. split; [apply u_lang_re_d; eauto | exact E]. }
    apply in_flat_map. exists ([46], (M ++ [46] ++ Y ++ r)%list). split.
    { apply u_re_match_lang. split; [now apply u_lang_dot | reflexivity]. }
    apply in_flat_map. exists (M, ([46] ++ Y ++ r)%list). split.
    { apply u_re_match_lang. split; [apply u_lang_re_m; eauto | reflexivity]. }
    apply in_flat_map. exists ([46], (Y ++ r)%list). split.
    { apply u_re_match_lang. split; [now apply u_lang_dot | reflexivity]. }
    apply in_map_iff. exists (Y, r). split; [reflexivity |].
    apply u_re_match_lang. split; [apply u_lang_re_Y; eauto | reflexivity].
Qed.

Lemma u_matches_unique (s : text) (f f' : found) :
  In f (matches decimal s) -> In f' (matches decimal s) -> f = f'.
Proof.
  intros H H'. apply u_In_matches in H, H'.
  destruct H as [[d [m [y [HD [HM HY]]]]] E].
  destruct H' as [[d' [m' [y' [HD' [HM' HY']]]]] E'].
  destruct f as [D M Y r], f' as [D' M' Y' r'].
  cbn [group_d group_m group_Y remains] in *. subst s.
  cbn [app] in E'.
  apply u_split_at_dot in E'; eauto using u_day_text_no_dot.
  destruct E' as [<- E'].
  apply u_split_at_dot in E'; eauto using u_month_text_no_dot.
  destruct E' as [<- E'].
  destruct (u_year_text_split _ _ _ _ _ _ HY HY' E') as [<- <-].
  reflexivity.
Qed.

Lemma u_regex_match_iff (s : text) (f : found) :
  regex_match decimal s = Some f <-> In f (matches decimal s).
Proof.
  unfold regex_match. split.
  - destruct (matches decimal s) as [| g l]; [discriminate |].
    intros H. injection H as ->. now left.
  - intros H. destruct (matches decimal s) as [| g l] eqn:E; [destruct H |].
    cbn [hd_error]. f_equal. apply (u_matches_unique s); rewrite E; [now left | exact H].
Qed.

(** *** [strptime] and [Birthday] *)

Lemma u_strptime_inr (s : text) (dt : Date.date) :
  strptime decimal s = inr dt
  <-> exists y m d,
        reads_as decimal s y m d /\ DateText.real_date y m d
        /\ dt = Date.mkDate y m d.
Proof.
  unfold strptime, reads_as, DateText.real_date. split.
  - destruct (regex_match decimal s) as [f |] eqn:E; [| discriminate].
    apply u_regex_match_iff, u_In_matches in E.
    destruct E as [[d [m [y [HD [HM HY]]]]] E].
    destruct (remains f) eqn:Er; [| discriminate].
    rewrite (u_int_day _ _ HD), (u_int_month _ _ HM), (u_int_year _ _ HY).
    intros H. apply Date_new_inr in H. destruct H as [Hv ->].
    exists y, m, d. repeat split; trivial.
    exists (group_d f), (group_m f), (group_Y f).
    rewrite app_nil_r in E. auto.
  - intros [y [m [d [[D [M [Y [E [HD [HM HY]]]]]] [Hv ->]]]]].
    assert (Hin : In (mkFound D M Y []) (matches decimal s)).
    { apply u_In_matches. cbn [group_d group_m group_Y remains].
      split; [now exists d, m, y | now rewrite app_nil_r]. }
    apply u_regex_match_iff in Hin. rewrite Hin. cbn [remains group_d group_m group_Y].
    rewrite (u_int_day _ _ HD), (u_int_month _ _ HM), (u_int_year _ _ HY).
    apply Date_new_inr. auto.
Qed.

Lemma u_strptime_inl (s : text) (e : exn) :
  strptime decimal s = inl e -> exists msg, e = ValueError msg.
Proof.
  unfold strptime.
  destruct (regex_match decimal s) as [f |]; [| intros H; injection H as <-; eauto].
  destruct (remains f); [| intros H; injection H as <-; eauto].
  apply Date_new_inl.
Qed.

(** The format of the claim is one of the formats read. *)
Lemma u_padded_reads_as (s : text) (y m d : Z) :
  padded s y m d -> DateText.real_date y m d -> reads_as decimal s y m d.
Proof.
  intros [d1 [d0 [m1 [m0 [y3 [y2 [y1 [y0 H]]]]]]]] Hv.
  destruct H as (-> & Hd1 & Hd0 & Hm1 & Hm0 & Hy3 & Hy2 & Hy1 & Hy0 & -> & -> & ->).
  apply valid_bounds in Hv.
  exists [d1; d0], [m1; m0], [y3; y2; y1; y0].
  split; [reflexivity |]. split; [| split].
  - apply day_two_digits; auto using decimal_ascii_digit. lia.
  - apply month_two_digits; trivial; lia.
  - apply year_four_digits; auto using decimal_ascii_digit.
Qed.

Lemma u_Birthday_new_accepts (s : text) :
  (exists b, Birthday_new decimal s = inr b)
  <-> exists y m d, reads_as decimal s y m d /\ DateText.real_date y m d.
Proof.
  unfold Birthday_new. split.
  - intros [b H]. destruct (strptime decimal s) as [e | dt] eqn:E.
    + destruct e; discriminate.
    + apply u_strptime_inr in E. destruct E as [y [m [d [Hr [Hv _]]]]]. eauto.
  - intros [y [m [d [Hr Hv]]]].
    assert (E : strptime decimal s = inr (Date.mkDate y m d))
      by (apply u_strptime_inr; eauto 6).
    rewrite E. eauto.
Qed.

Lemma u_Birthday_new_rejects (s : text) :
  (forall b, Birthday_new decimal s <> inr b)
  <-> Birthday_new decimal s = inl (ValueError MsgBadDate).
Proof.
  unfold Birthday_new. destruct (strptime decimal s) as [e | dt] eqn:E.
  - apply u_strptime_inl in E. destruct E as [msg ->].
    split; [reflexivity | intros _ b H; discriminate H].
  - split; [intros H; now destruct (H _ eq_refl) | discriminate].
Qed.

(** C4, as the code has it: [Birthday(s)] succeeds exactly when [s] is a
    day, a dot, a month, a dot and a year that make a date of the calendar
    (years 1 to 9999).  The year is four decimal digits, each of any
    script; the month is two digits from 01 to 12 or one digit, of
    ['0'..'9']; the day is two digits from 01 to 31, or one digit, alone or
    after a space, of ['0'..'9'] but for the second digit of the days 10 to
    29, which is of any script.  Every string of the zero-padded format
    DD.MM.YYYY that is such a date is accepted; every other string raises
    the [ValueError] of the format. *)
Theorem Birthday_accepts_day_month_year (s : text) :
  ((exists b, Birthday_new decimal s = inr b)
   <-> exists y m d, reads_as decimal s y m d /\ DateText.real_date y m d)
  /\ ((forall b, Birthday_new decimal s <> inr b)
      <-> Birthday_new decimal s = inl (ValueError MsgBadDate))
  /\ (forall y m d, padded s y m d -> DateText.real_date y m d ->
      exists b, Birthday_new decimal s = inr b).
Proof.
  split; [apply u_Birthday_new_accepts |].
  split; [apply u_Birthday_new_rejects |].
  intros y m d Hp Hv. apply u_Birthday_new_accepts.
  exists y, m, d. split; [now apply u_padded_reads_as | exact Hv].
Qed.

End UnicodeBirthdayFormat.

(** *** On strings of Latin-1 characters: [Birthday_new] *)

Section Latin1Strings.

Variable decimal : Z -> option Z.

Hypothesis decimal_values : forall c v, decimal c = Some v -> 0 <= v <= 9.
Hypothesis decimal_latin1 :
  forall c, 0 <= c < 256 ->
  decimal c = if Unicode.in_range 48 57 c then Some (c - 48) else None.
Hypothesis decimal_not_space :
  forall c v, decimal c = Some v -> Unicode.int_space_char c = false.

Lemma of_string_app (x y : string) :
  Unicode.of_string (x ++ y) = (Unicode.of_string x ++ Unicode.of_string y)%list.
Proof.
  unfold Unicode.of_string.
  induction x as [| c x IH];
    cbn [String.append list_ascii_of_string List.map app];
    [reflexivity | now rewrite IH].
Qed.

Lemma of_string_app_inv (s : string) :
  forall l1 l2, Unicode.of_string s = (l1 ++ l2)%list ->
  exists s1 s2,
    s = s1 ++ s2 /\ Unicode.of_string s1 = l1 /\ Unicode.of_string s2 = l2.
Proof.
  induction s as [| c s IH]; intros l1 l2 E.
  - destruct l1; [| discriminate E]. destruct l2; [| discriminate E].
    now exists "", "".
  - destruct l1 as [| a l1].
    + exists "", (String c s). auto.
    + cbn [app] in E.
      change (Unicode.of_string (String c s))
        with (Str.code c :: Unicode.of_string s) in E.
      injection E as <- E. destruct (IH _ _ E) as [s1 [s2 [-> [<- <-]]]].
      now exists (String c s1), s2.
Qed.

Lemma of_string_cons (s : string) (a : Z) (l : Unicode.text) :
  Unicode.of_string s = a :: l ->
  exists c t, s = String c t /\ Str.code c = a /\ Unicode.of_string t = l.
Proof.
  destruct s as [| c t]; [discriminate |].
  change (Unicode.of_string (String c t)) with (Str.code c :: Unicode.of_string t).
  intros E. injection E as <- <-. eauto.
Qed.

Lemma of_string_nil (s : string) : Unicode.of_string s = [] -> s = "".
Proof.
  destruct s; [reflexivity | discriminate].
Qed.

Lemma of_string_dot (s : string) : Unicode.of_string s = [46] -> s = ".".
Proof.
  intros E. apply of_string_cons in E. destruct E as [c [t [-> [Hc E]]]].
  apply of_string_nil in E. subst t. f_equal. apply code_inj. exact Hc.
Qed.

Lemma narrow_decimal (c : ascii) :
  DateText.decimal c <-> Unicode.ascii_digit (Str.code c).
Proof.
  unfold DateText.decimal, Str.is_decimal, Unicode.ascii_digit. apply in_range_iff.
Qed.

Lemma decimal_code (c : ascii) (v : Z) :
  decimal (Str.code c) = Some v -> DateText.decimal c /\ v = DateText.val c.
Proof.
  intros H.
  apply (decimal_below_256 decimal decimal_latin1) in H; [| apply code_range].
  destruct H as [H ->]. split; [now apply narrow_decimal | reflexivity].
Qed.

(** Takes [of_string s = [a; ...]] apart, down to the characters of [s]. *)
Ltac of_string_inv :=
  repeat match goal with
    | E : Unicode.of_string _ = _ :: _ |- _ =>
        apply of_string_cons in E;
        let c := fresh "c" in let t := fresh "t" in let Hc := fresh "Hc" in
        destruct E as [c [t [-> [Hc E]]]]
    | E : Unicode.of_string _ = [] |- _ => apply of_string_nil in E
    end;
  subst.

Lemma day_text_of_string (x : string) (d : Z) :
  Unicode.day_text decimal (Unicode.of_string x) d <-> DateText.day_text x d.
Proof.
  split.
  - intros H. remember (Unicode.of_string x) as l eqn:E. symmetry in E.
    destruct H as [a b v Ha Hb Hc Hr | a Ha Hr | a Ha Hr]; of_string_inv.
    + apply decimal_code in Hb. destruct Hb as [Hb ->].
      apply DateText.day_two_digits; [now apply narrow_decimal | exact Hb | exact Hr].
    + apply DateText.day_one_digit; [now apply narrow_decimal | exact Hr].
    + match goal with
      | H : Str.code ?c = 32 |- _ =>
          assert (c = " "%char) as -> by (apply code_inj; exact H)
      end.
      apply DateText.day_space_digit; [now apply narrow_decimal | exact Hr].
  - intros H. destruct H as [a b Ha Hb Hr | a Ha Hr | a Ha Hr];
      apply narrow_decimal in Ha; try apply narrow_decimal in Hb.
    + apply (Unicode.day_two_digits decimal (Str.code a) (Str.code b)); auto.
      now apply (decimal_ascii_digit decimal decimal_latin1).
    + now apply (Unicode.day_one_digit decimal (Str.code a)).
    + now apply (Unicode.day_space_digit decimal (Str.code a)).
Qed.

Lemma month_text_of_string (x : string) (m : Z) :
  Unicode.month_text (Unicode.of_string x) m <-> DateText.month_text x m.
Proof.
  split.
  - intros H. remember (Unicode.of_string x) as l eqn:E. symmetry in E.
    destruct H as [a b Ha Hb Hr | a Ha Hr]; of_string_inv.
    + apply DateText.month_two_digits; [now apply narrow_decimal .. | exact Hr].
    + apply DateText.month_one_digit; [now apply narrow_decimal | exact Hr].
  - intros H. destruct H as [a b Ha Hb Hr | a Ha Hr];
      apply narrow_decimal in Ha; try apply narrow_decimal in Hb.
    + now apply (Unicode.month_two_digits (Str.code a) (Str.code b)).
    + now apply (Unicode.month_one_digit (Str.code a)).
Qed.

Lemma year_text_of_string (x : string) (y : Z) :
  Unicode.year_text decimal (Unicode.of_string x) y <-> DateText.year_text x y.
Proof.
  split.
  - intros H. remember (Unicode.of_string x) as l eqn:E. symmetry in E.
    destruct H as [a b c d va vb vc vd Ha Hb Hc Hd]; of_string_inv.
    apply decimal_code in Ha, Hb, Hc, Hd.
    destruct Ha as [Ha ->], Hb as [Hb ->], Hc as [Hc ->], Hd as [Hd ->].
    now apply DateText.year_four_digits.
  - intros H. destruct H as [a b c d Ha Hb Hc Hd].
    apply narrow_decimal in Ha, Hb, Hc, Hd.
    apply (Unicode.year_four_digits decimal
             (Str.code a) (Str.code b) (Str.code c) (Str.code d));
      now apply (decimal_ascii_digit decimal decimal_latin1).
Qed.

Lemma reads_as_of_string (s : string) (y m d : Z) :
  Unicode.reads_as decimal (Unicode.of_string s) y m d <-> DateText.reads_as s y m d.
Proof.
  unfold Unicode.reads_as, DateText.reads_as. split.
  - intros [D [M [Y [E [HD [HM HY]]]]]].
    apply of_string_app_inv in E. destruct E as [D' [r1 [-> [<- E]]]].
    apply of_string_app_inv in E. destruct E as [p1 [r2 [-> [Hp1 E]]]].
    apply of_string_app_inv in E. destruct E as [M' [r3 [-> [<- E]]]].
    apply of_string_app_inv in E. destruct E as [p2 [Y' [-> [Hp2 <-]]]].
    apply of_string_dot in Hp1, Hp2. subst p1 p2.
    exists D', M', Y'. split; [reflexivity |].
    split; [now apply day_text_of_string |].
    split; [now apply month_text_of_string | now apply year_text_of_string].
  - intros [D [M [Y [-> [HD [HM HY]]]]]].
    exists (Unicode.of_string D), (Unicode.of_string M), (Unicode.of_string Y).
    rewrite !of_string_app. split; [reflexivity |].
    split; [now apply day_text_of_string |].
    split; [now apply month_text_of_string | now apply year_text_of_string].
Qed.

(** [Birthday_new], on the strings of the session, is [Unicode.Birthday_new]
    on their code points. *)
Lemma Birthday_new_of_string (s : string) :
  Unicode.Birthday_new decimal (Unicode.of_string s)
  = match Birthday_new s with
    | inr _ => inr (Unicode.mkBirthday (Unicode.VStr (Unicode.of_string s)))
    | inl e => inl e
    end.
Proof.
  destruct (Birthday_new s) as [e | b] eqn:E.
  - assert (Hn : forall b, Birthday_new s <> inr b) by (intros b; congruence).
    apply Birthday_new_rejects in Hn. rewrite E in Hn. injection Hn as ->.
    apply (u_Birthday_new_rejects decimal). intros b Hb.
    assert (Ha : exists b,
               Unicode.Birthday_new decimal (Unicode.of_string s) = inr b)
      by eauto.
    apply (u_Birthday_new_accepts decimal decimal_values decimal_latin1
             decimal_not_space) in Ha. destruct Ha as [y [m [d [Hr Hv]]]].
    apply reads_as_of_string in Hr.
    assert (Hs : exists b, Birthday_new s = inr b)
      by (apply Birthday_new_accepts; eauto).
    destruct Hs as [b' Hs]. congruence.
  - assert (Ha : exists b, Birthday_new s = inr b) by eauto.
    apply Birthday_new_accepts in Ha. destruct Ha as [y [m [d [Hr Hv]]]].
    apply reads_as_of_string in Hr.
    assert (Hs : exists b,
               Unicode.Birthday_new decimal (Unicode.of_string s) = inr b)
      by (apply (u_Birthday_new_accepts decimal decimal_values decimal_latin1
                 decimal_not_space); eauto).
    destruct Hs as [b' Hs]. rewrite Hs. f_equal.
    unfold Unicode.Birthday_new in Hs.
    destruct (Unicode.strptime decimal (Unicode.of_string s)) as [e | dt];
      [destruct e; discriminate |].
    now injection Hs as <-.
Qed.

End Latin1Strings.


(** *** The database of Unicode 14.0 *)

Lemma decimal_of_runs_values (zeros : list Z) (c v : Z) :
  Unicode.decimal_of_runs zeros c = Some v -> 0 <= v <= 9.
Proof.
  unfold Unicode.decimal_of_runs.
  destruct (find (fun z => Unicode.in_range z (z + 9) c) zeros) as [z |] eqn:E;
    [| discriminate].
  apply find_some in E. destruct E as [_ E]. apply u_in_range_iff in E.
  intros H. injection H as <-. lia.
Qed.

Lemma find_run_none (c : Z) (zeros : list Z) :
  Forall (fun z => c < z) zeros ->
  find (fun z => Unicode.in_range z (z + 9) c) zeros = None.
Proof.
  induction 1 as [| z l Hz _ IH]; cbn [find]; [reflexivity |].
  unfold Unicode.in_range at 1.
  destruct (z <=? c) eqn:E; [apply Z.leb_le in E; lia | exact IH].
Qed.

Lemma unicode_14_latin1 (c : Z) :
  0 <= c < 256 ->
  Unicode.unicode_14 c = if Unicode.in_range 48 57 c then Some (c - 48) else None.
Proof.
  intros Hc. unfold Unicode.unicode_14, Unicode.decimal_of_runs.
  change Unicode.unicode_14_zeros with (48 :: tl Unicode.unicode_14_zeros).
  cbn [find]. change (48 + 9) with 57.
  destruct (Unicode.in_range 48 57 c); [reflexivity |].
  rewrite find_run_none; [reflexivity |].
  cbn [tl Unicode.unicode_14_zeros]. unfold Unicode.unicode_14_zeros. cbn [tl].
  repeat constructor; lia.
Qed.

Lemma unicode_14_not_space (c v : Z) :
  Unicode.unicode_14 c = Some v -> Unicode.int_space_char c = false.
Proof.
  unfold Unicode.unicode_14, Unicode.decimal_of_runs.
  destruct (find (fun z => Unicode.in_range z (z + 9) c) Unicode.unicode_14_zeros)
    as [z |] eqn:E; [| discriminate].
  intros _. apply find_some in E. destruct E as [Hin E]. apply u_in_range_iff in E.
  assert (H : forallb
                (fun z => forallb (fun k => negb (Unicode.int_space_char (z + k)))
                            [0; 1; 2; 3; 4; 5; 6; 7; 8; 9])
                Unicode.unicode_14_zeros = true) by (vm_compute; reflexivity).
  rewrite forallb_forall in H. specialize (H z Hin).
  rewrite forallb_forall in H. specialize (H (c - z)).
  replace (z + (c - z)) with c in H by lia.
  apply negb_true_iff, H. cbn [In]. lia.
Qed.

(** The strings of other scripts the database makes dates of: a year in
    Arabic-Indic digits, and the second digit of a day from 10 to 29; a
    month takes the digits ['0'..'9'] only. *)
Example Birthday_reads_the_digits_of_other_scripts :
  Unicode.strptime Unicode.unicode_14 Unicode.year_in_arabic_indic
  = inr (Date.mkDate 2000 1 1)
  /\ Unicode.Birthday_new Unicode.unicode_14 Unicode.year_in_arabic_indic
     = inr (Unicode.mkBirthday (Unicode.VStr Unicode.year_in_arabic_indic))
  /\ Unicode.strptime Unicode.unicode_14 Unicode.day_in_two_scripts
     = inr (Date.mkDate 2000 1 15)
  /\ Unicode.Birthday_new Unicode.unicode_14 Unicode.day_in_two_scripts
     = inr (Unicode.mkBirthday (Unicode.VStr Unicode.day_in_two_scripts))
  /\ Unicode.Birthday_new Unicode.unicode_14 Unicode.month_in_arabic_indic
     = inl (ValueError MsgBadDate).
Proof.
  repeat split.
Qed.

(** At the database of Unicode 14.0, on 01.01.2000 with the year in
    Arabic-Indic digits. *)
Lemma Birthday_accepts_day_month_year_witness :
  (forall c v, Unicode.unicode_14 c = Some v -> 0 <= v <= 9)
  /\ (forall c, 0 <= c < 256 ->
      Unicode.unicode_14 c
      = if Unicode.in_range 48 57 c then Some (c - 48) else None)
  /\ (forall c v, Unicode.unicode_14 c = Some v -> Unicode.int_space_char c = false)
  /\ ((exists b,
          Unicode.Birthday_new Unicode.unicode_14 Unicode.year_in_arabic_indic = inr b)
      <-> exists y m d,
            Unicode.reads_as Unicode.unicode_14 Unicode.year_in_arabic_indic y m d
            /\ DateText.real_date y m d)
  /\ ((forall b,
          Unicode.Birthday_new Unicode.unicode_14 Unicode.year_in_arabic_indic <> inr b)
      <-> Unicode.Birthday_new Unicode.unicode_14 Unicode.year_in_arabic_indic
          = inl (ValueError MsgBadDate))
  /\ (forall y m d,
         Unicode.padded Unicode.year_in_arabic_indic y m d ->
         DateText.real_date y m d ->
         exists b,
           Unicode.Birthday_new Unicode.unicode_14 Unicode.year_in_arabic_indic = inr b).
Proof.
  split; [exact (decimal_of_runs_values Unicode.unicode_14_zeros) |].
  split; [exact unicode_14_latin1 |].
  split; [exact unicode_14_not_space |].
  exact (Birthday_accepts_day_month_year Unicode.unicode_14
           (decimal_of_runs_values Unicode.unicode_14_zeros)
           unicode_14_latin1 unicode_14_not_space Unicode.year_in_arabic_indic).
Defined.

(** C4, as stated, fails: the first of January 2000 written without the
    zeros is accepted, and it is not of the format DD.MM.YYYY. *)
Lemma Birthday_accepts_unpadded_day_and_month :
  Unicode.Birthday_new Unicode.unicode_14 (Unicode.of_string "1.1.2000")
  = inr (Unicode.mkBirthday (Unicode.VStr (Unicode.of_string "1.1.2000")))
  /\ Birthday_new "1.1.2000" = inr (mkBirthday (VStr "1.1.2000"))
  /\ (forall y m d, ~ Unicode.padded (Unicode.of_string "1.1.2000") y m d)
  /\ Unicode.reads_as Unicode.unicode_14 (Unicode.of_string "1.1.2000") 2000 1 1.
Proof.
  split; [reflexivity |]. split; [reflexivity |]. split.
  - intros y m d [d1 [d0 [m1 [m0 [y3 [y2 [y1 [y0 [E _]]]]]]]]]. discriminate E.
  - exists [49], [49], [50; 48; 48; 48]. split; [reflexivity |].
    split; [| split].
    + apply (Unicode.day_one_digit Unicode.unicode_14 49);
        unfold Unicode.ascii_digit, Unicode.val; lia.
    + apply (Unicode.month_one_digit 49);
        unfold Unicode.ascii_digit, Unicode.val; lia.
    + exact (Unicode.year_four_digits Unicode.unicode_14 50 48 48 48 2 0 0 0
               eq_refl eq_refl eq_refl eq_refl).
Qed.

(** ** The dictionary *)

Section DictFacts.

Context {V : Type}.
Implicit Types (d : Dict.dict V) (k : string) (v : V).

Lemma get_set_same d k v : Dict.get (Dict.set d k v) k = Some v.
Proof.
  induction d as [| [k' v'] d IH]; cbn [Dict.set Dict.get].
  - now rewrite String.eqb_refl.
  - destruct (String.eqb k' k) eqn:E; cbn [Dict.get]; now rewrite E.
Qed.

Lemma get_set_other d k k' v :
  k' <> k -> Dict.get (Dict.set d k v) k' = Dict.get d k'.
Proof.
  intros Hne. induction d as [| [k0 v0] d IH]; cbn [Dict.set Dict.get].
  - destruct (String.eqb k k') eqn:E; [| reflexivity].
    apply String.eqb_eq in E. congruence.
  - destruct (String.eqb k0 k) eqn:E; cbn [Dict.get].
    + apply String.eqb_eq in E. subst k0.
      destruct (String.eqb k k') eqn:E'; [| reflexivity].
      apply String.eqb_eq in E'. congruence.
    + now rewrite IH.
Qed.

(** Assigning to a key that is present keeps the keys and their order. *)
Lemma keys_set_present d k v v0 :
  Dict.get d k = Some v0 -> Dict.keys (Dict.set d k v) = Dict.keys d.
Proof.
  unfold Dict.keys.
  induction d as [| [k' v'] d IH]; cbn [Dict.set Dict.get List.map]; [discriminate |].
  destruct (String.eqb k' k); cbn [List.map fst]; [reflexivity |].
  intros H. now rewrite IH.
Qed.

(** Assigning to a new key puts it last. *)
Lemma keys_set_absent d k v :
  Dict.get d k = None -> Dict.keys (Dict.set d k v) = (Dict.keys d ++ [k])%list.
Proof.
  unfold Dict.keys.
  induction d as [| [k' v'] d IH]; cbn [Dict.set Dict.get List.map app]; [reflexivity |].
  destruct (String.eqb k' k); [discriminate |].
  intros H. cbn [List.map fst]. now rewrite IH.
Qed.

End DictFacts.

(** ** The handlers *)

Lemma Phone_new_accepted (v : string) :
  accepted_phone v -> Phone_new v = inr (phone_of v).
Proof.
  intros [p H]. rewrite H. f_equal. unfold phone_of.
  unfold Phone_new, Phone_set_value in H.
  destruct ((Str.len v =? 10) && Str.isdigit v); congruence.
Qed.

(** Steps of the monad on a given book. *)
Ltac run :=
  cbv beta delta [bind ret raise lift get_book put_book] in *; cbv beta iota in *.

(** What the loop of [add_contact] does on the book: the phones accepted
    before the first refusal are appended, in order, to the record held
    under the name; nothing else changes. *)
Lemma add_phones_prefix (n : string) (phones : list string) :
  forall (record : Rec.Record_) (book : AddressBook),
    Dict.get (data book) n = Some record ->
    exists appended rest book',
      phones = (appended ++ rest)%list
      /\ Forall accepted_phone appended
      /\ snd (Body.add_phones n record phones book) = book'
      /\ Dict.get (data book') n
         = Some (Rec.mkRecord (Rec.name record)
                   (Rec.phones record ++ List.map phone_of appended)%list
                   (Rec.birthday record))
      /\ (forall n', n' <> n -> Dict.get (data book') n' = Dict.get (data book) n')
      /\ Dict.keys (data book') = Dict.keys (data book)
      /\ match rest with
         | [] => fst (Body.add_phones n record phones book) = inr tt
         | v :: _ =>
             ~ accepted_phone v
             /\ fst (Body.add_phones n record phones book)
                = inl (ValueError MsgBadPhone)
         end.
Proof.
  induction phones as [| phone phones IH]; intros record book Hget.
  - exists [], [], book. cbn [Body.add_phones]. run. cbn [fst snd List.map app].
    rewrite app_nil_r. destruct record. repeat split; auto.
  - cbn [Body.add_phones]. unfold Rec.add_phone.
    destruct (Phone_new phone) as [e | p] eqn:Ep.
    + exists [], (phone :: phones), book. run. cbn [fst snd List.map app].
      rewrite app_nil_r. destruct record. cbn [Rec.name Rec.phones Rec.birthday].
      repeat split; auto.
      * intros [p Hp]. congruence.
      * f_equal. unfold Phone_new, Phone_set_value in Ep.
        destruct ((Str.len phone =? 10) && Str.isdigit phone); congruence.
    + assert (Hacc : accepted_phone phone) by (now exists p).
      rewrite (Phone_new_accepted _ Hacc) in Ep. injection Ep as <-.
      set (record' := Rec.mkRecord (Rec.name record)
                        (Rec.phones record ++ [phone_of phone])%list (Rec.birthday record)).
      set (book1 := mkBook (Dict.set (data book) n record')).
      assert (Hget1 : Dict.get (data book1) n = Some record')
        by apply get_set_same.
      destruct (IH record' book1 Hget1)
        as [appended [rest [book' (E & Hall & Hsnd & Hrec & Hoth & Hkeys & Hres)]]].
      exists (phone :: appended), rest, book'.
      run. fold record'. fold book1.
      repeat split.
      * cbn [app]. now rewrite E.
      * now constructor.
      * exact Hsnd.
      * rewrite Hrec. subst record'. cbn [Rec.name Rec.phones Rec.birthday List.map].
        now rewrite <- app_assoc.
      * intros n' Hn'. rewrite (Hoth n' Hn'). subst book1. cbn [data].
        now apply get_set_other.
      * rewrite Hkeys. subst book1. cbn [data].
        now apply (keys_set_present _ _ _ record).
      * exact Hres.
Qed.

Lemma length_lt_2 (A : Type) (x : A) (l : list A) :
  (Z.of_nat (length (x :: l)) <? 2) = match l with [] => true | _ => false end.
Proof.
  destruct l as [| y l]; cbn [length]; [reflexivity |]. apply Z.ltb_ge. lia.
Qed.

(** The record [add] leaves under the name, and the rest of the book, for
    any phone arguments: the record found (or a new one) with the phones
    accepted before the first refusal appended in order. *)
Lemma add_contact_prefix (n phone : string) (phones : list string) (book : AddressBook) :
  exists appended rest book',
    phone :: phones = (appended ++ rest)%list
    /\ Forall accepted_phone appended
    /\ snd (add_contact (n :: phone :: phones) book) = book'
    /\ Book.find book' n
       = Some (match Book.find book n with
               | None => Rec.mkRecord (mkName n) (List.map phone_of appended) None
               | Some record =>
                   Rec.mkRecord (Rec.name record)
                     (Rec.phones record ++ List.map phone_of appended)
                     (Rec.birthday record)
               end)
    /\ (forall n', n' <> n -> Book.find book' n' = Book.find book n')
    /\ match rest with
       | [] => fst (add_contact (n :: phone :: phones) book)
               = inr (match Book.find book n with
                      | None => MsgAdded
                      | Some _ => MsgUpdated
                      end)
       | v :: _ => ~ accepted_phone v
                   /\ fst (add_contact (n :: phone :: phones) book) = inr MsgBadPhone
       end.
Proof.
  unfold add_contact, input_error, Body.add_contact.
  rewrite length_lt_2. unfold Book.find.
  destruct (Dict.get (data book) n) as [record |] eqn:Hfind.
  - destruct (add_phones_prefix n (phone :: phones) record book Hfind)
      as [appended [rest [book' (E & Hall & Hsnd & Hrec & Hoth & _ & Hres)]]].
    exists appended, rest, book'. run. unfold Book.find. rewrite Hfind.
    destruct (Body.add_phones n record (phone :: phones) book) as [[e | []] b];
      cbn [fst snd] in *; subst b.
    + destruct rest as [| v rest]; [discriminate Hres |].
      destruct Hres as [Hv He]. injection He as ->. cbn [fst snd str_exn].
      repeat split; auto.
    + destruct rest as [| v rest]; [| destruct Hres as [_ He]; discriminate He].
      cbn [fst snd]. repeat split; auto.
  - set (book1 := Book.add_record book (Rec.new n)).
    assert (Hget1 : Dict.get (data book1) n = Some (Rec.new n))
      by apply get_set_same.
    destruct (add_phones_prefix n (phone :: phones) (Rec.new n) book1 Hget1)
      as [appended [rest [book' (E & Hall & Hsnd & Hrec & Hoth & _ & Hres)]]].
    exists appended, rest, book'. run. unfold Book.find. rewrite Hfind. fold book1.
    assert (Hoth' : forall n', n' <> n -> Dict.get (data book') n' = Dict.get (data book) n').
    { intros n' Hn'. rewrite (Hoth n' Hn'). now apply get_set_other. }
    destruct (Body.add_phones n (Rec.new n) (phone :: phones) book1) as [[e | []] b];
      cbn [fst snd] in *; subst b.
    + destruct rest as [| v rest]; [discriminate Hres |].
      destruct Hres as [Hv He]. injection He as ->. cbn [fst snd str_exn].
      repeat split; auto.
    + destruct rest as [| v rest]; [| destruct Hres as [_ He]; discriminate He].
      cbn [fst snd]. repeat split; auto.
Qed.

Lemma phone_strings_of (vs : list string) :
  List.map Phone_str (List.map phone_of vs) = vs.
Proof.
  induction vs as [| v vs IH]; cbn [List.map]; [reflexivity |].
  now rewrite IH.
Qed.

Lemma prefix_all_accepted (phones appended rest : list string) :
  phones = (appended ++ rest)%list ->
  Forall accepted_phone phones ->
  match rest with [] => True | v :: _ => ~ accepted_phone v end ->
  appended = phones /\ rest = [].
Proof.
  intros -> Hall Hrest. destruct rest as [| v rest].
  - now rewrite app_nil_r.
  - apply Forall_app in Hall. destruct Hall as [_ Hall].
    inversion Hall; subst. contradiction.
Qed.

(** C5: with every phone argument accepted, [add] on a new name leaves a
    record of that name whose phones are the given ones in the given order;
    on a name of the book it leaves the record found with the given phones
    appended to those it had; the other records are as before. *)
Theorem add_contact_creates_or_appends
    (n phone : string) (phones : list string) (book : AddressBook) :
  Forall accepted_phone (phone :: phones) ->
  exists book' record',
    Book.find book' n = Some record'
    /\ (forall n', n' <> n -> Book.find book' n' = Book.find book n')
    /\ match Book.find book n with
       | None =>
           add_contact (n :: phone :: phones) book = (inr MsgAdded, book')
           /\ record' = Rec.mkRecord (mkName n) (List.map phone_of (phone :: phones)) None
           /\ Rec.phone_strings record' = phone :: phones
       | Some record =>
           add_contact (n :: phone :: phones) book = (inr MsgUpdated, book')
           /\ record' = Rec.mkRecord (Rec.name record)
                          (Rec.phones record ++ List.map phone_of (phone :: phones))
                          (Rec.birthday record)
           /\ Rec.phone_strings record'
              = (Rec.phone_strings record ++ phone :: phones)%list
       end.
Proof.
  intros Hall.
  destruct (add_contact_prefix n phone phones book)
    as [appended [rest [book' (E & _ & Hsnd & Hrec & Hoth & Hres)]]].
  destruct (prefix_all_accepted _ _ _ E Hall) as [-> ->].
  { destruct rest; [exact I | apply Hres]. }
  destruct (add_contact (n :: phone :: phones) book) as [r b] eqn:Eadd.
  cbn [fst snd] in *. subst b r.
  eexists book', _. split; [exact Hrec |]. split; [exact Hoth |].
  destruct (Book.find book n) as [record |].
  - repeat split. unfold Rec.phone_strings. cbn [Rec.phones].
    now rewrite List.map_app, phone_strings_of.
  - repeat split. unfold Rec.phone_strings. cbn [Rec.phones].
    now rewrite phone_strings_of.
Qed.

Lemma accepted_0123456789 : accepted_phone "0123456789".
Proof.
  now exists (phone_of "0123456789").
Qed.

Lemma accepted_0987654321 : accepted_phone "0987654321".
Proof.
  now exists (phone_of "0987654321").
Qed.

Lemma add_contact_creates_or_appends_witness :
  Forall accepted_phone ["0123456789"; "0987654321"]
  /\ exists book' record',
      Book.find book' "Ann" = Some record'
      /\ (forall n', n' <> "Ann" -> Book.find book' n' = Book.find Book.empty n')
      /\ match Book.find Book.empty "Ann" with
         | None =>
             add_contact ["Ann"; "0123456789"; "0987654321"] Book.empty
             = (inr MsgAdded, book')
             /\ record' = Rec.mkRecord (mkName "Ann")
                            (List.map phone_of ["0123456789"; "0987654321"]) None
             /\ Rec.phone_strings record' = ["0123456789"; "0987654321"]
         | Some record =>
             add_contact ["Ann"; "0123456789"; "0987654321"] Book.empty
             = (inr MsgUpdated, book')
             /\ record' = Rec.mkRecord (Rec.name record)
                            (Rec.phones record
                             ++ List.map phone_of ["0123456789"; "0987654321"])
                            (Rec.birthday record)
             /\ Rec.phone_strings record'
                = (Rec.phone_strings record ++ ["0123456789"; "0987654321"])%list
         end.
Proof.
  assert (H : Forall accepted_phone ["0123456789"; "0987654321"]).
  { repeat constructor; [apply accepted_0123456789 | apply accepted_0987654321]. }
  split; [exact H |].
  exact (add_contact_creates_or_appends "Ann" "0123456789" ["0987654321"] Book.empty H).
Defined.

(** C6: [change] with an accepted phone, on a name of the book, leaves
    that record with the one phone given, whatever phones it had, and the
    other records as they were; on a name that is not in the book it raises
    the [KeyError] of the unknown contact, which the decorator turns into
    its text, and the book is the same. *)
Theorem change_contact_sets_the_only_phone
    (n phone : string) (book : AddressBook) :
  accepted_phone phone ->
  match Dict.get (data book) n with
  | Some record =>
      exists book',
        change_contact [n; phone] book = (inr MsgChanged, book')
        /\ Book.find book' n
           = Some (Rec.mkRecord (Rec.name record) [phone_of phone] (Rec.birthday record))
        /\ (forall record', Book.find book' n = Some record' ->
            Rec.phone_strings record' = [phone])
        /\ (forall n', n' <> n -> Book.find book' n' = Book.find book n')
  | None =>
      Body.change_contact [n; phone] book = (inl (KeyError (MsgNotFound n)), book)
      /\ change_contact [n; phone] book = (inr (MsgRepr (MsgNotFound n)), book)
  end.
Proof.
  intros Hacc. unfold change_contact, input_error, Body.change_contact. run.
  destruct (Dict.get (data book) n) as [record |] eqn:Hget.
  - rewrite (Phone_new_accepted phone Hacc).
    eexists. split; [reflexivity |]. unfold Book.find. cbn [data].
    rewrite get_set_same. split; [reflexivity |]. split.
    + intros record' H. injection H as <-. reflexivity.
    + intros n' Hn'. now apply get_set_other.
  - split; reflexivity.
Qed.

Lemma change_contact_sets_the_only_phone_witness :
  accepted_phone "0987654321"
  /\ exists book',
      change_contact ["Ann"; "0987654321"]
        (mkBook [("Ann", Rec.mkRecord (mkName "Ann")
                           [phone_of "0123456789"; phone_of "0123456780"] None)])
      = (inr MsgChanged, book')
      /\ Book.find book' "Ann"
         = Some (Rec.mkRecord (mkName "Ann") [phone_of "0987654321"] None)
      /\ (forall record', Book.find book' "Ann" = Some record' ->
          Rec.phone_strings record' = ["0987654321"])
      /\ (forall n', n' <> "Ann" ->
          Book.find book' n'
          = Book.find
              (mkBook [("Ann", Rec.mkRecord (mkName "Ann")
                                 [phone_of "0123456789"; phone_of "0123456780"] None)])
              n').
Proof.
  split; [apply accepted_0987654321 |].
  exact (change_contact_sets_the_only_phone "Ann" "0987654321"
           (mkBook [("Ann", Rec.mkRecord (mkName "Ann")
                              [phone_of "0123456789"; phone_of "0123456780"] None)])
           accepted_0987654321).
Defined.

(** ** The decorator *)

Lemma input_error_caught (func : M message) (book book' : AddressBook) (e : exn) :
  func book = (inl e, book') -> caught e ->
  input_error func book = (inr (str_exn e), book').
Proof.
  intros H Hc. unfold input_error. rewrite H.
  destruct e; try contradiction; reflexivity.
Qed.

Lemma input_error_returned (func : M message) (book book' : AddressBook) (m : message) :
  func book = (inr m, book') -> input_error func book = (inr m, book').
Proof.
  intros H. unfold input_error. now rewrite H.
Qed.

(** A function that raises only what the decorator catches returns a text
    once decorated. *)
Lemma input_error_total (func : M message) (book : AddressBook) :
  (forall e book', func book = (inl e, book') -> caught e) ->
  exists m book', input_error func book = (inr m, book').
Proof.
  intros H. destruct (func book) as [[e | m] book'] eqn:E.
  - exists (str_exn e), book'. apply input_error_caught; eauto.
  - exists m, book'. now apply input_error_returned.
Qed.

Lemma Phone_new_raises (v : string) (e : exn) :
  Phone_new v = inl e -> e = ValueError MsgBadPhone.
Proof.
  unfold Phone_new, Phone_set_value.
  destruct ((Str.len v =? 10) && Str.isdigit v); congruence.
Qed.

Lemma add_phones_raises (n : string) (phones : list string) :
  forall record book e book',
    Body.add_phones n record phones book = (inl e, book') -> caught e.
Proof.
  induction phones as [| phone phones IH]; intros record book e book';
    cbn [Body.add_phones]; unfold Rec.add_phone; run.
  - discriminate.
  - destruct (Phone_new phone) as [e' | p] eqn:Ep.
    + apply Phone_new_raises in Ep. subst e'. intros H. injection H as <- _. exact I.
    + intros H. revert H. apply IH.
Qed.

Lemma add_contact_raises (args : list string) (book book' : AddressBook) (e : exn) :
  Body.add_contact args book = (inl e, book') -> caught e.
Proof.
  unfold Body.add_contact.
  destruct (Z.of_nat (length args) <? 2).
  - run. intros H. injection H as <- _. exact I.
  - destruct args as [| n phones]; run.
    + intros H. injection H as <- _. exact I.
    + destruct (Book.find book n) as [record |].
      * destruct (Body.add_phones n record phones book) as [[e' | []] b] eqn:E;
          [| discriminate].
        intros H. injection H as <- _. eapply add_phones_raises, E.
      * destruct (Body.add_phones n (Rec.new n) phones
                    (Book.add_record book (Rec.new n))) as [[e' | []] b] eqn:E;
          [| discriminate].
        intros H. injection H as <- _. eapply add_phones_raises, E.
Qed.

Lemma Birthday_new_raises (s : string) (e : exn) :
  Birthday_new s = inl e -> e = ValueError MsgBadDate.
Proof.
  unfold Birthday_new. destruct (Strptime.strptime s) as [e' | d] eqn:E; [| discriminate].
  apply strptime_inl in E. destruct E as [msg ->]. congruence.
Qed.

Lemma add_contact_body_caught (args : list string) :
  raises_only_caught (Body.add_contact args).
Proof.
  intros book e book'. apply add_contact_raises.
Qed.

Lemma change_contact_body_caught (args : list string) :
  raises_only_caught (Body.change_contact args).
Proof.
  intros book e book'. unfold Body.change_contact.
  destruct args as [| n [| phone [| x args]]]; run;
    try (intros H; injection H as <- _; exact I).
  destruct (Dict.get (data book) n); [| intros H; injection H as <- _; exact I].
  destruct (Phone_new phone) as [e' | p] eqn:Ep; [| discriminate].
  apply Phone_new_raises in Ep. subst e'. intros H. injection H as <- _. exact I.
Qed.

Lemma show_contacts_body_caught (args : list string) :
  raises_only_caught (Body.show_contacts args).
Proof.
  intros book e book'. unfold Body.show_contacts.
  destruct args as [| n [| x args]]; run;
    try (intros H; injection H as <- _; exact I).
  destruct (Dict.get (data book) n); [discriminate |].
  intros H; injection H as <- _; exact I.
Qed.

Lemma show_all_contacts_body_caught : raises_only_caught Body.show_all_contacts.
Proof.
  intros book e book'. unfold Body.show_all_contacts. run.
  destruct (data book); discriminate.
Qed.

Lemma add_birthday_body_caught (args : list string) :
  raises_only_caught (Body.add_birthday args).
Proof.
  intros book e book'. unfold Body.add_birthday.
  destruct args as [| n [| b [| x args]]]; run;
    try (intros H; injection H as <- _; exact I).
  destruct (Dict.get (data book) n) as [record |];
    [| intros H; injection H as <- _; exact I].
  unfold Rec.add_birthday.
  destruct (Birthday_new b) as [e' | b'] eqn:Eb; [| discriminate].
  apply Birthday_new_raises in Eb. subst e'. intros H. injection H as <- _. exact I.
Qed.

Lemma show_birthday_body_caught (args : list string) :
  raises_only_caught (Body.show_birthday args).
Proof.
  intros book e book'. unfold Body.show_birthday.
  destruct args as [| n [| x args]]; run;
    try (intros H; injection H as <- _; exact I).
  destruct (Dict.get (data book) n) as [record |];
    [| intros H; injection H as <- _; exact I].
  destruct (Rec.birthday record); discriminate.
Qed.

Lemma all_birthdays_body_caught : raises_only_caught Body.all_birthdays.
Proof.
  intros book e book'. unfold Body.all_birthdays. run.
  destruct (Body.birthdays_list (data book)); discriminate.
Qed.

Lemma decorated_returns_text (func : M message) :
  raises_only_caught func -> returns_text (input_error func).
Proof.
  intros H book. apply input_error_total. intros e book'. apply H.
Qed.

Lemma display_result_continues (func : M message) (book : AddressBook) :
  returns_text func -> exists out book', display_result (func book) = Continue out book'.
Proof.
  intros H. destruct (H book) as [m [book' E]]. rewrite E. cbn. eauto.
Qed.

(** The three ways a turn of the loop can end: the loop goes on; it is
    left, on the command close or exit; an exception escapes, when the line
    has no token. *)
Lemma main_step_outcomes (book : AddressBook) (line : string) :
  match main_step book line with
  | Continue _ _ => Str.split line <> []
  | Break out book' =>
      book' = book
      /\ exists command args,
          parse_input line = inr (command, args)
          /\ (command = "close" \/ command = "exit")
  | Uncaught e =>
      Str.split line = []
      /\ parse_input line = inl e
  end.
Proof.
  unfold main_step, parse_input.
  destruct (Str.split line) as [| cmd args]; [split; reflexivity |].
  set (command := Str.lower (Str.strip cmd)).
  destruct (String.eqb command "close") eqn:E1.
  { cbn [orb]. split; [reflexivity |]. exists command, args. split; [reflexivity |].
    left. now apply String.eqb_eq. }
  destruct (String.eqb command "exit") eqn:E2.
  { cbn [orb]. split; [reflexivity |]. exists command, args. split; [reflexivity |].
    right. now apply String.eqb_eq. }
  cbn [orb].
  repeat match goal with
    | |- context [if ?b then _ else _] => destruct b
    end;
    try discriminate;
    match goal with
    | |- context [display_result (?f ?a book)] =>
        let H := fresh in
        assert (H : exists out book', display_result (f a book) = Continue out book')
          by (apply display_result_continues, decorated_returns_text;
              auto using add_contact_body_caught, change_contact_body_caught,
                show_contacts_body_caught, add_birthday_body_caught,
                show_birthday_body_caught);
        destruct H as [out [book' ->]]; discriminate
    | |- context [display_result (all_birthdays book)] =>
        let H := fresh in
        assert (H : exists out book', display_result (all_birthdays book) = Continue out book')
          by (apply display_result_continues, decorated_returns_text,
                all_birthdays_body_caught);
        destruct H as [out [book' ->]]; discriminate
    end.
Qed.

(** C7: an exception of one of the three kinds raised under the decorator
    is returned as its text, with the book as the call left it; the
    functions under the decorator raise nothing else, so every handler
    returns a text on every argument list and every book; and the only
    exception that leaves a turn of the loop is the one of [parse_input] on
    a line without a token, raised before any handler is called. *)
Theorem input_error_turns_handler_errors_into_messages :
  (forall (func : M message) (book book' : AddressBook) (e : exn),
      func book = (inl e, book') -> caught e ->
      input_error func book = (inr (str_exn e), book'))
  /\ (forall m, caught (ValueError m) /\ caught (KeyError m) /\ caught (IndexError m))
  /\ (forall args,
         raises_only_caught (Body.add_contact args)
         /\ raises_only_caught (Body.change_contact args)
         /\ raises_only_caught (Body.show_contacts args)
         /\ raises_only_caught (Body.add_birthday args)
         /\ raises_only_caught (Body.show_birthday args))
  /\ raises_only_caught Body.show_all_contacts
  /\ raises_only_caught Body.all_birthdays
  /\ (forall args,
         returns_text (add_contact args)
         /\ returns_text (change_contact args)
         /\ returns_text (show_contacts args)
         /\ returns_text (add_birthday args)
         /\ returns_text (show_birthday args))
  /\ returns_text show_all_contacts
  /\ returns_text all_birthdays
  /\ (forall book line e, main_step book line = Uncaught e -> Str.split line = []).
Proof.
  split; [exact input_error_caught |].
  split; [intros m; repeat split |].
  split.
  { intros args.
    auto using add_contact_body_caught, change_contact_body_caught,
      show_contacts_body_caught, add_birthday_body_caught, show_birthday_body_caught. }
  split; [exact show_all_contacts_body_caught |].
  split; [exact all_birthdays_body_caught |].
  split.
  { intros args.
    repeat split; apply decorated_returns_text;
      auto using add_contact_body_caught, change_contact_body_caught,
        show_contacts_body_caught, add_birthday_body_caught, show_birthday_body_caught. }
  split; [apply decorated_returns_text, show_all_contacts_body_caught |].
  split; [apply decorated_returns_text, all_birthdays_body_caught |].
  intros book line e H. pose proof (main_step_outcomes book line) as Ho.
  rewrite H in Ho. apply Ho.
Qed.

(** C8 fails on the code: on a line without a token (the empty line, or
    spaces only) [parse_input] raises [ValueError] outside every handler;
    nothing in [main] catches it, so the loop reads no further line, the
    book is not saved and the process dies. *)
Theorem empty_line_ends_the_session :
  forall (book : AddressBook),
    parse_input "" = inl (ValueError (MsgLibrary
                       "not enough values to unpack (expected at least 1, got 0)"))
    /\ main_step book "" = Uncaught (ValueError (MsgLibrary
                             "not enough values to unpack (expected at least 1, got 0)"))
    /\ main_step book "   " = Uncaught (ValueError (MsgLibrary
                                "not enough values to unpack (expected at least 1, got 0)"))
    /\ forall (blob : Type) (pickle_dump : AddressBook -> blob)
              (rest : list string) (fs : filesystem blob),
        main_loop blob pickle_dump ("" :: rest) book fs
        = ([Prompt], fs,
           Died (ValueError (MsgLibrary
                   "not enough values to unpack (expected at least 1, got 0)"))).
Proof.
  intros book. repeat split.
Qed.

(** ** Persistence *)

Section PickleRoundTrip.

Variable blob : Type.
Variable pickle_dump : AddressBook -> blob.
Variable pickle_load : blob -> result AddressBook.

(** What [pickle] promises: loading what was dumped gives the book back. *)
Hypothesis pickle_round_trip : forall book, pickle_load (pickle_dump book) = inr book.

Lemma read_after_write (fs : filesystem blob) (filename : string) (content : blob) :
  write_file blob fs filename content filename = Some content.
Proof.
  unfold write_file. now rewrite String.eqb_refl.
Qed.

(** C9: loading the file that [save_data] wrote gives the book that was
    saved: the same names in the same order, and for every name the same
    phones in the same order and the same birthday. *)
Theorem load_data_after_save_data
    (book : AddressBook) (filename : string) (fs : filesystem blob) :
  exists book',
    load_data blob pickle_load filename (save_data blob pickle_dump book filename fs)
    = inr book'
    /\ book' = book
    /\ Dict.keys (data book') = Dict.keys (data book)
    /\ forall n,
        option_map Rec.phones (Book.find book' n)
        = option_map Rec.phones (Book.find book n)
        /\ option_map Rec.phone_strings (Book.find book' n)
           = option_map Rec.phone_strings (Book.find book n)
        /\ option_map Rec.birthday (Book.find book' n)
           = option_map Rec.birthday (Book.find book n).
Proof.
  exists book. unfold load_data, open_rb, save_data.
  rewrite read_after_write, pickle_round_trip. repeat split.
Qed.

(** The book a session leaves on [exit] is the book the next session
    starts with. *)
Lemma main_saves_on_exit (book : AddressBook) (fs : filesystem blob) :
  let '(_, fs', t) := main_loop blob pickle_dump ["exit"] book fs in
  t = Exited /\ load_data blob pickle_load default_filename fs' = inr book.
Proof.
  assert (E : main_step book "exit" = Break [Print MsgGoodbye] book) by reflexivity.
  cbn [main_loop]. rewrite E. split; [reflexivity |].
  unfold load_data, open_rb, save_data.
  now rewrite read_after_write, pickle_round_trip.
Qed.

End PickleRoundTrip.

Lemma load_data_after_save_data_witness :
  (forall book : AddressBook, @inr exn AddressBook book = inr book)
  /\ exists book',
      load_data AddressBook (@inr exn AddressBook) default_filename
        (save_data AddressBook (fun b => b) ann_book default_filename (fun _ => None))
      = inr book'
      /\ book' = ann_book
      /\ Dict.keys (data book') = Dict.keys (data ann_book)
      /\ forall n,
          option_map Rec.phones (Book.find book' n)
          = option_map Rec.phones (Book.find ann_book n)
          /\ option_map Rec.phone_strings (Book.find book' n)
             = option_map Rec.phone_strings (Book.find ann_book n)
          /\ option_map Rec.birthday (Book.find book' n)
             = option_map Rec.birthday (Book.find ann_book n).
Proof.
  split; [reflexivity |].
  exact (load_data_after_save_data AddressBook (fun b => b) (@inr exn AddressBook)
           (fun book => eq_refl) ann_book default_filename (fun _ => None)).
Defined.

(** ** Day numbers *)

Section Ordinals.

Import Date.

(** The month and day of every day number of a year, checked one by one. *)
Lemma month_day_table :
  forallb
    (fun leap =>
       forallb
         (fun r =>
            let '(m, d) := _month_day leap r in
            implb (r <? 365 + (if leap then 1 else 0))
              ((1 <=? m) && (m <=? 12) && (1 <=? d)
               && (d <=? (if (m =? 2) && leap then 29 else index _DAYS_IN_MONTH m))
               && (index _DAYS_BEFORE_MONTH m
                   + (if (2 <? m) && leap then 1 else 0) + d =? r + 1)))
         (List.map Z.of_nat (seq 0 366)))
    [true; false] = true.
Proof.
  vm_compute. reflexivity.
Qed.

Lemma month_day_spec (leap : bool) (r : Z) :
  0 <= r < 365 + (if leap then 1 else 0) ->
  let '(m, d) := _month_day leap r in
  1 <= m <= 12
  /\ 1 <= d <= (if (m =? 2) && leap then 29 else index _DAYS_IN_MONTH m)
  /\ index _DAYS_BEFORE_MONTH m + (if (2 <? m) && leap then 1 else 0) + d = r + 1.
Proof.
  intros Hr. pose proof month_day_table as T.
  rewrite forallb_forall in T.
  assert (Hl : In leap [true; false]) by (destruct leap; cbn; auto).
  specialize (T leap Hl). cbv beta in T. rewrite forallb_forall in T.
  assert (Hin : In r (List.map Z.of_nat (seq 0 366))).
  { apply in_map_iff. exists (Z.to_nat r). split; [lia |].
    apply in_seq. destruct leap; lia. }
  specialize (T r Hin). cbv beta in T.
  destruct (_month_day leap r) as [m d].
  assert (Hlt : (r <? 365 + (if leap then 1 else 0)) = true) by (apply Z.ltb_lt; lia).
  rewrite Hlt in T. cbn [implb] in T.
  rewrite !andb_true_iff, !Z.leb_le, Z.eqb_eq in T. lia.
Qed.

(** A year written as 400a + 100b + 4c + e + 1, as [_ord2ymd] builds it. *)
Lemma is_leap_parts (a b c e : Z) :
  0 <= b <= 3 -> 0 <= c <= 24 -> 0 <= e <= 3 ->
  _is_leap (400 * a + 100 * b + 4 * c + e + 1)
  = (e =? 3) && (negb (c =? 24) || (b =? 3)).
Proof.
  intros Hb Hc He. unfold _is_leap.
  set (y := 400 * a + 100 * b + 4 * c + e + 1).
  destruct (Z.eqb_spec (y mod 4) 0), (Z.eqb_spec (y mod 100) 0),
    (Z.eqb_spec (y mod 400) 0), (Z.eqb_spec e 3), (Z.eqb_spec c 24),
    (Z.eqb_spec b 3); cbn [negb andb orb]; try reflexivity;
    exfalso; subst y; Z.div_mod_to_equations; lia.
Qed.

Lemma days_before_year_parts (a b c e : Z) :
  0 <= b <= 3 -> 0 <= c <= 24 -> 0 <= e <= 3 ->
  _days_before_year (400 * a + 100 * b + 4 * c + e + 1)
  = 146097 * a + 36524 * b + 1461 * c + 365 * e.
Proof.
  intros Hb Hc He. unfold _days_before_year. Z.div_mod_to_equations. lia.
Qed.

(** [_ord2ymd n] is a day of the calendar, and its number is [n]. *)
Lemma ord2ymd_spec (n : Z) :
  1 <= n ->
  let '(y, m, d) := _ord2ymd n in
  1 <= y /\ 1 <= m <= 12 /\ 1 <= d <= _days_in_month y m /\ _ymd2ord y m d = n.
Proof.
  intros Hn. unfold _ord2ymd.
  change _DI400Y with 146097. change _DI100Y with 36524. change _DI4Y with 1461.
  set (a := (n - 1) / 146097). set (r400 := (n - 1) mod 146097).
  set (b := r400 / 36524). set (r100 := r400 mod 36524).
  set (c := r100 / 1461). set (r4 := r100 mod 1461).
  set (e := r4 / 365). set (r1 := r4 mod 365).
  assert (H400 : n - 1 = 146097 * a + r400 /\ 0 <= r400 < 146097 /\ 0 <= a)
    by (subst a r400; Z.div_mod_to_equations; lia).
  assert (H100 : r400 = 36524 * b + r100 /\ 0 <= r100 < 36524 /\ 0 <= b <= 4)
    by (subst b r100; Z.div_mod_to_equations; lia).
  assert (H4 : r100 = 1461 * c + r4 /\ 0 <= r4 < 1461 /\ 0 <= c <= 24)
    by (subst c r4; Z.div_mod_to_equations; lia).
  assert (H1 : r4 = 365 * e + r1 /\ 0 <= r1 < 365 /\ 0 <= e <= 4)
    by (subst e r1; Z.div_mod_to_equations; lia).
  clearbody a r400 b r100 c r4 e r1.
  destruct ((e =? 4) || (b =? 4)) eqn:Elast.
  - (* the last day of a leap year *)
    assert (Hy : exists b' c',
               0 <= b' <= 3 /\ 0 <= c' <= 24 /\ (c' <= 23 \/ b' = 3)
               /\ a * 400 + 1 + b * 100 + c * 4 + e - 1
                  = 400 * a + 100 * b' + 4 * c' + 3 + 1
               /\ n = 146097 * a + 36524 * b' + 1461 * c' + 1461).
    { apply orb_true_iff in Elast. rewrite !Z.eqb_eq in Elast.
      destruct (Z.eq_dec b 4) as [-> | Hb4].
      - exists 3, 24. lia.
      - exists b, c. lia. }
    destruct Hy as [b' [c' (Hb' & Hc' & Hbc & -> & ->)]].
    assert (Hleap : _is_leap (400 * a + 100 * b' + 4 * c' + 3 + 1) = true).
    { rewrite is_leap_parts by lia.
      destruct Hbc as [Hbc | ->].
      - replace (c' =? 24) with false by (symmetry; apply Z.eqb_neq; lia).
        reflexivity.
      - cbn [Z.eqb Pos.eqb]. now rewrite orb_true_r. }
    unfold _ymd2ord, _days_in_month, _days_before_month.
    rewrite days_before_year_parts by lia. rewrite Hleap.
    change (12 =? 2) with false. change (2 <? 12) with true. cbn [andb].
    change (index _DAYS_IN_MONTH 12) with 31.
    change (index _DAYS_BEFORE_MONTH 12) with 334. lia.
  - apply orb_false_iff in Elast. rewrite !Z.eqb_neq in Elast.
    set (leapyear := (e =? 3) && (negb (c =? 24) || (b =? 3))).
    assert (Hr : 0 <= r1 < 365 + (if leapyear then 1 else 0)).
    { destruct leapyear; lia. }
    pose proof (month_day_spec leapyear r1 Hr) as Hmd.
    destruct (_month_day leapyear r1) as [m d].
    destruct Hmd as (Hm & Hd & Hsum).
    replace (a * 400 + 1 + b * 100 + c * 4 + e)
      with (400 * a + 100 * b + 4 * c + e + 1) by lia.
    assert (Hleap : _is_leap (400 * a + 100 * b + 4 * c + e + 1) = leapyear)
      by (apply is_leap_parts; lia).
    unfold _ymd2ord, _days_in_month, _days_before_month.
    rewrite days_before_year_parts by lia. rewrite Hleap.
    repeat split; lia.
Qed.

Lemma toordinal_fromordinal (n : Z) : 1 <= n -> toordinal (fromordinal n) = n.
Proof.
  intros Hn. pose proof (ord2ymd_spec n Hn) as H. unfold fromordinal, toordinal.
  destruct (_ord2ymd n) as [[y m] d]. cbn [year month day]. apply H.
Qed.

Lemma days_before_year_late (y : Z) : 10000 <= y -> _MAXORDINAL <= _days_before_year y.
Proof.
  intros Hy. unfold _days_before_year, _MAXORDINAL. Z.div_mod_to_equations. lia.
Qed.

Lemma days_before_month_bounds (y m : Z) :
  1 <= m <= 12 ->
  0 <= _days_before_month y m
  /\ _days_before_month y m + _days_in_month y m
     <= 365 + (if _is_leap y then 1 else 0).
Proof.
  intros Hm. unfold _days_before_month, _days_in_month.
  assert (C : m = 1 \/ m = 2 \/ m = 3 \/ m = 4 \/ m = 5 \/ m = 6 \/ m = 7
              \/ m = 8 \/ m = 9 \/ m = 10 \/ m = 11 \/ m = 12) by lia.
  repeat (destruct C as [-> | C]; [destruct (_is_leap y); vm_compute; split; congruence |]).
  subst m. destruct (_is_leap y); vm_compute; split; congruence.
Qed.

Lemma fromordinal_well_formed (n : Z) :
  1 <= n <= _MAXORDINAL -> well_formed (fromordinal n).
Proof.
  intros Hn. assert (H1 : 1 <= n) by lia.
  pose proof (ord2ymd_spec n H1) as H. unfold fromordinal, well_formed.
  destruct (_ord2ymd n) as [[y m] d]. cbn [year month day].
  destruct H as (Hy & Hm & Hd & Hn').
  assert (Hy' : y <= 9999).
  { destruct (Z_le_gt_dec y 9999) as [| Hgt]; [assumption | exfalso].
    assert (Hl : 10000 <= y) by lia. apply days_before_year_late in Hl.
    pose proof (days_before_month_bounds y m Hm) as Hb.
    unfold _ymd2ord in Hn'. lia. }
  unfold valid, MINYEAR, MAXYEAR. rewrite !andb_true_iff, !Z.leb_le. lia.
Qed.

Lemma well_formed_bounds (d : date) :
  well_formed d ->
  1 <= year d <= 9999 /\ 1 <= month d <= 12 /\ 1 <= day d <= _days_in_month (year d) (month d).
Proof.
  unfold well_formed, valid, MINYEAR, MAXYEAR.
  rewrite !andb_true_iff, !Z.leb_le. lia.
Qed.

Lemma days_before_year_step (y : Z) :
  _days_before_year (y + 1) = _days_before_year y + 365 + (if _is_leap y then 1 else 0).
Proof.
  unfold _days_before_year, _is_leap.
  destruct (Z.eqb_spec (y mod 4) 0), (Z.eqb_spec (y mod 100) 0),
    (Z.eqb_spec (y mod 400) 0); cbn [negb andb orb];
    Z.div_mod_to_equations; lia.
Qed.

Lemma days_before_year_bounds (y : Z) :
  1 <= y <= 9999 ->
  0 <= _days_before_year y
  /\ _days_before_year y + 365 + (if _is_leap y then 1 else 0) <= _MAXORDINAL.
Proof.
  intros Hy. rewrite <- days_before_year_step. unfold _days_before_year, _MAXORDINAL.
  Z.div_mod_to_equations. lia.
Qed.

(** The day number of a date of the calendar is between 1 and the last. *)
Lemma toordinal_bounds (d : date) :
  well_formed d -> 1 <= toordinal d <= _MAXORDINAL.
Proof.
  intros H. apply well_formed_bounds in H. destruct H as (Hy & Hm & Hd).
  pose proof (days_before_year_bounds _ Hy).
  pose proof (days_before_month_bounds (year d) _ Hm).
  unfold toordinal, _ymd2ord. lia.
Qed.

(** Adding days to a date, within the calendar, adds them to its day number
    and to its weekday, modulo seven. *)
Lemma add_days_spec (d : date) (k : Z) :
  1 <= toordinal d + k <= _MAXORDINAL ->
  exists d',
    add_days d k = inr d'
    /\ well_formed d'
    /\ toordinal d' = toordinal d + k
    /\ weekday d' = (weekday d + k) mod 7.
Proof.
  intros Hk. exists (fromordinal (toordinal d + k)). unfold add_days.
  replace ((0 <? toordinal d + k) && (toordinal d + k <=? _MAXORDINAL)) with true
    by (symmetry; apply andb_true_iff; rewrite Z.ltb_lt, Z.leb_le; lia).
  split; [reflexivity |]. split; [now apply fromordinal_well_formed |].
  assert (E : toordinal (fromordinal (toordinal d + k)) = toordinal d + k)
    by (apply toordinal_fromordinal; lia).
  split; [exact E |]. unfold weekday. rewrite E.
  Z.div_mod_to_equations. lia.
Qed.

Lemma weekday_range (d : date) : 0 <= weekday d <= 6.
Proof.
  unfold weekday. Z.div_mod_to_equations. lia.
Qed.

(** The weekday loop: it stops after [(weekday - d.weekday()) mod 7]
    additions, at most six, on the first day from [d] on that falls on the
    weekday asked for. *)
Lemma advance_spec (fuel : nat) (weekday : Z) :
  forall (d : date) (steps : nat),
    0 <= weekday <= 6 ->
    well_formed d ->
    toordinal d + (weekday - Date.weekday d) mod 7 <= _MAXORDINAL ->
    (Z.to_nat ((weekday - Date.weekday d) mod 7) <= fuel)%nat ->
    exists d',
      Book.advance fuel weekday d steps
      = Some (inr (d', (steps + Z.to_nat ((weekday - Date.weekday d) mod 7))%nat))
      /\ well_formed d'
      /\ Date.weekday d' = weekday
      /\ toordinal d' = toordinal d + (weekday - Date.weekday d) mod 7.
Proof.
  induction fuel as [| fuel IH]; intros d steps Hw Hd Hmax Hfuel;
    pose proof (weekday_range d) as Hwd;
    pose proof (toordinal_bounds d Hd) as Hod;
    cbn [Book.advance]; destruct (Z.eqb_spec (Date.weekday d) weekday) as [E | E].
  - exists d. rewrite E, Z.sub_diag. cbn. rewrite Nat.add_0_r. repeat split; trivial. lia.
  - exfalso. revert Hfuel. Z.div_mod_to_equations. lia.
  - exists d. rewrite E, Z.sub_diag. cbn. rewrite Nat.add_0_r. repeat split; trivial. lia.
  - assert (Hk : 1 <= (weekday - Date.weekday d) mod 7 <= 6)
      by (Z.div_mod_to_equations; lia).
    destruct (add_days_spec d 1) as [d1 (Hadd & Hd1 & Ho1 & Hw1)]; [lia |].
    rewrite Hadd.
    assert (Hk1 : (weekday - Date.weekday d1) mod 7 = (weekday - Date.weekday d) mod 7 - 1).
    { rewrite Hw1. Z.div_mod_to_equations. lia. }
    destruct (IH d1 (S steps) Hw Hd1) as [d' (Hadv & Hd' & Hw' & Ho')].
    { rewrite Hk1, Ho1. lia. }
    { rewrite Hk1. lia. }
    exists d'. rewrite Hadv. rewrite Hk1 in *. repeat split; trivial.
    + do 3 f_equal. lia.
    + lia.
Qed.

(** X20: with a weekday from 0 to 6, on a date of the calendar at least
    six days before the last one, the weekday loop makes at most six
    additions, that is at most seven tests, and stops on a day of that
    weekday, the date itself or one of the six days after it. *)
Lemma advance_within_seven (weekday : Z) (d : date) :
  0 <= weekday <= 6 -> well_formed d -> toordinal d + 6 <= _MAXORDINAL ->
  exists d' steps,
    Book.advance 6 weekday d 0 = Some (inr (d', steps))
    /\ (steps <= 6)%nat
    /\ Date.weekday d' = weekday
    /\ toordinal d <= toordinal d' <= toordinal d + 6.
Proof.
  intros Hw Hd Hmax.
  assert (Hk : 0 <= (weekday - Date.weekday d) mod 7 <= 6)
    by (Z.div_mod_to_equations; lia).
  destruct (advance_spec 6 weekday d 0 Hw Hd) as [d' (Hadv & _ & Hw' & Ho')];
    [lia | lia |].
  exists d', (Z.to_nat ((weekday - Date.weekday d) mod 7)).
  rewrite Hadv. repeat split; trivial; lia.
Qed.

(** X25: a Saturday or a Sunday moves to the Monday that follows, two
    days or one day later; another day stays. *)
Lemma skip_weekend_spec (d : date) :
  well_formed d -> toordinal d + 2 <= _MAXORDINAL ->
  exists d',
    Book.skip_weekend d = inr d'
    /\ (Date.weekday d < 5 -> d' = d)
    /\ (5 <= Date.weekday d ->
        Date.weekday d' = 0
        /\ toordinal d' = toordinal d + (7 - Date.weekday d)
        /\ 1 <= 7 - Date.weekday d <= 2).
Proof.
  intros Hd Hmax. pose proof (weekday_range d) as Hwd.
  pose proof (toordinal_bounds d Hd) as Hod. unfold Book.skip_weekend.
  destruct (Z.leb_spec 5 (Date.weekday d)) as [H5 | H5].
  - destruct (add_days_spec d (7 - Date.weekday d)) as [d' (Hadd & _ & Ho & Hw)];
      [lia |].
    exists d'. split; [exact Hadd |]. split; [lia |]. intros _.
    split; [| split; [exact Ho | lia]].
    rewrite Hw. replace (Date.weekday d + (7 - Date.weekday d)) with 7 by lia.
    reflexivity.
  - exists d. split; [reflexivity |]. split; [reflexivity | lia].
Qed.

End Ordinals.

(** A birthday on the 29th of February, were it held as a date: in a year
    that is not leap [replace(year=...)] and [datetime(...)] raise
    [ValueError], and so do both queries. *)
Example leap_day_birthday_raises :
  Book.get_upcoming_birthday (Date.mkDate 2025 1 30)
    (mkBook [("Ann", Rec.mkRecord (mkName "Ann") []
                       (Some (mkBirthday (VDate (Date.mkDate 1992 2 29)))))]) 7
  = inl (ValueError (MsgLibrary "day is out of range for month"))
  /\ Book.find_next_birthday 7 (Date.mkDate 2025 1 30)
       (mkBook [("Ann", Rec.mkRecord (mkName "Ann") []
                          (Some (mkBirthday (VDate (Date.mkDate 1992 2 29)))))]) 0
     = Some (inl (ValueError (MsgLibrary "day is out of range for month"))).
Proof.
  split; reflexivity.
Qed.

(** ** The birthday queries *)

Lemma set_preserves (Q : Rec.Record_ -> Prop) (d : Dict.dict Rec.Record_)
    (k : string) (v : Rec.Record_) :
  Forall (fun item => Q (snd item)) d -> Q v ->
  Forall (fun item => Q (snd item)) (Dict.set d k v).
Proof.
  intros Hd Hv. induction d as [| [k' v'] d IH]; cbn [Dict.set].
  - now repeat constructor.
  - inversion Hd; subst. destruct (String.eqb k' k); constructor; auto.
Qed.

Lemma get_satisfies (Q : Rec.Record_ -> Prop) (d : Dict.dict Rec.Record_)
    (k : string) (v : Rec.Record_) :
  Forall (fun item => Q (snd item)) d -> Dict.get d k = Some v -> Q v.
Proof.
  intros Hd. induction d as [| [k' v'] d IH]; cbn [Dict.get]; [discriminate |].
  inversion Hd; subst. destruct (String.eqb k' k); auto.
  intros H. injection H as <-. assumption.
Qed.

Lemma add_phones_preserves (n : string) (phones : list string) :
  forall record book,
    string_birthday record -> birthdays_are_strings book ->
    birthdays_are_strings (snd (Body.add_phones n record phones book)).
Proof.
  unfold birthdays_are_strings.
  induction phones as [| phone phones IH]; intros record book Hr Hb;
    cbn [Body.add_phones]; unfold Rec.add_phone; run; [exact Hb |].
  destruct (Phone_new phone) as [e | p]; [exact Hb |].
  apply IH; [exact Hr |]. cbn [data]. now apply set_preserves.
Qed.

Lemma Birthday_new_string (s : string) (b : Birthday) :
  Birthday_new s = inr b -> exists s', Birthday_value b = VStr s'.
Proof.
  intros H. apply Birthday_new_inr in H. destruct H as [-> _]. now exists s.
Qed.

(** Whatever a handler does to the book, a birthday it leaves holds a
    string. *)
Lemma handlers_preserve_string_birthdays (book : AddressBook) (args : list string) :
  birthdays_are_strings book ->
  birthdays_are_strings (snd (add_contact args book))
  /\ birthdays_are_strings (snd (change_contact args book))
  /\ birthdays_are_strings (snd (show_contacts args book))
  /\ birthdays_are_strings (snd (add_birthday args book))
  /\ birthdays_are_strings (snd (show_birthday args book))
  /\ birthdays_are_strings (snd (all_birthdays book)).
Proof.
  intros Hb.
  assert (Hie : forall func,
             birthdays_are_strings (snd (func book)) ->
             birthdays_are_strings (snd (input_error func book))).
  { intros func H. unfold input_error.
    destruct (func book) as [[[] | m] b]; exact H. }
  repeat split; apply Hie.
  - unfold Body.add_contact.
    destruct (Z.of_nat (length args) <? 2); [exact Hb |].
    destruct args as [| n phones]; [exact Hb |]. run.
    destruct (Book.find book n) as [record |] eqn:Hf.
    + pose proof (add_phones_preserves n phones record book) as H.
      destruct (Body.add_phones n record phones book) as [[e | []] b];
        apply H; trivial; exact (get_satisfies _ _ _ _ Hb Hf).
    + pose proof (add_phones_preserves n phones (Rec.new n)
                    (Book.add_record book (Rec.new n))) as H.
      destruct (Body.add_phones n (Rec.new n) phones
                  (Book.add_record book (Rec.new n))) as [[e | []] b];
        apply H; try exact I; apply set_preserves; trivial; exact I.
  - unfold Body.change_contact.
    destruct args as [| n [| phone [| x args]]]; run; try exact Hb.
    destruct (Dict.get (data book) n) as [record |] eqn:Hf; [| exact Hb].
    destruct (Phone_new phone); [exact Hb |].
    cbn [snd]. apply set_preserves; trivial. exact (get_satisfies _ _ _ _ Hb Hf).
  - unfold Body.show_contacts.
    destruct args as [| n [| x args]]; run; try exact Hb.
    destruct (Dict.get (data book) n); exact Hb.
  - unfold Body.add_birthday.
    destruct args as [| n [| b [| x args]]]; run; try exact Hb.
    destruct (Dict.get (data book) n) as [record |] eqn:Hf; [| exact Hb].
    unfold Rec.add_birthday.
    destruct (Birthday_new b) as [e | b'] eqn:Eb; [exact Hb |].
    cbn [snd]. apply set_preserves; trivial.
    unfold string_birthday. cbn [Rec.birthday]. eapply Birthday_new_string, Eb.
  - unfold Body.show_birthday.
    destruct args as [| n [| x args]]; run; try exact Hb.
    destruct (Dict.get (data book) n) as [record |]; [| exact Hb].
    destruct (Rec.birthday record); exact Hb.
  - unfold Body.all_birthdays. run.
    destruct (Body.birthdays_list (data book)); exact Hb.
Qed.

Lemma display_result_book (r : result message * AddressBook)
    (out : list output) (book' : AddressBook) :
  display_result r = Continue out book' -> book' = snd r.
Proof.
  destruct r as [[e | m] b]; cbn; [discriminate |].
  intros H. now injection H as _ <-.
Qed.

Lemma main_step_preserves (book book' : AddressBook) (line : string) (out : list output) :
  birthdays_are_strings book ->
  main_step book line = Continue out book' ->
  birthdays_are_strings book'.
Proof.
  intros Hb. unfold main_step.
  destruct (parse_input line) as [e | [command args]]; [discriminate |].
  destruct (handlers_preserve_string_birthdays book args Hb)
    as (H1 & H2 & H3 & H4 & H5 & H6).
  repeat match goal with
    | |- context [if ?b then _ else _] => destruct b
    end;
    intros H; try discriminate H;
    try (apply display_result_book in H; subst book'; assumption);
    injection H as _ <-; exact Hb.
Qed.

(** In every book of a session, the birthdays hold strings. *)
Lemma reachable_birthdays_are_strings (book : AddressBook) :
  reachable book -> birthdays_are_strings book.
Proof.
  induction 1 as [| book book' line out _ IH Hstep].
  - constructor.
  - eapply main_step_preserves; eassumption.
Qed.

(** On such a book [get_upcoming_birthday] stops, at the first record with
    a birthday, on the [TypeError] of [str.replace]. *)
Lemma get_upcoming_birthday_raises
    (today : Date.date) (days : Z) (book : AddressBook) :
  birthdays_are_strings book -> has_birthday book ->
  Book.get_upcoming_birthday today book days
  = inl (TypeError (MsgLibrary "str.replace() takes no keyword arguments")).
Proof.
  unfold birthdays_are_strings, has_birthday, Book.get_upcoming_birthday.
  generalize (@nil (string * string)) as upcoming.
  induction (data book) as [| [n record] items IH]; intros upcoming Hs He.
  - inversion He.
  - inversion Hs as [| ? ? Hr Hs']; subst. cbn [Book.get_upcoming_birthday_loop].
    unfold string_birthday in Hr. cbn [snd] in Hr.
    destruct (Rec.birthday record) as [b |] eqn:Eb.
    + destruct Hr as [s ->]. reflexivity.
    + apply IH; trivial. inversion He as [? ? H | ? ? H]; subst; trivial.
      cbn [snd] in H. congruence.
Qed.

(** And [find_next_birthday] on the [AttributeError] of [value.month],
    before any weekday loop is entered. *)
Lemma find_next_birthday_raises
    (fuel : nat) (today : Date.date) (weekday : Z) (book : AddressBook) :
  birthdays_are_strings book -> has_birthday book ->
  Book.find_next_birthday fuel today book weekday
  = Some (inl (AttributeError (MsgLibrary "'str' object has no attribute 'month'"))).
Proof.
  unfold birthdays_are_strings, has_birthday, Book.find_next_birthday.
  generalize (@None Date.date) as next_birthday.
  induction (data book) as [| [n record] items IH]; intros next_birthday Hs He.
  - inversion He.
  - inversion Hs as [| ? ? Hr Hs']; subst. cbn [Book.find_next_birthday_loop].
    unfold string_birthday in Hr. cbn [snd] in Hr.
    destruct (Rec.birthday record) as [b |] eqn:Eb.
    + destruct Hr as [s ->]. reflexivity.
    + apply IH; trivial. inversion He as [? ? H | ? ? H]; subst; trivial.
      cbn [snd] in H. congruence.
Qed.

(** Without any birthday both queries return: the empty list, and nothing. *)
Lemma queries_without_birthdays
    (fuel : nat) (today : Date.date) (weekday days : Z) (book : AddressBook) :
  ~ has_birthday book ->
  Book.get_upcoming_birthday today book days = inr []
  /\ Book.find_next_birthday fuel today book weekday = Some (inr None).
Proof.
  unfold has_birthday, Book.get_upcoming_birthday, Book.find_next_birthday.
  induction (data book) as [| [n record] items IH]; intros Hn; [split; reflexivity |].
  cbn [Book.get_upcoming_birthday_loop Book.find_next_birthday_loop].
  destruct (Rec.birthday record) as [b |] eqn:Eb.
  - exfalso. apply Hn. left. cbn [snd]. congruence.
  - apply IH. intros H. apply Hn. now right.
Qed.

Lemma ann_book_reachable : reachable ann_book.
Proof.
  eapply reachable_step with (line := "add-birthday Ann 01.01.1990");
    [eapply reachable_step with (line := "add Ann 0123456789");
     [apply reachable_empty | reflexivity]
    | reflexivity].
Qed.

(** C2 fails on the code: in the book a session leaves after a contact was
    given a birthday, the birthday holds the string typed, and
    [get_upcoming_birthday] raises [TypeError] on [value.replace(year=...)];
    it returns no pair ([get_upcoming_birthday_raises] has it for every
    book of a session).  With the date in place of the string the same call
    returns the pair the claim describes; the move of a weekend day to the
    Monday after is [skip_weekend_spec]. *)
Theorem get_upcoming_birthday_raises_on_session_book :
  reachable ann_book
  /\ Book.find ann_book "Ann"
     = Some (Rec.mkRecord (mkName "Ann") [phone_of "0123456789"]
               (Some (mkBirthday (VStr "01.01.1990"))))
  /\ Book.get_upcoming_birthday (Date.mkDate 2024 12 30) ann_book 7
     = inl (TypeError (MsgLibrary "str.replace() takes no keyword arguments"))
  /\ Book.get_upcoming_birthday (Date.mkDate 2024 12 30) ann_book_with_date 7
     = inr [("Ann", "2025.01.01")].
Proof.
  split; [exact ann_book_reachable |]. repeat split.
Qed.

(** C10 fails on the code: on the same book [find_next_birthday] raises
    [AttributeError] on [value.month], whatever the weekday asked for and
    before the weekday loop; it returns no date ([find_next_birthday_raises]
    has it for every book of a session).  With the date in place of the
    string the call for a Monday returns 2025-01-06, the loop having added
    five days; that the loop makes at most six additions is
    [advance_within_seven]. *)
Theorem find_next_birthday_raises_on_session_book :
  (forall (fuel : nat) (weekday : Z),
      Book.find_next_birthday fuel (Date.mkDate 2024 12 30) ann_book weekday
      = Some (inl (AttributeError
                     (MsgLibrary "'str' object has no attribute 'month'"))))
  /\ Book.find_next_birthday 7 (Date.mkDate 2024 12 30) ann_book_with_date 0
     = Some (inr (Some (Date.mkDate 2025 1 6)))
  /\ Book.advance 7 0 (Date.mkDate 2025 1 1) 0
     = Some (inr (Date.mkDate 2025 1 6, 5%nat)).
Proof.
  split; [| split; reflexivity].
  intros fuel weekday. reflexivity.
Qed.

(** * Further properties *)

(** ** Record: the phone list *)

Lemma has_value_iff (phone : string) (p : Phone) :
  Rec.has_value phone p = true <-> p = phone_of phone.
Proof.
  unfold Rec.has_value, Phone_value, phone_of. destruct p as [[v |]]; cbn.
  - rewrite String.eqb_eq. split; congruence.
  - split; discriminate.
Qed.

Lemma has_value_false (phone : string) (p : Phone) :
  Rec.has_value phone p = false <-> p <> phone_of phone.
Proof.
  rewrite <- has_value_iff. destruct (Rec.has_value phone p); split; congruence.
Qed.

Lemma remove_first_absent (phone : string) (ps : list Phone) :
  ~ In (phone_of phone) ps -> Rec.remove_first phone ps = ps.
Proof.
  induction ps as [| p ps IH]; intros Hn; cbn [Rec.remove_first]; [reflexivity |].
  destruct (Rec.has_value phone p) eqn:E.
  - apply has_value_iff in E. subst p. exfalso. apply Hn. now left.
  - rewrite IH; [reflexivity |]. intros H. apply Hn. now right.
Qed.

Lemma remove_first_split (phone : string) (before after : list Phone) :
  ~ In (phone_of phone) before ->
  Rec.remove_first phone (before ++ phone_of phone :: after) = (before ++ after)%list.
Proof.
  induction before as [| p before IH]; intros Hn; cbn [Rec.remove_first app].
  - replace (Rec.has_value phone (phone_of phone)) with true
      by (symmetry; now apply has_value_iff).
    reflexivity.
  - destruct (Rec.has_value phone p) eqn:E.
    + apply has_value_iff in E. subst p. exfalso. apply Hn. now left.
    + rewrite IH; [reflexivity |]. intros H. apply Hn. now right.
Qed.

(** X1: [remove_phone] takes out the first phone of the given value and no
    other, keeping the order of the rest, the name and the birthday; when
    no phone has that value the record is as before, and nothing is
    raised. *)
Theorem remove_phone_takes_out_the_first_match (self : Rec.Record_) (phone : string) :
  Rec.name (Rec.remove_phone self phone) = Rec.name self
  /\ Rec.birthday (Rec.remove_phone self phone) = Rec.birthday self
  /\ (~ In (phone_of phone) (Rec.phones self) -> Rec.remove_phone self phone = self)
  /\ (forall before after,
         Rec.phones self = (before ++ phone_of phone :: after)%list ->
         ~ In (phone_of phone) before ->
         Rec.phones (Rec.remove_phone self phone) = (before ++ after)%list).
Proof.
  destruct self as [n ps b]. unfold Rec.remove_phone. cbn [Rec.name Rec.phones Rec.birthday].
  split; [reflexivity |]. split; [reflexivity |]. split.
  - intros Hn. now rewrite remove_first_absent.
  - intros before after -> Hn. now apply remove_first_split.
Qed.

Lemma edit_first_absent (old_phone new_phone : string) (ps : list Phone) :
  ~ In (phone_of old_phone) ps -> Rec.edit_first old_phone new_phone ps = inr ps.
Proof.
  induction ps as [| p ps IH]; intros Hn; cbn [Rec.edit_first]; [reflexivity |].
  destruct (Rec.has_value old_phone p) eqn:E.
  - apply has_value_iff in E. subst p. exfalso. apply Hn. now left.
  - rewrite IH; [reflexivity |]. intros H. apply Hn. now right.
Qed.

Lemma Phone_set_value_eq (p : Phone) (v : string) : Phone_set_value p v = Phone_new v.
Proof.
  reflexivity.
Qed.

Lemma edit_first_split (old_phone new_phone : string) (before after : list Phone) :
  ~ In (phone_of old_phone) before ->
  Rec.edit_first old_phone new_phone (before ++ phone_of old_phone :: after)
  = match Phone_new new_phone with
    | inl e => inl e
    | inr p => inr (before ++ p :: after)%list
    end.
Proof.
  induction before as [| p before IH]; intros Hn; cbn [Rec.edit_first app].
  - replace (Rec.has_value old_phone (phone_of old_phone)) with true
      by (symmetry; now apply has_value_iff).
    rewrite Phone_set_value_eq. destruct (Phone_new new_phone); reflexivity.
  - destruct (Rec.has_value old_phone p) eqn:E.
    + apply has_value_iff in E. subst p. exfalso. apply Hn. now left.
    + rewrite IH by (intros H; apply Hn; now right).
      destruct (Phone_new new_phone); reflexivity.
Qed.

(** X2: [edit_phone] gives the first phone of the value [old_phone] the new
    value, in place, when the new value is accepted, and raises the
    [ValueError] of the format, changing nothing, when it is not; when no
    phone has the old value the record is returned as it is, and the new
    value is not even looked at. *)
Theorem edit_phone_replaces_the_first_match
    (self : Rec.Record_) (old_phone new_phone : string) :
  (~ In (phone_of old_phone) (Rec.phones self) ->
   Rec.edit_phone self old_phone new_phone = inr self)
  /\ (forall before after,
         Rec.phones self = (before ++ phone_of old_phone :: after)%list ->
         ~ In (phone_of old_phone) before ->
         (accepted_phone new_phone ->
          Rec.edit_phone self old_phone new_phone
          = inr (Rec.mkRecord (Rec.name self)
                   (before ++ phone_of new_phone :: after) (Rec.birthday self)))
         /\ (~ accepted_phone new_phone ->
             Rec.edit_phone self old_phone new_phone = inl (ValueError MsgBadPhone))).
Proof.
  destruct self as [n ps b]. unfold Rec.edit_phone. cbn [Rec.name Rec.phones Rec.birthday].
  split.
  - intros Hn. now rewrite edit_first_absent.
  - intros before after -> Hn. rewrite edit_first_split by assumption. split.
    + intros Hacc. now rewrite (Phone_new_accepted _ Hacc).
    + intros Hrej. destruct (Phone_new new_phone) as [e | p] eqn:E.
      * apply Phone_new_raises in E. now subst e.
      * exfalso. apply Hrej. now exists p.
Qed.

Lemma find_phone_in_spec (phone : string) (ps : list Phone) :
  (In (phone_of phone) ps -> Rec.find_phone_in phone ps = Some phone)
  /\ (~ In (phone_of phone) ps -> Rec.find_phone_in phone ps = None).
Proof.
  induction ps as [| p ps [IH1 IH2]]; cbn [Rec.find_phone_in].
  - split; [intros [] | reflexivity].
  - destruct (Rec.has_value phone p) eqn:E.
    + apply has_value_iff in E. subst p. split; [reflexivity |].
      intros Hn. exfalso. apply Hn. now left.
    + apply has_value_false in E. split.
      * intros [H | H]; [congruence | now apply IH1].
      * intros Hn. apply IH2. intros H. apply Hn. now right.
Qed.

(** X3: [find_phone] returns the value asked for exactly when the record
    has a phone of that value, and [None] otherwise. *)
Theorem find_phone_finds_what_the_record_has (self : Rec.Record_) (phone : string) :
  (In (phone_of phone) (Rec.phones self) <-> Rec.find_phone self phone = Some phone)
  /\ (~ In (phone_of phone) (Rec.phones self) <-> Rec.find_phone self phone = None).
Proof.
  unfold Rec.find_phone.
  destruct (find_phone_in_spec phone (Rec.phones self)) as [H1 H2].
  destruct (in_dec (fun a b : Phone =>
              ltac:(decide equality; decide equality; apply string_dec))
              (phone_of phone) (Rec.phones self)) as [Hin | Hn].
  - split; split.
    + intros _. now apply H1.
    + intros _. exact Hin.
    + intros Hn. contradiction.
    + intros E. rewrite (H1 Hin) in E. discriminate.
  - split; split.
    + intros Hin. contradiction.
    + intros E. rewrite (H2 Hn) in E. discriminate.
    + intros _. now apply H2.
    + intros _. exact Hn.
Qed.

(** X4: a phone that was added is found; it is the last of the list; and
    removing it, when the record had no phone of that value before, gives
    the record back. *)
Theorem add_phone_then_find_and_remove (self : Rec.Record_) (phone : string) :
  accepted_phone phone ->
  exists self',
    Rec.add_phone self phone = inr self'
    /\ Rec.phone_strings self' = (Rec.phone_strings self ++ [phone])%list
    /\ Rec.find_phone self' phone = Some phone
    /\ (~ In (phone_of phone) (Rec.phones self) -> Rec.remove_phone self' phone = self).
Proof.
  intros Hacc. unfold Rec.add_phone. rewrite (Phone_new_accepted _ Hacc).
  eexists. split; [reflexivity |]. destruct self as [n ps b].
  cbn [Rec.name Rec.phones Rec.birthday]. split; [| split].
  - unfold Rec.phone_strings. cbn [Rec.phones]. now rewrite List.map_app.
  - unfold Rec.find_phone. cbn [Rec.phones]. apply find_phone_in_spec.
    apply in_or_app. right. now left.
  - intros Hn. unfold Rec.remove_phone. cbn [Rec.name Rec.phones Rec.birthday].
    rewrite remove_first_split by assumption. now rewrite app_nil_r.
Qed.

Lemma add_phone_then_find_and_remove_witness :
  accepted_phone "0123456789"
  /\ exists self',
      Rec.add_phone (Rec.new "Ann") "0123456789" = inr self'
      /\ Rec.phone_strings self'
         = (Rec.phone_strings (Rec.new "Ann") ++ ["0123456789"])%list
      /\ Rec.find_phone self' "0123456789" = Some "0123456789"
      /\ (~ In (phone_of "0123456789") (Rec.phones (Rec.new "Ann")) ->
          Rec.remove_phone self' "0123456789" = Rec.new "Ann").
Proof.
  split; [apply accepted_0123456789 |].
  exact (add_phone_then_find_and_remove (Rec.new "Ann") "0123456789" accepted_0123456789).
Defined.

(** ** AddressBook: add_record, find, delete *)

Section MoreDictFacts.

Context {V : Type}.
Implicit Types (d : Dict.dict V) (k : string) (v : V).

Lemma get_None_iff d k : Dict.get d k = None <-> ~ In k (Dict.keys d).
Proof.
  unfold Dict.keys. induction d as [| [k' v'] d IH]; cbn [Dict.get List.map fst In].
  - tauto.
  - destruct (String.eqb_spec k' k) as [-> | Hne].
    + split; [discriminate | intros H; exfalso; apply H; now left].
    + rewrite IH. tauto.
Qed.

Lemma get_In d k v : Dict.get d k = Some v -> In (k, v) d.
Proof.
  induction d as [| [k' v'] d IH]; cbn [Dict.get]; [discriminate |].
  destruct (String.eqb_spec k' k) as [-> | Hne].
  - intros H. injection H as ->. now left.
  - intros H. right. now apply IH.
Qed.

Lemma set_distinct d k v : distinct_keys d -> distinct_keys (Dict.set d k v).
Proof.
  unfold distinct_keys. intros Hd.
  destruct (Dict.get d k) as [v0 |] eqn:E.
  - now rewrite (keys_set_present d k v v0 E).
  - rewrite (keys_set_absent d k v E). apply NoDup_app; trivial.
    + repeat constructor. intros [].
    + intros x Hx [<- | []]. now apply get_None_iff in E.
Qed.

Lemma set_items (P : string * V -> Prop) d k v :
  Forall P d -> P (k, v) -> Forall P (Dict.set d k v).
Proof.
  intros Hd Hv. induction d as [| [k' v'] d IH]; cbn [Dict.set].
  - now repeat constructor.
  - inversion Hd; subst. destruct (String.eqb_spec k' k) as [-> | Hne];
      constructor; auto.
Qed.

Lemma keys_del d k :
  distinct_keys d -> Dict.keys (Dict.del d k) = List.remove string_dec k (Dict.keys d).
Proof.
  unfold distinct_keys, Dict.keys.
  induction d as [| [k' v'] d IH]; intros Hd; cbn [Dict.del List.map fst List.remove];
    [reflexivity |].
  inversion Hd as [| ? ? Hnot Hd']; subst.
  destruct (String.eqb_spec k' k) as [-> | Hne].
  - destruct (string_dec k k) as [_ | C]; [| congruence].
    symmetry. now apply notin_remove.
  - destruct (string_dec k k') as [C | _]; [congruence |].
    cbn [List.map fst]. now rewrite IH.
Qed.

Lemma get_del_same d k : distinct_keys d -> Dict.get (Dict.del d k) k = None.
Proof.
  intros Hd. apply get_None_iff. rewrite keys_del by assumption. apply remove_In.
Qed.

Lemma get_del_other d k k' : k' <> k -> Dict.get (Dict.del d k) k' = Dict.get d k'.
Proof.
  intros Hne. induction d as [| [k0 v0] d IH]; cbn [Dict.del Dict.get]; [reflexivity |].
  destruct (String.eqb_spec k0 k) as [-> | Hk].
  - destruct (String.eqb_spec k k') as [-> | _]; [congruence | reflexivity].
  - cbn [Dict.get]. now rewrite IH.
Qed.

Lemma del_distinct d k : distinct_keys d -> distinct_keys (Dict.del d k).
Proof.
  intros Hd. unfold distinct_keys. rewrite keys_del by assumption.
  clear -Hd. unfold distinct_keys in Hd.
  induction (Dict.keys d) as [| x l IH]; cbn [List.remove]; [constructor |].
  inversion Hd; subst. destruct (string_dec k x); auto.
  constructor; auto. intros H. apply in_remove in H. tauto.
Qed.

Lemma del_items (P : string * V -> Prop) d k : Forall P d -> Forall P (Dict.del d k).
Proof.
  intros Hd. induction d as [| [k' v'] d IH]; cbn [Dict.del]; [constructor |].
  inversion Hd; subst. destruct (String.eqb k' k); auto.
Qed.

End MoreDictFacts.

(** X5: a record that was added is found under its name, and no other name
    is affected; a new name goes last in the order of the book; a name that
    is present keeps its place and its record is replaced whole, without
    any error; the keys stay distinct. *)
Theorem add_record_then_find (book : AddressBook) (record : Rec.Record_) :
  Book.find (Book.add_record book record) (Name_value (Rec.name record)) = Some record
  /\ (forall n, n <> Name_value (Rec.name record) ->
      Book.find (Book.add_record book record) n = Book.find book n)
  /\ (Book.find book (Name_value (Rec.name record)) = None ->
      Dict.keys (data (Book.add_record book record))
      = (Dict.keys (data book) ++ [Name_value (Rec.name record)])%list)
  /\ (forall old, Book.find book (Name_value (Rec.name record)) = Some old ->
      Dict.keys (data (Book.add_record book record)) = Dict.keys (data book))
  /\ (distinct_keys (data book) -> distinct_keys (data (Book.add_record book record))).
Proof.
  unfold Book.find, Book.add_record. cbn [data].
  split; [apply get_set_same |].
  split; [intros n Hn; now apply get_set_other |].
  split; [apply keys_set_absent |].
  split; [intros old; apply keys_set_present | apply set_distinct].
Qed.

(** X6: in a book with distinct keys, a name that was deleted is not found
    any more, every other name is found as before, in the same order, and
    the keys stay distinct; deleting a name that is not in the book changes
    nothing and raises nothing. *)
Theorem delete_then_find (book : AddressBook) (n : string) :
  distinct_keys (data book) ->
  Book.find (Book.delete book n) n = None
  /\ (forall n', n' <> n -> Book.find (Book.delete book n) n' = Book.find book n')
  /\ Dict.keys (data (Book.delete book n))
     = List.remove string_dec n (Dict.keys (data book))
  /\ distinct_keys (data (Book.delete book n))
  /\ (Book.find book n = None -> Book.delete book n = book).
Proof.
  intros Hd. unfold Book.find, Book.delete, Dict.contains.
  destruct (Dict.get (data book) n) as [record |] eqn:E; cbn [data].
  - split; [now apply get_del_same |].
    split; [intros n' Hn'; now apply get_del_other |].
    split; [now apply keys_del |].
    split; [now apply del_distinct | discriminate].
  - split; [exact E |]. split; [reflexivity |]. split; [| split; [exact Hd | reflexivity]].
    symmetry. apply notin_remove. now apply get_None_iff.
Qed.

Lemma delete_then_find_witness :
  distinct_keys (data ann_book)
  /\ Book.find (Book.delete ann_book "Ann") "Ann" = None
  /\ (forall n', n' <> "Ann" ->
      Book.find (Book.delete ann_book "Ann") n' = Book.find ann_book n')
  /\ Dict.keys (data (Book.delete ann_book "Ann"))
     = List.remove string_dec "Ann" (Dict.keys (data ann_book))
  /\ distinct_keys (data (Book.delete ann_book "Ann"))
  /\ (Book.find ann_book "Ann" = None -> Book.delete ann_book "Ann" = ann_book).
Proof.
  assert (H : distinct_keys (data ann_book)).
  { repeat constructor. intros []. }
  split; [exact H |].
  exact (delete_then_find ann_book "Ann" H).
Defined.

(** ** What the handlers keep *)

Lemma kept_entry_of_get (book : AddressBook) (n : string) (record : Rec.Record_) :
  Forall kept_entry (data book) -> Dict.get (data book) n = Some record ->
  kept_entry (n, record).
Proof.
  intros Hk Hg. apply get_In in Hg. rewrite Forall_forall in Hk. now apply Hk.
Qed.

Lemma kept_entry_new (n : string) : kept_entry (n, Rec.new n).
Proof.
  repeat split. constructor.
Qed.

Lemma kept_entry_add_phone (n phone : string) (record : Rec.Record_) :
  kept_entry (n, record) -> accepted_phone phone ->
  kept_entry (n, Rec.mkRecord (Rec.name record)
                   (Rec.phones record ++ [phone_of phone]) (Rec.birthday record)).
Proof.
  intros (Hn & Hp & Hb) Hacc. cbn [fst snd] in *. repeat split; trivial.
  cbn [snd Rec.phones]. apply Forall_app. split; trivial.
  constructor; [now exists phone | constructor].
Qed.

Lemma kept_entry_one_phone (n phone : string) (record : Rec.Record_) :
  kept_entry (n, record) -> accepted_phone phone ->
  kept_entry (n, Rec.mkRecord (Rec.name record) [phone_of phone] (Rec.birthday record)).
Proof.
  intros (Hn & Hp & Hb) Hacc. cbn [fst snd] in *. repeat split; trivial.
  cbn [snd Rec.phones]. constructor; [now exists phone | constructor].
Qed.

Lemma kept_entry_birthday (n s : string) (record : Rec.Record_) (b : Birthday) :
  kept_entry (n, record) -> Birthday_new s = inr b ->
  kept_entry (n, Rec.mkRecord (Rec.name record) (Rec.phones record) (Some b)).
Proof.
  intros (Hn & Hp & _) Hb. cbn [fst snd] in *. repeat split; trivial.
  cbn [snd Rec.birthday]. apply Birthday_new_inr in Hb.
  destruct Hb as [-> [d Hd]]. now exists s, d.
Qed.

Lemma well_kept_set (book : AddressBook) (n : string) (record : Rec.Record_) :
  well_kept book -> kept_entry (n, record) ->
  well_kept (mkBook (Dict.set (data book) n record)).
Proof.
  intros [Hd Hk] He. split; cbn [data]; [now apply set_distinct | now apply set_items].
Qed.

Lemma add_phones_well_kept (n : string) (phones : list string) :
  forall record book,
    kept_entry (n, record) -> well_kept book ->
    well_kept (snd (Body.add_phones n record phones book)).
Proof.
  induction phones as [| phone phones IH]; intros record book Hr Hb;
    cbn [Body.add_phones]; unfold Rec.add_phone; run; [exact Hb |].
  destruct (Phone_new phone) as [e | p] eqn:Ep; [exact Hb |].
  assert (Hacc : accepted_phone phone) by (now exists p).
  rewrite (Phone_new_accepted _ Hacc) in Ep. injection Ep as <-.
  apply IH; [now apply kept_entry_add_phone |].
  apply well_kept_set; trivial. now apply kept_entry_add_phone.
Qed.

Lemma input_error_book (func : M message) (book : AddressBook) :
  snd (input_error func book) = snd (func book).
Proof.
  unfold input_error. destruct (func book) as [[[] | m] b]; reflexivity.
Qed.

Lemma add_contact_well_kept (args : list string) (book : AddressBook) :
  well_kept book -> well_kept (snd (add_contact args book)).
Proof.
  intros Hb. unfold add_contact. rewrite input_error_book. unfold Body.add_contact.
  destruct (Z.of_nat (length args) <? 2); [exact Hb |].
  destruct args as [| n phones]; [exact Hb |]. run.
  destruct (Book.find book n) as [record |] eqn:Hf.
  - pose proof (add_phones_well_kept n phones record book) as H.
    destruct (Body.add_phones n record phones book) as [[e | []] b];
      apply H; trivial; apply (kept_entry_of_get book); trivial; apply Hb.
  - pose proof (add_phones_well_kept n phones (Rec.new n)
                  (Book.add_record book (Rec.new n))) as H.
    destruct (Body.add_phones n (Rec.new n) phones
                (Book.add_record book (Rec.new n))) as [[e | []] b];
      apply H; try apply kept_entry_new;
      apply (well_kept_set book n (Rec.new n) Hb), kept_entry_new.
Qed.

Lemma change_contact_well_kept (args : list string) (book : AddressBook) :
  well_kept book -> well_kept (snd (change_contact args book)).
Proof.
  intros Hb. unfold change_contact. rewrite input_error_book. unfold Body.change_contact.
  destruct args as [| n [| phone [| x args]]]; run; try exact Hb.
  destruct (Dict.get (data book) n) as [record |] eqn:Hf; [| exact Hb].
  destruct (Phone_new phone) as [e | p] eqn:Ep; [exact Hb |].
  assert (Hacc : accepted_phone phone) by (now exists p).
  rewrite (Phone_new_accepted _ Hacc) in Ep. injection Ep as <-.
  cbn [snd]. apply well_kept_set; trivial. apply kept_entry_one_phone; trivial.
  apply (kept_entry_of_get book); trivial. apply Hb.
Qed.

Lemma add_birthday_well_kept (args : list string) (book : AddressBook) :
  well_kept book -> well_kept (snd (add_birthday args book)).
Proof.
  intros Hb. unfold add_birthday. rewrite input_error_book. unfold Body.add_birthday.
  destruct args as [| n [| s [| x args]]]; run; try exact Hb.
  destruct (Dict.get (data book) n) as [record |] eqn:Hf; [| exact Hb].
  unfold Rec.add_birthday.
  destruct (Birthday_new s) as [e | b'] eqn:Eb; [exact Hb |].
  cbn [snd]. apply well_kept_set; trivial. apply (kept_entry_birthday n s); trivial.
  apply (kept_entry_of_get book); trivial. apply Hb.
Qed.

(** The handlers that only read. *)
Lemma readers_leave_the_book (args : list string) (book : AddressBook) :
  snd (show_contacts args book) = book
  /\ snd (show_all_contacts book) = book
  /\ snd (show_birthday args book) = book
  /\ snd (all_birthdays book) = book.
Proof.
  unfold show_contacts, show_all_contacts, show_birthday, all_birthdays.
  rewrite !input_error_book. repeat split.
  - unfold Body.show_contacts.
    destruct args as [| n [| x args]]; run; try reflexivity.
    destruct (Dict.get (data book) n); reflexivity.
  - unfold Body.show_all_contacts. run. destruct (data book); reflexivity.
  - unfold Body.show_birthday.
    destruct args as [| n [| x args]]; run; try reflexivity.
    destruct (Dict.get (data book) n) as [record |]; [| reflexivity].
    destruct (Rec.birthday record); reflexivity.
  - unfold Body.all_birthdays. run.
    destruct (Body.birthdays_list (data book)); reflexivity.
Qed.

(** X9: a turn of the loop changes the book only on the commands add,
    change and add-birthday; on every other line the book is the same, and
    the book handed over on close or exit is the one the turn began with. *)
Theorem only_three_commands_change_the_book (book : AddressBook) (line : string) :
  match main_step book line with
  | Continue _ book' =>
      book' = book
      \/ command_of line = Some "add"
      \/ command_of line = Some "change"
      \/ command_of line = Some "add-birthday"
  | Break _ book' => book' = book
  | Uncaught _ => True
  end.
Proof.
  unfold main_step, command_of.
  destruct (parse_input line) as [e | [command args]]; [exact I |].
  destruct (readers_leave_the_book args book) as (R1 & R2 & R3 & R4).
  destruct (String.eqb command "close" || String.eqb command "exit"); [reflexivity |].
  destruct (String.eqb command "hello"); [now left |].
  destruct (String.eqb_spec command "add") as [-> | _].
  { destruct (add_contact args book) as [[e | m] b]; cbn [display_result]; auto. }
  destruct (String.eqb_spec command "change") as [-> | _].
  { destruct (change_contact args book) as [[e | m] b]; cbn [display_result]; auto. }
  destruct (String.eqb command "show").
  { destruct (show_contacts args book) as [[e | m] b]; cbn [display_result snd] in *; auto. }
  destruct (String.eqb command "all"); [now left |].
  destruct (String.eqb_spec command "add-birthday") as [-> | _].
  { destruct (add_birthday args book) as [[e | m] b]; cbn [display_result]; auto 6. }
  destruct (String.eqb command "show-birthday").
  { destruct (show_birthday args book) as [[e | m] b]; cbn [display_result snd] in *; auto. }
  destruct (String.eqb command "all-birthdays").
  { destruct (all_birthdays book) as [[e | m] b]; cbn [display_result snd] in *; auto. }
  now left.
Qed.

Lemma main_step_well_kept (book book' : AddressBook) (line : string) (out : list output) :
  well_kept book -> main_step book line = Continue out book' -> well_kept book'.
Proof.
  intros Hb. unfold main_step.
  destruct (parse_input line) as [e | [command args]]; [discriminate |].
  destruct (readers_leave_the_book args book) as (R1 & R2 & R3 & R4).
  pose proof (add_contact_well_kept args book Hb) as W1.
  pose proof (change_contact_well_kept args book Hb) as W2.
  pose proof (add_birthday_well_kept args book Hb) as W3.
  repeat match goal with
    | |- context [if ?b then _ else _] => destruct b
    end;
    intros H; try discriminate H;
    try (apply display_result_book in H; subst book'; congruence);
    injection H as _ <-; exact Hb.
Qed.

Lemma reachable_well_kept (book : AddressBook) : reachable book -> well_kept book.
Proof.
  induction 1 as [| book book' line out _ IH Hstep].
  - split; constructor.
  - eapply main_step_well_kept; eassumption.
Qed.

Lemma accepted_phone_shape (v : string) :
  accepted_phone v ->
  String.length v = 10%nat /\ Str.all Str.isdigit_char v = true.
Proof.
  intros [p Hp]. apply Phone_test_iff.
  destruct ((Str.len v =? 10) && Str.isdigit v) eqn:E; [reflexivity |].
  rewrite Phone_new_invalid in Hp; [discriminate |].
  intros H. apply Phone_test_iff in H. congruence.
Qed.

(** X7: in every book a session can hold, the names are distinct, every
    record is found under its own name, every phone of it is one the
    validator accepted (ten characters, all digits), and its birthday, if
    any, is a string that [strptime] reads as a date. *)
Theorem session_books_are_well_kept (book : AddressBook) :
  reachable book ->
  distinct_keys (data book)
  /\ forall n record,
      Book.find book n = Some record ->
      Name_value (Rec.name record) = n
      /\ Forall accepted_phone (Rec.phone_strings record)
      /\ Forall (fun v => String.length v = 10%nat
                          /\ Str.all Str.isdigit_char v = true)
           (Rec.phone_strings record)
      /\ match Rec.birthday record with
         | Some b =>
             exists s d, Birthday_value b = VStr s /\ Strptime.strptime s = inr d
         | None => True
         end.
Proof.
  intros Hr. apply reachable_well_kept in Hr. destruct Hr as [Hd Hk].
  split; [exact Hd |]. intros n record Hf.
  destruct (kept_entry_of_get book n record Hk Hf) as (Hn & Hp & Hb).
  cbn [fst snd] in *. split; [exact Hn |].
  assert (Hacc : Forall accepted_phone (Rec.phone_strings record)).
  { unfold Rec.phone_strings. apply Forall_map.
    eapply Forall_impl; [| exact Hp]. intros p [v [-> Hv]]. exact Hv. }
  split; [exact Hacc |]. split; [| exact Hb].
  eapply Forall_impl; [| exact Hacc]. intros v Hv.
  now apply accepted_phone_shape.
Qed.

Lemma session_books_are_well_kept_witness :
  reachable ann_book
  /\ distinct_keys (data ann_book)
  /\ forall n record,
      Book.find ann_book n = Some record ->
      Name_value (Rec.name record) = n
      /\ Forall accepted_phone (Rec.phone_strings record)
      /\ Forall (fun v => String.length v = 10%nat
                          /\ Str.all Str.isdigit_char v = true)
           (Rec.phone_strings record)
      /\ match Rec.birthday record with
         | Some b =>
             exists s d, Birthday_value b = VStr s /\ Strptime.strptime s = inr d
         | None => True
         end.
Proof.
  split; [exact ann_book_reachable |].
  exact (session_books_are_well_kept ann_book ann_book_reachable).
Defined.

(** ** How the commands compose *)

Lemma show_contacts_found (n : string) (book : AddressBook) (record : Rec.Record_) :
  Book.find book n = Some record ->
  show_contacts [n] book = (inr (Rec.str record), book).
Proof.
  unfold show_contacts, input_error, Body.show_contacts, Book.find. run.
  now intros ->.
Qed.

(** X8: after [add] with accepted phones, [show] of that name renders the
    name the record carries and all its phones, the new ones last, joined
    by a semicolon and a space, and leaves the book alone; for a name that
    is not in the book [show] returns the text of the [KeyError]. *)
Theorem add_then_show
    (n phone : string) (phones : list string) (book : AddressBook) :
  Forall accepted_phone (phone :: phones) ->
  let book' := snd (add_contact (n :: phone :: phones) book) in
  show_contacts [n] book'
  = (inr (MsgRecord
            (match Book.find book n with
             | Some record => Name_value (Rec.name record)
             | None => n
             end)
            (Str.join "; "
               (match Book.find book n with
                | Some record => Rec.phone_strings record
                | None => []
                end ++ phone :: phones))),
     book')
  /\ (forall n', n' <> n -> Book.find book n' = None ->
      show_contacts [n'] book' = (inr (MsgRepr (MsgNotFound n')), book')).
Proof.
  intros Hall book'.
  destruct (add_contact_prefix n phone phones book)
    as [appended [rest [b (E & _ & Hsnd & Hrec & Hoth & Hres)]]].
  destruct (prefix_all_accepted _ _ _ E Hall) as [-> ->].
  { destruct rest; [exact I | apply Hres]. }
  fold book' in Hsnd. subst b. split.
  - rewrite (show_contacts_found _ _ _ Hrec). unfold Rec.str, Rec.phone_strings.
    destruct (Book.find book n) as [record |]; cbn [Rec.name Rec.phones Name_value].
    + now rewrite List.map_app, phone_strings_of.
    + now rewrite phone_strings_of.
  - intros n' Hn' Hnone. rewrite <- (Hoth n' Hn') in Hnone.
    unfold show_contacts, input_error, Body.show_contacts. run.
    unfold Book.find in Hnone. now rewrite Hnone.
Qed.

Lemma add_then_show_witness :
  Forall accepted_phone ["0123456789"; "0987654321"]
  /\ let book' := snd (add_contact ["Ann"; "0123456789"; "0987654321"] Book.empty) in
     show_contacts ["Ann"] book'
     = (inr (MsgRecord
               (match Book.find Book.empty "Ann" with
                | Some record => Name_value (Rec.name record)
                | None => "Ann"
                end)
               (Str.join "; "
                  (match Book.find Book.empty "Ann" with
                   | Some record => Rec.phone_strings record
                   | None => []
                   end ++ ["0123456789"; "0987654321"]))),
        book')
     /\ (forall n', n' <> "Ann" -> Book.find Book.empty n' = None ->
         show_contacts [n'] book' = (inr (MsgRepr (MsgNotFound n')), book')).
Proof.
  assert (H : Forall accepted_phone ["0123456789"; "0987654321"]).
  { repeat constructor; [apply accepted_0123456789 | apply accepted_0987654321]. }
  split; [exact H |].
  exact (add_then_show "Ann" "0123456789" ["0987654321"] Book.empty H).
Defined.

(** X12: when a phone argument of [add] is refused, the phones before it
    are already in the record, in order, and stay there; the refused one
    and those after it are not added; the text returned is the one of the
    phone format.  On a new name the contact exists afterwards even when
    its first phone was refused. *)
Theorem add_contact_keeps_the_phones_before_a_refused_one
    (n bad : string) (ok rest : list string) (book : AddressBook) :
  Forall accepted_phone ok -> ~ accepted_phone bad ->
  exists book',
    add_contact (n :: ok ++ bad :: rest) book = (inr MsgBadPhone, book')
    /\ Book.find book' n
       = Some (match Book.find book n with
               | None => Rec.mkRecord (mkName n) (List.map phone_of ok) None
               | Some record =>
                   Rec.mkRecord (Rec.name record)
                     (Rec.phones record ++ List.map phone_of ok)
                     (Rec.birthday record)
               end)
    /\ (forall n', n' <> n -> Book.find book' n' = Book.find book n').
Proof.
  intros Hok Hbad.
  assert (Hshape : exists phone phones, (ok ++ bad :: rest)%list = phone :: phones).
  { destruct ok as [| v ok']; cbn [app]; eauto. }
  destruct Hshape as [phone [phones Hshape]]. rewrite Hshape.
  destruct (add_contact_prefix n phone phones book)
    as [appended [rest' [book' (E & Hacc & Hsnd & Hrec & Hoth & Hres)]]].
  rewrite <- Hshape in E.
  assert (Hsame : appended = ok /\ rest' = bad :: rest).
  { clear -E Hok Hbad Hacc Hres. revert appended E Hacc.
    induction ok as [| v ok IH]; intros appended E Hacc; cbn [app] in E.
    - destruct appended as [| a appended]; cbn [app] in E; [now subst rest' |].
      injection E as <- _. inversion Hacc; subst. contradiction.
    - inversion Hok; subst.
      destruct appended as [| a appended]; cbn [app] in E.
      + subst rest'. destruct Hres as [Hv _]. contradiction.
      + injection E as <- E. inversion Hacc; subst.
        destruct (IH ltac:(assumption) appended E ltac:(assumption)) as [-> ->].
        auto. }
  destruct Hsame as [-> ->]. destruct Hres as [_ Hfst].
  exists book'. split; [| split; [exact Hrec | exact Hoth]].
  destruct (add_contact (n :: phone :: phones) book) as [r b].
  cbn [fst snd] in *. now subst.
Qed.

Lemma not_accepted_abc : ~ accepted_phone "abc".
Proof.
  intros [p H]. discriminate H.
Qed.

Lemma add_contact_keeps_the_phones_before_a_refused_one_witness :
  Forall accepted_phone ["0123456789"]
  /\ ~ accepted_phone "abc"
  /\ exists book',
      add_contact ("Ann" :: ["0123456789"] ++ "abc" :: ["0987654321"]) Book.empty
      = (inr MsgBadPhone, book')
      /\ Book.find book' "Ann"
         = Some (match Book.find Book.empty "Ann" with
                 | None => Rec.mkRecord (mkName "Ann")
                             (List.map phone_of ["0123456789"]) None
                 | Some record =>
                     Rec.mkRecord (Rec.name record)
                       (Rec.phones record ++ List.map phone_of ["0123456789"])
                       (Rec.birthday record)
                 end)
      /\ (forall n', n' <> "Ann" -> Book.find book' n' = Book.find Book.empty n').
Proof.
  assert (H : Forall accepted_phone ["0123456789"]).
  { repeat constructor. apply accepted_0123456789. }
  split; [exact H |]. split; [exact not_accepted_abc |].
  exact (add_contact_keeps_the_phones_before_a_refused_one
           "Ann" "abc" ["0123456789"] ["0987654321"] Book.empty H not_accepted_abc).
Defined.

(** X10: [add-birthday] on a name of the book, with a string that
    [strptime] reads, puts the birthday in the record in place of any
    earlier one and keeps the name and the phones; [show-birthday] then
    shows the string as it was typed.  With a string that is not read the
    text of the date format is returned and the book is the same.  A record
    without birthday is shown as such. *)
Theorem add_birthday_then_show_birthday
    (n s : string) (book : AddressBook) (record : Rec.Record_) :
  Book.find book n = Some record ->
  (forall d, Strptime.strptime s = inr d ->
      exists book',
        add_birthday [n; s] book = (inr (MsgBirthdayAdded n), book')
        /\ Book.find book' n
           = Some (Rec.mkRecord (Rec.name record) (Rec.phones record)
                     (Some (mkBirthday (VStr s))))
        /\ (forall n', n' <> n -> Book.find book' n' = Book.find book n')
        /\ show_birthday [n] book' = (inr (MsgBirthdayIs n s), book'))
  /\ ((forall d, Strptime.strptime s <> inr d) ->
      add_birthday [n; s] book = (inr MsgBadDate, book))
  /\ (Rec.birthday record = None ->
      show_birthday [n] book = (inr (MsgBirthdayNotSet n), book)).
Proof.
  unfold Book.find. intros Hf. split; [| split].
  - intros d Hd.
    unfold add_birthday, show_birthday, input_error, Body.add_birthday,
      Body.show_birthday, Rec.add_birthday, Birthday_new. run.
    rewrite Hf, Hd. cbn [Field_init].
    eexists. split; [reflexivity |]. cbn [data].
    rewrite get_set_same. split; [reflexivity |].
    split; [intros n' Hn'; now apply get_set_other | reflexivity].
  - intros Hno.
    unfold add_birthday, input_error, Body.add_birthday, Rec.add_birthday. run.
    rewrite Hf. destruct (Birthday_new s) as [e | b] eqn:Eb.
    + apply Birthday_new_raises in Eb. now subst e.
    + apply Birthday_new_inr in Eb. destruct Eb as [_ [d Hd]]. now destruct (Hno d).
  - intros Hb. unfold show_birthday, input_error, Body.show_birthday. run.
    now rewrite Hf, Hb.
Qed.

Lemma add_birthday_then_show_birthday_witness :
  Book.find ann_book "Ann"
  = Some (Rec.mkRecord (mkName "Ann") [phone_of "0123456789"]
            (Some (mkBirthday (VStr "01.01.1990"))))
  /\ exists book',
      add_birthday ["Ann"; "2.3.1991"] ann_book = (inr (MsgBirthdayAdded "Ann"), book')
      /\ Book.find book' "Ann"
         = Some (Rec.mkRecord (mkName "Ann") [phone_of "0123456789"]
                   (Some (mkBirthday (VStr "2.3.1991"))))
      /\ (forall n', n' <> "Ann" -> Book.find book' n' = Book.find ann_book n')
      /\ show_birthday ["Ann"] book' = (inr (MsgBirthdayIs "Ann" "2.3.1991"), book').
Proof.
  split; [reflexivity |].
  exact (proj1 (add_birthday_then_show_birthday "Ann" "2.3.1991" ann_book _ eq_refl)
           (Date.mkDate 1991 3 2) eq_refl).
Defined.

(** X11: with the wrong number of arguments each handler returns its usage
    text and leaves the book as it is: [add] with fewer than two, [change]
    and [add-birthday] with other than two, [show] and [show-birthday] with
    other than one.  Nothing is looked up and nothing is validated. *)
Theorem wrong_argument_count_gives_the_usage_text
    (args : list string) (book : AddressBook) :
  ((length args < 2)%nat ->
   add_contact args book = (inr (MsgArgCount UsageAdd), book))
  /\ (length args <> 2%nat ->
      change_contact args book = (inr (MsgArgCount UsageChange), book)
      /\ add_birthday args book = (inr (MsgArgCount UsageAddBirthday), book))
  /\ (length args <> 1%nat ->
      show_contacts args book = (inr (MsgArgCount UsageShow), book)
      /\ show_birthday args book = (inr (MsgArgCount UsageShowBirthday), book)).
Proof.
  split; [| split].
  - intros H. unfold add_contact, input_error, Body.add_contact.
    replace (Z.of_nat (length args) <? 2) with true
      by (symmetry; apply Z.ltb_lt; lia).
    reflexivity.
  - intros H. destruct args as [| a [| b [| c args]]]; cbn [length] in H;
      try congruence; split; reflexivity.
  - intros H. destruct args as [| a [| b args]]; cbn [length] in H;
      try congruence; split; reflexivity.
Qed.

Lemma add_phones_keys (n : string) (phones : list string)
    (record : Rec.Record_) (book : AddressBook) :
  Dict.get (data book) n = Some record ->
  Dict.keys (data (snd (Body.add_phones n record phones book))) = Dict.keys (data book).
Proof.
  intros Hget.
  destruct (add_phones_prefix n phones record book Hget)
    as [appended [rest [book' (_ & _ & Hsnd & _ & _ & Hkeys & _)]]].
  now rewrite Hsnd.
Qed.

Lemma add_contact_keys (args : list string) (book : AddressBook) :
  exists added,
    Dict.keys (data (snd (add_contact args book))) = (Dict.keys (data book) ++ added)%list
    /\ (length added <= 1)%nat.
Proof.
  unfold add_contact. rewrite input_error_book. unfold Body.add_contact.
  destruct (Z.of_nat (length args) <? 2);
    [exists []; rewrite app_nil_r; split; [reflexivity | cbn; lia] |].
  destruct args as [| n phones];
    [exists []; rewrite app_nil_r; split; [reflexivity | cbn; lia] |].
  run. destruct (Book.find book n) as [record |] eqn:Hf.
  - exists []. rewrite app_nil_r. split; [| cbn; lia].
    pose proof (add_phones_keys n phones record book Hf) as H.
    destruct (Body.add_phones n record phones book) as [[e | []] b]; exact H.
  - exists [n]. split; [| cbn; lia].
    assert (Hget : Dict.get (data (Book.add_record book (Rec.new n))) n
                   = Some (Rec.new n)) by apply get_set_same.
    pose proof (add_phones_keys n phones (Rec.new n) _ Hget) as H.
    assert (Hk : Dict.keys (data (Book.add_record book (Rec.new n)))
                 = (Dict.keys (data book) ++ [n])%list)
      by (apply keys_set_absent; exact Hf).
    destruct (Body.add_phones n (Rec.new n) phones (Book.add_record book (Rec.new n)))
      as [[e | []] b]; cbn [snd] in *; congruence.
Qed.

Lemma change_contact_keys (args : list string) (book : AddressBook) :
  Dict.keys (data (snd (change_contact args book))) = Dict.keys (data book).
Proof.
  unfold change_contact. rewrite input_error_book. unfold Body.change_contact.
  destruct args as [| n [| phone [| x args]]]; run; try reflexivity.
  destruct (Dict.get (data book) n) as [record |] eqn:Hf; [| reflexivity].
  destruct (Phone_new phone); [reflexivity |].
  cbn [snd data]. now apply (keys_set_present _ _ _ record).
Qed.

Lemma add_birthday_keys (args : list string) (book : AddressBook) :
  Dict.keys (data (snd (add_birthday args book))) = Dict.keys (data book).
Proof.
  unfold add_birthday. rewrite input_error_book. unfold Body.add_birthday.
  destruct args as [| n [| s [| x args]]]; run; try reflexivity.
  destruct (Dict.get (data book) n) as [record |] eqn:Hf; [| reflexivity].
  unfold Rec.add_birthday. destruct (Birthday_new s); [reflexivity |].
  cbn [snd data]. now apply (keys_set_present _ _ _ record).
Qed.

(** X19: no command takes a contact out of the book or changes the order
    of the contacts: after a turn of the loop the names are those of
    before, in the same order, with at most one new name at the end. *)
Theorem a_turn_keeps_the_contacts (book : AddressBook) (line : string) :
  match main_step book line with
  | Continue _ book' | Break _ book' =>
      exists added,
        Dict.keys (data book') = (Dict.keys (data book) ++ added)%list
        /\ (length added <= 1)%nat
  | Uncaught _ => True
  end.
Proof.
  assert (Hsame : exists added,
             Dict.keys (data book) = (Dict.keys (data book) ++ added)%list
             /\ (length added <= 1)%nat).
  { exists []. rewrite app_nil_r. split; [reflexivity | cbn; lia]. }
  unfold main_step.
  destruct (parse_input line) as [e | [command args]]; [exact I |].
  destruct (readers_leave_the_book args book) as (R1 & R2 & R3 & R4).
  destruct (String.eqb command "close" || String.eqb command "exit"); [exact Hsame |].
  destruct (String.eqb command "hello"); [exact Hsame |].
  destruct (String.eqb command "add").
  { pose proof (add_contact_keys args book) as H.
    destruct (add_contact args book) as [[e | m] b]; cbn [display_result snd] in *;
      [exact I | exact H]. }
  destruct (String.eqb command "change").
  { pose proof (change_contact_keys args book) as H.
    destruct (change_contact args book) as [[e | m] b]; cbn [display_result snd] in *;
      [exact I |]. rewrite H. exact Hsame. }
  destruct (String.eqb command "show").
  { destruct (show_contacts args book) as [[e | m] b]; cbn [display_result snd] in *;
      [exact I | subst b; exact Hsame]. }
  destruct (String.eqb command "all"); [exact Hsame |].
  destruct (String.eqb command "add-birthday").
  { pose proof (add_birthday_keys args book) as H.
    destruct (add_birthday args book) as [[e | m] b]; cbn [display_result snd] in *;
      [exact I |]. rewrite H. exact Hsame. }
  destruct (String.eqb command "show-birthday").
  { destruct (show_birthday args book) as [[e | m] b]; cbn [display_result snd] in *;
      [exact I | subst b; exact Hsame]. }
  destruct (String.eqb command "all-birthdays").
  { destruct (all_birthdays book) as [[e | m] b]; cbn [display_result snd] in *;
      [exact I | subst b; exact Hsame]. }
  exact Hsame.
Qed.

(** ** parse_input *)

Lemma all_append (p : ascii -> bool) (x y : string) :
  Str.all p (x ++ y) = Str.all p x && Str.all p y.
Proof.
  induction x as [| c x IH]; cbn [String.append Str.all]; [reflexivity |].
  now rewrite IH, andb_assoc.
Qed.

Lemma token_snoc (w : string) (c : ascii) :
  (w = EmptyString \/ token w) -> Str.isspace_char c = false ->
  token (w ++ String c EmptyString).
Proof.
  intros Hw Hc. split.
  - destruct w; discriminate.
  - rewrite all_append. cbn [Str.all]. rewrite Hc. cbn [negb andb].
    destruct Hw as [-> | [_ Hw]]; [reflexivity | now rewrite Hw].
Qed.

Lemma split_from_tokens (s : string) :
  forall cur,
    match cur with Some w => token w | None => True end ->
    Forall token (Str.split_from cur s).
Proof.
  induction s as [| c s IH]; intros cur Hcur; cbn [Str.split_from].
  - destruct cur; [constructor; [exact Hcur | constructor] | constructor].
  - destruct (Str.isspace_char c) eqn:Ec.
    + destruct cur; [constructor; trivial |]; now apply IH.
    + destruct cur as [w |]; apply IH.
      * apply token_snoc; auto.
      * apply (token_snoc EmptyString); auto.
Qed.

Lemma split_from_word (t : string) :
  forall w s,
    Str.all (fun c => negb (Str.isspace_char c)) t = true ->
    Str.split_from (Some w) (t ++ s) = Str.split_from (Some (w ++ t)) s.
Proof.
  induction t as [| c t IH]; intros w s Ht; cbn [String.append Str.all] in *.
  - now rewrite append_nil_r.
  - apply andb_true_iff in Ht. destruct Ht as [Hc Ht].
    apply negb_true_iff in Hc. cbn [Str.split_from]. rewrite Hc.
    rewrite IH by assumption. now rewrite append_assoc.
Qed.

Lemma split_from_token (t s : string) :
  token t -> Str.split_from None (t ++ s) = Str.split_from (Some t) s.
Proof.
  intros [Hne Ht]. destruct t as [| c t]; [congruence |].
  cbn [String.append Str.all] in *.
  apply andb_true_iff in Ht. destruct Ht as [Hc Ht]. apply negb_true_iff in Hc.
  cbn [Str.split_from]. rewrite Hc. now rewrite split_from_word.
Qed.

(** Tokens joined by single spaces are split back into the same tokens. *)
Lemma split_join (ts : list string) :
  Forall token ts -> Str.split (Str.join " " ts) = ts.
Proof.
  unfold Str.split. induction ts as [| t ts IH]; intros Hts; [reflexivity |].
  inversion Hts as [| ? ? Ht Hts']; subst. cbn [Str.join].
  destruct ts as [| t' ts].
  - rewrite <- (append_nil_r t) at 1. now rewrite split_from_token.
  - rewrite split_from_token by assumption.
    change (" " ++ Str.join " " (t' :: ts)) with (String " " (Str.join " " (t' :: ts))).
    cbn [Str.split_from]. change (Str.isspace_char " ") with true. cbv iota.
    now rewrite IH.
Qed.

Lemma rstrip_token (t : string) : token t -> Str.rstrip t = t.
Proof.
  intros [Hne Ht]. induction t as [| c t IH]; [congruence |].
  cbn [Str.all Str.rstrip] in *. apply andb_true_iff in Ht. destruct Ht as [Hc Ht].
  apply negb_true_iff in Hc. destruct t as [| c' t].
  - cbn [Str.rstrip]. now rewrite Hc.
  - rewrite IH; [reflexivity | discriminate | assumption].
Qed.

(** [strip] changes no token: the call in [parse_input] is idle. *)
Lemma strip_token (t : string) : token t -> Str.strip t = t.
Proof.
  intros Ht. unfold Str.strip.
  assert (Hl : Str.lstrip t = t).
  { destruct Ht as [Hne Ht]. destruct t as [| c t]; [congruence |].
    cbn [Str.all Str.lstrip] in *. apply andb_true_iff in Ht. destruct Ht as [Hc _].
    apply negb_true_iff in Hc. now rewrite Hc. }
  rewrite Hl. now apply rstrip_token.
Qed.

Lemma lower_char_idempotent (c : ascii) :
  Str.lower_char (Str.lower_char c) = Str.lower_char c.
Proof.
  destruct c as [[] [] [] [] [] [] [] []]; reflexivity.
Qed.

Lemma lower_idempotent (s : string) : Str.lower (Str.lower s) = Str.lower s.
Proof.
  unfold Str.lower. induction s as [| c s IH]; cbn [Str.map]; [reflexivity |].
  now rewrite lower_char_idempotent, IH.
Qed.

Lemma split_from_some_not_nil (s : string) (w : string) :
  Str.split_from (Some w) s <> [].
Proof.
  revert w. induction s as [| c s IH]; intros w; cbn [Str.split_from]; [discriminate |].
  destruct (Str.isspace_char c); [discriminate | apply IH].
Qed.

Lemma split_nil_iff (s : string) :
  Str.split s = [] <-> Str.all Str.isspace_char s = true.
Proof.
  unfold Str.split. induction s as [| c s IH]; cbn [Str.split_from Str.all]; [tauto |].
  destruct (Str.isspace_char c); cbn [andb]; [exact IH |].
  split; [| discriminate]. intros H. now apply split_from_some_not_nil in H.
Qed.

(** X13: [parse_input] raises exactly on the lines made of space characters
    only, the empty line among them.  On any other line it returns the
    first token in lower case and the tokens after it, none of which is
    empty or holds a space character; so a command and its arguments
    joined by single spaces are read back as they are, the command in lower
    case. *)
Theorem parse_input_reads_the_tokens :
  (forall line,
      (exists e, parse_input line = inl e) <-> Str.all Str.isspace_char line = true)
  /\ (forall line command args,
         parse_input line = inr (command, args) ->
         Forall token args
         /\ Str.lower command = command
         /\ exists cmd, token cmd /\ command = Str.lower cmd
                        /\ Str.split line = cmd :: args)
  /\ (forall cmd args,
         Forall token (cmd :: args) ->
         parse_input (Str.join " " (cmd :: args)) = inr (Str.lower cmd, args)).
Proof.
  split; [| split].
  - intros line. rewrite <- split_nil_iff. unfold parse_input.
    destruct (Str.split line) as [| cmd args].
    + split; [reflexivity | eauto].
    + split; [intros [e H]; discriminate H | discriminate].
  - intros line command args. unfold parse_input.
    pose proof (split_from_tokens line None I) as Ht. fold (Str.split line) in Ht.
    destruct (Str.split line) as [| cmd args']; [discriminate |].
    intros H. injection H as <- <-. inversion Ht as [| ? ? Hc Ha]; subst.
    rewrite (strip_token cmd Hc). split; [exact Ha |].
    split; [apply lower_idempotent |]. now exists cmd.
  - intros cmd args Ht. unfold parse_input. rewrite (split_join _ Ht).
    inversion Ht; subst. now rewrite strip_token.
Qed.

(** ** The session *)

Lemma goes_on_continues (book : AddressBook) (line : string) :
  goes_on line <-> exists out book', main_step book line = Continue out book'.
Proof.
  unfold goes_on, command_of. pose proof (main_step_outcomes book line) as Ho.
  split.
  - intros [command (Hc & Hclose & Hexit)].
    destruct (parse_input line) as [e | [c args]] eqn:Ep; [discriminate |].
    injection Hc as ->.
    destruct (main_step book line) as [out b | out b | e].
    + eauto.
    + destruct Ho as [_ [c [a [E [-> | ->]]]]]; congruence.
    + destruct Ho as [_ E]. congruence.
  - intros [out [book' H]]. unfold main_step in H.
    destruct (parse_input line) as [e | [command args]]; [discriminate |].
    exists command. split; [reflexivity |].
    destruct (String.eqb_spec command "close") as [-> | Hc]; [discriminate |].
    destruct (String.eqb_spec command "exit") as [-> | He]; [discriminate |].
    auto.
Qed.

Lemma book_after_cons (line : string) (lines : list string)
    (book book' : AddressBook) (out : list output) :
  main_step book line = Continue out book' ->
  book_after (line :: lines) book = book_after lines book'.
Proof.
  intros H. unfold book_after. cbn [fold_left]. now rewrite H.
Qed.

Section Sessions.

Variable blob : Type.
Variable pickle_dump : AddressBook -> blob.
Variable pickle_load : blob -> result AddressBook.

(** Lines that go on are read one after the other; what follows them is
    read with the book they leave. *)
Lemma main_loop_goes_on (lines rest : list string) :
  Forall goes_on lines ->
  forall (book : AddressBook) (fs : filesystem blob),
  exists out,
    main_loop blob pickle_dump (lines ++ rest) book fs
    = (let '(out', fs', t) :=
         main_loop blob pickle_dump rest (book_after lines book) fs in
       ((out ++ out')%list, fs', t)).
Proof.
  induction 1 as [| line lines Hline _ IH]; intros book fs.
  - exists []. cbn [app book_after fold_left].
    destruct (main_loop blob pickle_dump rest book fs) as [[o f] t]. reflexivity.
  - destruct (proj1 (goes_on_continues book line) Hline) as [out [book' Hstep]].
    destruct (IH book' fs) as [out1 Hrec].
    exists (Prompt :: out ++ out1)%list.
    cbn [app main_loop]. rewrite Hstep, Hrec, (book_after_cons _ _ _ _ _ Hstep).
    destruct (main_loop blob pickle_dump rest (book_after lines book') fs) as [[o f] t].
    cbn [app]. now rewrite <- app_assoc.
Qed.

Lemma main_loop_until_exit
    (lines rest : list string) (last : string)
    (book : AddressBook) (fs : filesystem blob) :
  Forall goes_on lines ->
  command_of last = Some "close" \/ command_of last = Some "exit" ->
  exists out,
    main_loop blob pickle_dump (lines ++ last :: rest) book fs
    = (out,
       save_data blob pickle_dump (book_after lines book) default_filename fs,
       Exited).
Proof.
  intros Hlines Hlast.
  destruct (main_loop_goes_on lines (last :: rest) Hlines book fs) as [out Hrun].
  assert (Hstep : main_step (book_after lines book) last
                  = Break [Print MsgGoodbye] (book_after lines book)).
  { unfold command_of in Hlast. unfold main_step.
    destruct (parse_input last) as [e | [command args]];
      [destruct Hlast; discriminate |].
    destruct Hlast as [H | H]; injection H as ->; reflexivity. }
  exists (out ++ [Prompt; Print MsgGoodbye])%list.
  rewrite Hrun. cbn [main_loop]. now rewrite Hstep.
Qed.

(** X14: after lines that go on, the line whose command is close or exit
    (in any case of letters) ends the loop: the book those lines left is
    saved under the default file name, the process exits, and the lines
    after it are not read. *)
Theorem exit_saves_the_book_and_ends_the_loop
    (lines rest : list string) (last : string)
    (book : AddressBook) (fs : filesystem blob) :
  Forall goes_on lines ->
  command_of last = Some "close" \/ command_of last = Some "exit" ->
  exists out,
    main_loop blob pickle_dump (lines ++ last :: rest) book fs
    = (out,
       save_data blob pickle_dump (book_after lines book) default_filename fs,
       Exited)
    /\ save_data blob pickle_dump (book_after lines book) default_filename fs
         default_filename
       = Some (pickle_dump (book_after lines book)).
Proof.
  intros Hlines Hlast.
  destruct (main_loop_until_exit lines rest last book fs Hlines Hlast) as [out Hrun].
  exists out. split; [exact Hrun |].
  unfold save_data, write_file. now rewrite String.eqb_refl.
Qed.

(** X15: without close or exit nothing is saved.  When the input ends after
    lines that go on, the process dies on [EOFError]; when a line of space
    characters comes, it dies on the [ValueError] of [parse_input]; in both
    cases the files are as they were, whatever the lines did to the
    book. *)
Theorem no_exit_no_save
    (lines rest : list string) (blank : string)
    (book : AddressBook) (fs : filesystem blob) :
  Forall goes_on lines ->
  Str.all Str.isspace_char blank = true ->
  (exists out, main_loop blob pickle_dump lines book fs = (out, fs, Died EOFError))
  /\ (exists out e,
         main_loop blob pickle_dump (lines ++ blank :: rest) book fs
         = (out, fs, Died (ValueError e))).
Proof.
  intros Hlines Hblank. split.
  - destruct (main_loop_goes_on lines [] Hlines book fs) as [out Hrun].
    rewrite app_nil_r in Hrun. exists (out ++ [Prompt])%list. rewrite Hrun. reflexivity.
  - destruct (main_loop_goes_on lines (blank :: rest) Hlines book fs) as [out Hrun].
    apply split_nil_iff in Hblank.
    assert (Hstep : main_step (book_after lines book) blank
                    = Uncaught (ValueError (MsgLibrary
                        "not enough values to unpack (expected at least 1, got 0)"))).
    { unfold main_step, parse_input. now rewrite Hblank. }
    exists (out ++ [Prompt])%list. eexists. rewrite Hrun. cbn [main_loop].
    rewrite Hstep. reflexivity.
Qed.

(** X16: [load_data] gives a new, empty book when the file is missing, and
    also when the file is there and [pickle] raises [FileNotFoundError] on
    its content: the [try] holds both [open] and [pickle.load], and [main]
    then starts on the empty book.  Every other exception [pickle] raises
    is raised by [load_data] and kills [main] before the welcome, with the
    files as they were; a content [pickle] reads is returned as read.  Of
    two saves under one name the second is the one loaded. *)
Theorem load_data_edge_cases
    (book1 book2 : AddressBook) (f : string) (fs : filesystem blob) :
  (fs f = None -> load_data blob pickle_load f fs = inr Book.empty)
  /\ (forall content,
         fs f = Some content -> pickle_load content = inl FileNotFoundError ->
         load_data blob pickle_load f fs = inr Book.empty)
  /\ (forall content e,
         fs f = Some content -> pickle_load content = inl e ->
         e <> FileNotFoundError ->
         load_data blob pickle_load f fs = inl e)
  /\ (forall content book,
         fs f = Some content -> pickle_load content = inr book ->
         load_data blob pickle_load f fs = inr book)
  /\ load_data blob pickle_load f
       (save_data blob pickle_dump book2 f (save_data blob pickle_dump book1 f fs))
     = load_data blob pickle_load f (save_data blob pickle_dump book2 f fs)
  /\ (forall content e inputs,
         fs default_filename = Some content -> pickle_load content = inl e ->
         main blob pickle_dump pickle_load inputs fs
         = match e with
           | FileNotFoundError =>
               let '(out, fs', t) :=
                 main_loop blob pickle_dump inputs Book.empty fs in
               (Print MsgWelcome :: out, fs', t)
           | _ => ([], fs, Died e)
           end).
Proof.
  unfold main, load_data, open_rb, save_data, write_file.
  split; [| split; [| split; [| split; [| split]]]].
  - now intros ->.
  - intros content Hc He. now rewrite Hc, He.
  - intros content e Hc He Hne. rewrite Hc, He. destruct e; congruence.
  - intros content book Hc Hb. now rewrite Hc, Hb.
  - now rewrite String.eqb_refl.
  - intros content e inputs Hc He. rewrite Hc, He. destruct e; reflexivity.
Qed.

(** What [pickle] promises: loading what was dumped gives the book back. *)
Hypothesis pickle_round_trip : forall book, pickle_load (pickle_dump book) = inr book.

(** X17: a session that ends on close or exit leaves its book to the next
    one: [main], started on files from which the book [book0] is loaded,
    run on lines that go on and then close or exit, exits and leaves files
    from which [load_data] gives the book those lines made of [book0]; the
    other files are untouched. *)
Theorem the_next_session_starts_with_the_saved_book
    (lines rest : list string) (last : string)
    (book0 : AddressBook) (fs : filesystem blob) :
  load_data blob pickle_load default_filename fs = inr book0 ->
  Forall goes_on lines ->
  command_of last = Some "close" \/ command_of last = Some "exit" ->
  exists out fs',
    main blob pickle_dump pickle_load (lines ++ last :: rest) fs = (out, fs', Exited)
    /\ load_data blob pickle_load default_filename fs'
       = inr (book_after lines book0)
    /\ (forall f, f <> default_filename -> fs' f = fs f).
Proof.
  intros Hload Hlines Hlast.
  destruct (main_loop_until_exit lines rest last book0 fs Hlines Hlast)
    as [out Hrun].
  unfold main. rewrite Hload, Hrun. eexists _, _. split; [reflexivity |].
  unfold load_data, open_rb, save_data, write_file. rewrite String.eqb_refl. split.
  - now rewrite pickle_round_trip.
  - intros f Hf. destruct (String.eqb_spec f default_filename); [congruence | reflexivity].
Qed.

End Sessions.

Lemma ann_session_goes_on : Forall goes_on ann_session.
Proof.
  repeat constructor.
  - exists "add". repeat split; discriminate.
  - exists "add-birthday". repeat split; discriminate.
Qed.

Lemma exit_saves_the_book_and_ends_the_loop_witness :
  Forall goes_on ann_session
  /\ (command_of "EXIT" = Some "close" \/ command_of "EXIT" = Some "exit")
  /\ exists out,
      main_loop AddressBook (fun b => b) (ann_session ++ "EXIT" :: ["all"])
        Book.empty (fun _ => None)
      = (out,
         save_data AddressBook (fun b => b) (book_after ann_session Book.empty)
           default_filename (fun _ => None),
         Exited)
      /\ save_data AddressBook (fun b => b) (book_after ann_session Book.empty)
           default_filename (fun _ => None) default_filename
         = Some (book_after ann_session Book.empty).
Proof.
  assert (H : command_of "EXIT" = Some "close" \/ command_of "EXIT" = Some "exit")
    by (right; reflexivity).
  split; [exact ann_session_goes_on |]. split; [exact H |].
  exact (exit_saves_the_book_and_ends_the_loop AddressBook (fun b => b)
           ann_session ["all"] "EXIT" Book.empty (fun _ => None)
           ann_session_goes_on H).
Defined.

Lemma no_exit_no_save_witness :
  Forall goes_on ann_session
  /\ Str.all Str.isspace_char "  " = true
  /\ (exists out,
         main_loop AddressBook (fun b => b) ann_session Book.empty (fun _ => None)
         = (out, (fun _ => None), Died EOFError))
  /\ (exists out e,
         main_loop AddressBook (fun b => b) (ann_session ++ "  " :: ["exit"])
           Book.empty (fun _ => None)
         = (out, (fun _ => None), Died (ValueError e))).
Proof.
  split; [exact ann_session_goes_on |]. split; [reflexivity |].
  exact (no_exit_no_save AddressBook (fun b => b) ann_session ["exit"] "  "
           Book.empty (fun _ => None) ann_session_goes_on eq_refl).
Defined.

Lemma the_next_session_starts_with_the_saved_book_witness :
  (forall book : AddressBook, @inr exn AddressBook book = inr book)
  /\ load_data AddressBook (@inr exn AddressBook) default_filename (fun _ => None)
     = inr Book.empty
  /\ Forall goes_on ann_session
  /\ (command_of "exit" = Some "close" \/ command_of "exit" = Some "exit")
  /\ exists out fs',
      main AddressBook (fun b => b) (@inr exn AddressBook)
        (ann_session ++ "exit" :: []) (fun _ => None)
      = (out, fs', Exited)
      /\ load_data AddressBook (@inr exn AddressBook) default_filename fs'
         = inr (book_after ann_session Book.empty)
      /\ (forall f, f <> default_filename -> fs' f = None).
Proof.
  assert (H : command_of "exit" = Some "close" \/ command_of "exit" = Some "exit")
    by (right; reflexivity).
  split; [reflexivity |]. split; [reflexivity |].
  split; [exact ann_session_goes_on |]. split; [exact H |].
  exact (the_next_session_starts_with_the_saved_book AddressBook (fun b => b)
           (@inr exn AddressBook) (fun book => eq_refl)
           ann_session [] "exit" Book.empty (fun _ => None)
           eq_refl ann_session_goes_on H).
Defined.

(** ** all_birthdays *)

Lemma birthdays_list_spec (items : list (string * Rec.Record_)) :
  List.map fst (Body.birthdays_list items)
  = List.map fst
      (List.filter
         (fun item => match Rec.birthday (snd item) with
                      | Some _ => true
                      | None => false
                      end)
         items)
  /\ (forall n v, In (n, v) (Body.birthdays_list items) ->
      exists record b, In (n, record) items /\ Rec.birthday record = Some b
                       /\ v = Birthday_value b)
  /\ (Body.birthdays_list items = []
      <-> ~ Exists (fun item => Rec.birthday (snd item) <> None) items).
Proof.
  induction items as [| [n record] items (IH1 & IH2 & IH3)];
    cbn [Body.birthdays_list List.filter List.map snd].
  - split; [reflexivity |]. split; [intros n v [] |].
    split; [intros _ H; inversion H | reflexivity].
  - destruct (Rec.birthday record) as [b |] eqn:Eb.
    + cbn [List.map fst]. split; [now rewrite IH1 |]. split.
      * intros n' v [E | Hin].
        -- injection E as <- <-. exists record, b. split; [now left | auto].
        -- destruct (IH2 n' v Hin) as [r [b' (H1 & H2 & H3)]].
           exists r, b'. split; [now right | auto].
      * split; [discriminate |]. intros H. exfalso. apply H. left. cbn [snd]. congruence.
    + split; [exact IH1 |]. split.
      * intros n' v Hin. destruct (IH2 n' v Hin) as [r [b' (H1 & H2 & H3)]].
        exists r, b'. split; [now right | auto].
      * rewrite IH3. split; intros H C; apply H.
        -- inversion C as [? ? Hc | ? ? Hc]; subst; [cbn [snd] in Hc; congruence | exact Hc].
        -- now right.
Qed.

(** X18: [all_birthdays] lists the contacts that have a birthday, and only
    them, in the order of the book, each with its birthday as [str] shows
    it; when no contact has one it returns the text that says so, not an
    empty listing.  The book is left alone. *)
Theorem all_birthdays_lists_the_contacts_with_a_birthday (book : AddressBook) :
  (~ has_birthday book <-> all_birthdays book = (inr MsgNoBirthdays, book))
  /\ (has_birthday book ->
      exists lines,
        all_birthdays book = (inr (MsgLines lines), book)
        /\ List.map fst lines
           = List.map fst
               (List.filter
                  (fun item => match Rec.birthday (snd item) with
                               | Some _ => true
                               | None => false
                               end)
                  (data book))
        /\ forall n shown,
            In (n, shown) lines ->
            exists record b,
              In (n, record) (data book) /\ Rec.birthday record = Some b
              /\ shown = Birthday_str b).
Proof.
  unfold has_birthday, all_birthdays, input_error, Body.all_birthdays.
  cbv beta delta [bind ret get_book]; cbv beta iota.
  destruct (birthdays_list_spec (data book)) as (H1 & H2 & H3).
  destruct (Body.birthdays_list (data book)) as [| nb l] eqn:E.
  - split.
    + split; [reflexivity | intros _; now apply H3].
    + intros He. exfalso. revert He. now apply H3.
  - split.
    + split; [| discriminate]. intros Hn. apply H3 in Hn. discriminate.
    + intros _. eexists. split; [reflexivity |]. split.
      * rewrite List.map_map. cbn [fst]. rewrite <- H1. reflexivity.
      * intros n shown Hin. apply in_map_iff in Hin.
        destruct Hin as [[n' v] [Eq Hin]]. cbn [fst snd] in Eq. injection Eq as <- <-.
        destruct (H2 n' v Hin) as [record [b (Ha & Hb & ->)]].
        exists record, b. auto.
Qed.

(** ** The queries on birthdays that hold dates *)

Section DateQueries.

Import Date.

Lemma advance_within_seven_witness :
  0 <= 0 <= 6
  /\ well_formed (mkDate 2025 1 1)
  /\ toordinal (mkDate 2025 1 1) + 6 <= _MAXORDINAL
  /\ exists d' steps,
      Book.advance 6 0 (mkDate 2025 1 1) 0 = Some (inr (d', steps))
      /\ (steps <= 6)%nat
      /\ Date.weekday d' = 0
      /\ toordinal (mkDate 2025 1 1) <= toordinal d' <= toordinal (mkDate 2025 1 1) + 6.
Proof.
  assert (Hw : 0 <= 0 <= 6) by lia.
  assert (Hd : well_formed (mkDate 2025 1 1)) by reflexivity.
  assert (Hm : toordinal (mkDate 2025 1 1) + 6 <= _MAXORDINAL)
    by (vm_compute; congruence).
  split; [exact Hw |]. split; [exact Hd |]. split; [exact Hm |].
  exact (advance_within_seven 0 (mkDate 2025 1 1) Hw Hd Hm).
Defined.

Lemma skip_weekend_spec_witness :
  well_formed (mkDate 2026 1 3)
  /\ toordinal (mkDate 2026 1 3) + 2 <= _MAXORDINAL
  /\ exists d',
      Book.skip_weekend (mkDate 2026 1 3) = inr d'
      /\ (Date.weekday (mkDate 2026 1 3) < 5 -> d' = mkDate 2026 1 3)
      /\ (5 <= Date.weekday (mkDate 2026 1 3) ->
          Date.weekday d' = 0
          /\ toordinal d' = toordinal (mkDate 2026 1 3) + (7 - Date.weekday (mkDate 2026 1 3))
          /\ 1 <= 7 - Date.weekday (mkDate 2026 1 3) <= 2).
Proof.
  assert (Hd : well_formed (mkDate 2026 1 3)) by reflexivity.
  assert (Hm : toordinal (mkDate 2026 1 3) + 2 <= _MAXORDINAL)
    by (vm_compute; congruence).
  split; [exact Hd |]. split; [exact Hm |].
  exact (skip_weekend_spec (mkDate 2026 1 3) Hd Hm).
Defined.

Lemma add_days_raises (d : date) (k : Z) (e : exn) :
  add_days d k = inl e -> e = OverflowError (MsgLibrary "date value out of range").
Proof.
  unfold add_days.
  destruct ((0 <? toordinal d + k) && (toordinal d + k <=? _MAXORDINAL)); congruence.
Qed.

Lemma advance_overflows (weekday : Z) :
  ~ 0 <= weekday <= 6 ->
  forall (k : nat) (d : date) (fuel steps : nat),
    well_formed d ->
    Z.to_nat (_MAXORDINAL - toordinal d) = k ->
    (k < fuel)%nat ->
    Book.advance fuel weekday d steps
    = Some (inl (OverflowError (MsgLibrary "date value out of range"))).
Proof.
  intros Hw. induction k as [| k IH]; intros d fuel steps Hd Hk Hfuel;
    pose proof (weekday_range d) as Hwd;
    pose proof (toordinal_bounds d Hd) as Hod;
    (destruct fuel as [| fuel]; [lia |]); cbn [Book.advance];
    (destruct (Z.eqb_spec (Date.weekday d) weekday) as [E | _]; [lia |]).
  - unfold add_days.
    replace ((0 <? toordinal d + 1) && (toordinal d + 1 <=? _MAXORDINAL)) with false
      by (symmetry; apply andb_false_iff; right; apply Z.leb_gt; lia).
    reflexivity.
  - destruct (add_days_spec d 1) as [d1 (Hadd & Hd1 & Ho1 & _)]; [lia |].
    rewrite Hadd. apply IH; trivial; lia.
Qed.

(** X21: with a weekday that is not one of 0..6 the weekday loop never
    finds its day: it returns no date, whatever the number of additions,
    and on a date of the calendar it ends, after the last day of the year
    9999, on the [OverflowError] of the addition. *)
Theorem advance_with_a_weekday_out_of_range (weekday : Z) :
  ~ 0 <= weekday <= 6 ->
  (forall fuel d steps r, Book.advance fuel weekday d steps <> Some (inr r))
  /\ (forall d fuel steps,
         well_formed d ->
         (Z.to_nat (_MAXORDINAL - toordinal d) < fuel)%nat ->
         Book.advance fuel weekday d steps
         = Some (inl (OverflowError (MsgLibrary "date value out of range")))).
Proof.
  intros Hw. split.
  - induction fuel as [| fuel IH]; intros d steps r;
      pose proof (weekday_range d) as Hwd; cbn [Book.advance];
      (destruct (Z.eqb_spec (Date.weekday d) weekday) as [E | _]; [lia |]).
    + discriminate.
    + destruct (add_days d 1) as [e | d1]; [discriminate | apply IH].
  - intros d fuel steps Hd Hfuel.
    now apply (advance_overflows weekday Hw (Z.to_nat (_MAXORDINAL - toordinal d)) d).
Qed.

Lemma advance_with_a_weekday_out_of_range_witness :
  ~ 0 <= 7 <= 6
  /\ (forall fuel d steps r, Book.advance fuel 7 d steps <> Some (inr r))
  /\ (forall d fuel steps,
         well_formed d ->
         (Z.to_nat (_MAXORDINAL - toordinal d) < fuel)%nat ->
         Book.advance fuel 7 d steps
         = Some (inl (OverflowError (MsgLibrary "date value out of range")))).
Proof.
  assert (H : ~ 0 <= 7 <= 6) by lia.
  split; [exact H |].
  exact (advance_with_a_weekday_out_of_range 7 H).
Defined.

Lemma days_before_year_mono (y y' : Z) :
  y <= y' -> _days_before_year y <= _days_before_year y'.
Proof.
  intros H. unfold _days_before_year. Z.div_mod_to_equations. lia.
Qed.

(** Month by month, the days before a month and its own days do not reach
    past the start of a later month. *)
Lemma month_starts_table :
  forallb
    (fun leap =>
       forallb
         (fun m =>
            forallb
              (fun m' =>
                 implb (m <? m')
                   (index _DAYS_BEFORE_MONTH m
                    + (if (2 <? m) && leap then 1 else 0)
                    + (if (m =? 2) && leap then 29 else index _DAYS_IN_MONTH m)
                    <=? index _DAYS_BEFORE_MONTH m'
                        + (if (2 <? m') && leap then 1 else 0)))
              (List.map Z.of_nat (seq 1 12)))
         (List.map Z.of_nat (seq 1 12)))
    [true; false] = true.
Proof.
  vm_compute. reflexivity.
Qed.

Lemma month_starts (y m m' : Z) :
  1 <= m -> m < m' -> m' <= 12 ->
  _days_before_month y m + _days_in_month y m <= _days_before_month y m'.
Proof.
  intros H1 H2 H3. unfold _days_before_month, _days_in_month.
  generalize (_is_leap y) as leap. intros leap.
  pose proof month_starts_table as T. rewrite forallb_forall in T.
  assert (Hl : In leap [true; false]) by (destruct leap; cbn; auto).
  specialize (T leap Hl). cbv beta in T. rewrite forallb_forall in T.
  assert (Hin : forall k, 1 <= k <= 12 -> In k (List.map Z.of_nat (seq 1 12))).
  { intros k Hk. apply in_map_iff. exists (Z.to_nat k). split; [lia |].
    apply in_seq. lia. }
  specialize (T m (Hin m ltac:(lia))). cbv beta in T. rewrite forallb_forall in T.
  specialize (T m' (Hin m' ltac:(lia))). cbv beta in T.
  replace (m <? m') with true in T by (symmetry; apply Z.ltb_lt; lia).
  cbn [implb] in T. apply Z.leb_le in T. lia.
Qed.

(** The order of dates is the order of their day numbers. *)
Lemma ltb_toordinal (a b : date) :
  well_formed a -> well_formed b ->
  Date.ltb a b = true -> toordinal a < toordinal b.
Proof.
  intros Ha Hb. apply well_formed_bounds in Ha, Hb.
  destruct Ha as (Hya & Hma & Hda), Hb as (Hyb & Hmb & Hdb).
  unfold Date.ltb, toordinal, _ymd2ord.
  repeat rewrite ?orb_true_iff, ?andb_true_iff. rewrite !Z.ltb_lt, !Z.eqb_eq.
  pose proof (days_before_month_bounds (year a) (month a) Hma) as Ba.
  pose proof (days_before_month_bounds (year b) (month b) Hmb) as Bb.
  intros [Hy | [Hy [Hm | [Hm Hd]]]].
  - pose proof (days_before_year_step (year a)) as Hs.
    pose proof (days_before_year_mono (year a + 1) (year b) ltac:(lia)). lia.
  - rewrite Hy in *.
    pose proof (month_starts (year b) (month a) (month b) ltac:(lia) Hm ltac:(lia)). lia.
  - rewrite Hy, Hm in *. lia.
Qed.

Lemma ltb_false_toordinal (a b : date) :
  well_formed a -> well_formed b ->
  Date.ltb a b = false -> toordinal b <= toordinal a.
Proof.
  intros Ha Hb Hlt.
  destruct (Date.ltb b a) eqn:E.
  - pose proof (ltb_toordinal b a Hb Ha E). lia.
  - assert (Heq : year a = year b /\ month a = month b /\ day a = day b).
    { revert Hlt E. unfold Date.ltb.
      repeat rewrite ?orb_false_iff, ?andb_false_iff.
      rewrite !Z.ltb_ge, !Z.eqb_neq. lia. }
    destruct Heq as (E1 & E2 & E3). unfold toordinal. rewrite E1, E2, E3. lia.
Qed.

Lemma Date_new_well_formed (y m d : Z) (dt : date) :
  Date.new y m d = inr dt ->
  well_formed dt /\ year dt = y /\ month dt = m /\ day dt = d.
Proof.
  intros H. apply Date_new_inr in H. destruct H as [Hv ->]. auto.
Qed.

Lemma year_step_days (y m d : Z) :
  _ymd2ord (y + 1) m d - _ymd2ord y m d <= 366.
Proof.
  unfold _ymd2ord, _days_before_month.
  rewrite days_before_year_step.
  destruct (Z.ltb_spec 2 m) as [Hm | Hm]; cbn [andb].
  - destruct (_is_leap y), (_is_leap (y + 1)); lia.
  - destruct (_is_leap y); lia.
Qed.

(** X22: the occurrence of a birthday that [get_upcoming_birthday] and
    [find_next_birthday] work with, when the birthday holds a date: it has
    the month and the day of the birthday, in the year of [today] or the
    one after; it is never before [today] and less than 366 days after it,
    so that the test [0 <=] of the window always holds.  Both functions
    compute the same occurrence. *)
Theorem occurrence_is_the_next_one (today b d : date) :
  well_formed today ->
  Book.occurrence_by_replace today (VDate b) = inr d ->
  Book.occurrence_by_fields today (VDate b) = inr d
  /\ well_formed d
  /\ month d = month b /\ day d = day b
  /\ (year d = year today \/ year d = year today + 1)
  /\ Date.ltb d today = false
  /\ 0 <= Date.sub_days d today < 366.
Proof.
  intros Ht. unfold Book.occurrence_by_replace, Book.occurrence_by_fields, replace_year.
  destruct (Date.new (year today) (month b) (day b)) as [e | d0] eqn:E0; [discriminate |].
  destruct (Date_new_well_formed _ _ _ _ E0) as (W0 & Y0 & M0 & D0).
  destruct (Date.ltb d0 today) eqn:Elt.
  - rewrite M0, D0. intros E1. split; [exact E1 |].
    destruct (Date_new_well_formed _ _ _ _ E1) as (W1 & Y1 & M1 & D1).
    split; [exact W1 |]. split; [exact M1 |]. split; [exact D1 |].
    split; [right; exact Y1 |].
    assert (Hnot : Date.ltb d today = false).
    { unfold Date.ltb. rewrite Y1.
      replace (year today + 1 <? year today) with false by (symmetry; apply Z.ltb_ge; lia).
      replace (year today + 1 =? year today) with false by (symmetry; apply Z.eqb_neq; lia).
      reflexivity. }
    split; [exact Hnot |].
    pose proof (ltb_false_toordinal d today W1 Ht Hnot) as Hlo.
    pose proof (ltb_toordinal d0 today W0 Ht Elt) as Hhi.
    pose proof (year_step_days (year today) (month b) (day b)) as Hstep.
    unfold Date.sub_days.
    unfold toordinal in *. rewrite Y0, M0, D0 in Hhi. rewrite Y1, M1, D1 in *. lia.
  - intros E1. injection E1 as <-. split; [reflexivity |].
    split; [exact W0 |]. split; [exact M0 |]. split; [exact D0 |].
    split; [left; exact Y0 |]. split; [exact Elt |].
    pose proof (ltb_false_toordinal d0 today W0 Ht Elt) as Hlo.
    unfold Date.sub_days. split; [lia |].
    pose proof (toordinal_bounds d0 W0). pose proof (toordinal_bounds today Ht).
    apply well_formed_bounds in Ht, W0.
    pose proof (days_before_month_bounds (year today) (month today) ltac:(lia)).
    pose proof (days_before_month_bounds (year d0) (month d0) ltac:(lia)).
    unfold toordinal, _ymd2ord in *. rewrite Y0 in *.
    destruct (_is_leap (year today)); lia.
Qed.

Lemma occurrence_is_the_next_one_witness :
  well_formed (mkDate 2024 12 30)
  /\ Book.occurrence_by_replace (mkDate 2024 12 30) (VDate (mkDate 1990 1 1))
     = inr (mkDate 2025 1 1)
  /\ Book.occurrence_by_fields (mkDate 2024 12 30) (VDate (mkDate 1990 1 1))
     = inr (mkDate 2025 1 1)
  /\ well_formed (mkDate 2025 1 1)
  /\ month (mkDate 2025 1 1) = month (mkDate 1990 1 1)
  /\ day (mkDate 2025 1 1) = day (mkDate 1990 1 1)
  /\ (year (mkDate 2025 1 1) = year (mkDate 2024 12 30)
      \/ year (mkDate 2025 1 1) = year (mkDate 2024 12 30) + 1)
  /\ Date.ltb (mkDate 2025 1 1) (mkDate 2024 12 30) = false
  /\ 0 <= Date.sub_days (mkDate 2025 1 1) (mkDate 2024 12 30) < 366.
Proof.
  assert (Ht : well_formed (mkDate 2024 12 30)) by reflexivity.
  assert (Ho : Book.occurrence_by_replace (mkDate 2024 12 30) (VDate (mkDate 1990 1 1))
               = inr (mkDate 2025 1 1)) by reflexivity.
  split; [exact Ht |]. split; [exact Ho |].
  exact (occurrence_is_the_next_one (mkDate 2024 12 30) (mkDate 1990 1 1)
           (mkDate 2025 1 1) Ht Ho).
Defined.

Lemma sub_days_lt (a b today : date) :
  (Date.sub_days a today <? Date.sub_days b today) = (toordinal a <? toordinal b).
Proof.
  unfold Date.sub_days.
  destruct (Z.ltb_spec (toordinal a) (toordinal b));
    [apply Z.ltb_lt | apply Z.ltb_ge]; lia.
Qed.

Lemma candidate_unique (fuel : nat) (today : date) (weekday : Z)
    (record : Rec.Record_) (d d' : date) :
  candidate fuel today weekday record d ->
  candidate fuel today weekday record d' -> d = d'.
Proof.
  intros [b [o [k (Hb & Ho & Ha)]]] [b' [o' [k' (Hb' & Ho' & Ha')]]].
  congruence.
Qed.

Lemma find_next_birthday_loop_spec (fuel : nat) (today : date) (weekday : Z)
    (items : list (string * Rec.Record_)) :
  forall (acc res : option date),
    Book.find_next_birthday_loop fuel today weekday items acc = Some (inr res) ->
    match res with
    | None => acc = None /\ Forall (fun item => Rec.birthday (snd item) = None) items
    | Some d =>
        (acc = Some d
         \/ exists n record,
              In (n, record) items /\ candidate fuel today weekday record d)
        /\ (forall a, acc = Some a -> toordinal d <= toordinal a)
        /\ (forall n record d',
               In (n, record) items -> candidate fuel today weekday record d' ->
               toordinal d <= toordinal d')
    end.
Proof.
  induction items as [| [n record] items IH]; intros acc res;
    cbn [Book.find_next_birthday_loop].
  - intros H. injection H as <-. destruct acc as [a |].
    + split; [now left |]. split; [intros a' E; injection E as <-; lia |].
      intros n record d' [].
    + split; constructor.
  - destruct (Rec.birthday record) as [b |] eqn:Eb.
    + destruct (Book.occurrence_by_fields today (Birthday_value b)) as [e | occ] eqn:Eo;
        [discriminate |].
      destruct (Book.advance fuel weekday occ 0) as [[e | [d1 k]] |] eqn:Ea;
        try discriminate.
      assert (Hc : candidate fuel today weekday record d1)
        by (exists b, occ, k; auto).
      set (x := match acc with
                | None => d1
                | Some nb => if Date.sub_days d1 today <? Date.sub_days nb today
                             then d1 else nb
                end).
      assert (Hx : (x = d1 \/ acc = Some x)
                   /\ toordinal x <= toordinal d1
                   /\ forall a, acc = Some a -> toordinal x <= toordinal a).
      { subst x. destruct acc as [nb |].
        - rewrite sub_days_lt. destruct (Z.ltb_spec (toordinal d1) (toordinal nb)).
          + split; [now left |]. split; [lia |]. intros a E. injection E as <-. lia.
          + split; [now right |]. split; [lia |]. intros a E. injection E as <-. lia.
        - split; [now left |]. split; [lia | discriminate]. }
      destruct Hx as (Hx1 & Hx2 & Hx3).
      replace (match acc with
               | Some nb => if Date.sub_days d1 today <? Date.sub_days nb today
                            then Some d1 else Some nb
               | None => Some d1
               end) with (Some x) by (subst x; destruct acc as [nb |];
                                      [destruct (_ <? _) |]; reflexivity).
      intros H. apply IH in H. destruct res as [d |]; [| destruct H; discriminate].
      destruct H as (Hmem & Hle & Hall).
      pose proof (Hle x eq_refl) as Hdx. split; [| split].
      * destruct Hmem as [E | [n' [r' [Hin Hc']]]].
        -- injection E as ->. destruct Hx1 as [-> | ->]; [| now left].
           right. exists n, record. split; [now left | exact Hc].
        -- right. exists n', r'. split; [now right | exact Hc'].
      * intros a Ha. specialize (Hx3 a Ha). lia.
      * intros n' r' d' [E | Hin] Hc'.
        -- injection E as <- <-. rewrite (candidate_unique _ _ _ _ _ _ Hc' Hc). lia.
        -- now apply (Hall n' r').
    + intros H. apply IH in H. destruct res as [d |].
      * destruct H as (Hmem & Hle & Hall). split; [| split; [exact Hle |]].
        -- destruct Hmem as [E | [n' [r' [Hin Hc']]]]; [now left |].
           right. exists n', r'. split; [now right | exact Hc'].
        -- intros n' r' d' [E | Hin] Hc'; [| now apply (Hall n' r')].
           injection E as <- <-. destruct Hc' as [b [o [k (Hb & _)]]]. congruence.
      * destruct H as [-> Hf]. split; [reflexivity |]. now constructor.
Qed.

(** X23: when [find_next_birthday] returns (the birthdays then hold
    dates), the date it returns is the one of a record of the book (the
    occurrence of its birthday moved on to the weekday asked for), and no
    record has an earlier one; when it returns nothing, no record has a
    birthday. *)
Theorem find_next_birthday_returns_the_earliest
    (fuel : nat) (today : date) (weekday : Z) (book : AddressBook)
    (res : option date) :
  Book.find_next_birthday fuel today book weekday = Some (inr res) ->
  match res with
  | None => ~ has_birthday book
  | Some d =>
      (exists n record,
          In (n, record) (data book) /\ candidate fuel today weekday record d)
      /\ (forall n record d',
             In (n, record) (data book) -> candidate fuel today weekday record d' ->
             toordinal d <= toordinal d')
  end.
Proof.
  unfold Book.find_next_birthday, has_birthday. intros H.
  apply find_next_birthday_loop_spec in H. destruct res as [d |].
  - destruct H as (Hmem & _ & Hall). split; [| exact Hall].
    destruct Hmem as [E | Hm]; [discriminate | exact Hm].
  - destruct H as [_ Hf]. intros He. apply Exists_exists in He.
    destruct He as [item [Hin Hb]]. rewrite Forall_forall in Hf. now apply Hb, Hf.
Qed.

Lemma find_next_birthday_returns_the_earliest_witness :
  Book.find_next_birthday 7 (mkDate 2024 12 30) ann_book_with_date 0
  = Some (inr (Some (mkDate 2025 1 6)))
  /\ (exists n record,
         In (n, record) (data ann_book_with_date)
         /\ candidate 7 (mkDate 2024 12 30) 0 record (mkDate 2025 1 6))
  /\ (forall n record d',
         In (n, record) (data ann_book_with_date) ->
         candidate 7 (mkDate 2024 12 30) 0 record d' ->
         toordinal (mkDate 2025 1 6) <= toordinal d').
Proof.
  split; [reflexivity |].
  exact (find_next_birthday_returns_the_earliest 7 (mkDate 2024 12 30) 0
           ann_book_with_date (Some (mkDate 2025 1 6)) eq_refl).
Defined.

(** The date a weekend day is moved to is a Monday; any other day is
    kept. *)
Lemma skip_weekend_weekday (d d' : date) :
  Book.skip_weekend d = inr d' -> Date.weekday d' < 5.
Proof.
  unfold Book.skip_weekend, add_days. pose proof (weekday_range d) as Hw.
  destruct (Z.leb_spec 5 (Date.weekday d)) as [H5 | H5].
  - remember (7 - Date.weekday d) as k eqn:Hk.
    destruct (Z.ltb_spec 0 (toordinal d + k)) as [H0 | H0];
      cbn [andb]; [| discriminate].
    destruct (toordinal d + k <=? _MAXORDINAL); [| discriminate].
    intros H. injection H as <-. unfold Date.weekday at 1.
    rewrite toordinal_fromordinal by lia.
    unfold Date.weekday in *. Z.div_mod_to_equations. lia.
  - intros H. injection H as <-. lia.
Qed.

Lemma get_upcoming_birthday_loop_spec (days : Z) (today : date)
    (items : list (string * Rec.Record_)) :
  forall upcoming l,
    Book.get_upcoming_birthday_loop days today items upcoming = inr l ->
    exists added,
      l = (upcoming ++ added)%list
      /\ forall n text,
           In (n, text) added
           <-> exists record,
                 In (n, record) items /\ congratulated today days record text.
Proof.
  induction items as [| [n record] items IH]; intros upcoming l;
    cbn [Book.get_upcoming_birthday_loop].
  - intros H. injection H as <-. exists []. rewrite app_nil_r. split; [reflexivity |].
    intros n text. split; [intros [] | intros [r [[] _]]].
  - destruct (Rec.birthday record) as [b |] eqn:Eb.
    + destruct (Book.occurrence_by_replace today (Birthday_value b)) as [e | occ] eqn:Eo;
        [discriminate |].
      destruct ((0 <=? Date.sub_days occ today) && (Date.sub_days occ today <=? days))
        eqn:Ew.
      * destruct (Book.skip_weekend occ) as [e | d] eqn:Es; [discriminate |].
        apply andb_true_iff in Ew. rewrite !Z.leb_le in Ew.
        assert (Hc : congratulated today days record (strftime_Ymd d)).
        { exists b, occ, d. repeat split; trivial; try lia.
          now apply (skip_weekend_weekday occ). }
        intros H. apply IH in H. destruct H as [added [-> Hadded]].
        exists ((n, strftime_Ymd d) :: added). rewrite <- app_assoc.
        split; [reflexivity |]. intros n' text. cbn [In]. rewrite Hadded. split.
        -- intros [E | [r [Hin Hr]]].
           ++ injection E as <- <-. exists record. split; [now left | exact Hc].
           ++ exists r. split; [now right | exact Hr].
        -- intros [r [[E | Hin] Hr]].
           ++ injection E as <- <-. left. f_equal.
              destruct Hr as [b' [o' [d' (Hb' & Ho' & _ & Hs' & _ & ->)]]].
              congruence.
           ++ right. now exists r.
      * intros H. apply IH in H. destruct H as [added [-> Hadded]].
        exists added. split; [reflexivity |]. intros n' text. rewrite Hadded. split.
        -- intros [r [Hin Hr]]. exists r. split; [now right | exact Hr].
        -- intros [r [[E | Hin] Hr]]; [| now exists r].
           injection E as <- <-. exfalso.
           destruct Hr as [b' [o' [d' (Hb' & Ho' & Hw' & _)]]].
           assert (o' = occ) by congruence. subst o'.
           apply andb_false_iff in Ew. rewrite !Z.leb_gt in Ew. lia.
    + intros H. apply IH in H. destruct H as [added [-> Hadded]].
      exists added. split; [reflexivity |]. intros n' text. rewrite Hadded. split.
      * intros [r [Hin Hr]]. exists r. split; [now right | exact Hr].
      * intros [r [[E | Hin] Hr]]; [| now exists r].
        injection E as <- <-. destruct Hr as [b' [o' [d' (Hb' & _)]]]. congruence.
Qed.

(** X24: when [get_upcoming_birthday] returns, it lists a name with a text
    exactly when a record under that name has a birthday whose occurrence
    is from 0 to [days] days after [today], the text being the day it is
    moved to, as year.month.day; that day is never a Saturday or a
    Sunday. *)
Theorem get_upcoming_birthday_lists_the_window
    (today : date) (days : Z) (book : AddressBook) (l : list (string * string)) :
  Book.get_upcoming_birthday today book days = inr l ->
  forall n text,
    In (n, text) l
    <-> exists record,
          In (n, record) (data book) /\ congratulated today days record text.
Proof.
  unfold Book.get_upcoming_birthday. intros H.
  apply get_upcoming_birthday_loop_spec in H. destruct H as [added [-> Hadded]].
  exact Hadded.
Qed.

Lemma get_upcoming_birthday_lists_the_window_witness :
  Book.get_upcoming_birthday (mkDate 2024 12 30) ann_book_with_date 7
  = inr [("Ann", "2025.01.01")]
  /\ forall n text,
       In (n, text) [("Ann", "2025.01.01")]
       <-> exists record,
             In (n, record) (data ann_book_with_date)
             /\ congratulated (mkDate 2024 12 30) 7 record text.
Proof.
  split; [reflexivity |].
  exact (get_upcoming_birthday_lists_the_window (mkDate 2024 12 30) 7
           ann_book_with_date [("Ann", "2025.01.01")] eq_refl).
Defined.

End DateQueries.
